(** * Request log store of the proxy: a shallow embedding of
      [pkg/db/sqlite/sqlite.go] and of the resolver that maps stored
      records to the query API.

    The store is SQLite behind Go's [database/sql].  The embedding keeps
    the three tables as lists of rows in rowid order, threads them through
    a small state-and-error monad, and lets every driver call fail
    according to a fault schedule carried by the state.  *)

From Stdlib Require Import ZArith Ascii String.
From stdpp Require Import base gmap strings pretty list sorting.

Open Scope string_scope.
Open Scope list_scope.
Open Scope Z_scope.

(** ** Go errors *)

(** [database/sql] and [reqlog] export sentinel errors that callers compare
    with [==]; every other error is a message. *)
Inductive error : Type :=
| ErrNoRows
| ErrTxDone
| ErrRequestNotFound
| errorString (s : string).

Definition Error (e : error) : string :=
  match e with
  | ErrNoRows => "sql: no rows in result set"
  | ErrTxDone => "sql: transaction has already been committed or rolled back"
  | ErrRequestNotFound => "reqlog: request not found"
  | errorString s => s
  end.

(** [fmt.Errorf(prefix + "%v", err)]: the result is a fresh message, never
    one of the sentinels. *)
Definition Errorf (prefix : string) (e : error) : error :=
  errorString (prefix +:+ Error e).

Inductive result (A : Type) : Type :=
| Ok (a : A)
| Err (e : error).
Arguments Ok {A} a.
Arguments Err {A} e.

(** ** Tables *)

(** [time.Time] is kept as an instant on the integer line: the
    nanoseconds since January 1 of year 1, 00:00:00 UTC, which is the zero
    value of the type.  Times are taken in UTC. *)
Abbreviation Time := Z (only parsing).

Record requests_row : Type := mk_requests_row {
  rq_id : Z;
  rq_proto : string;
  rq_url : string;
  rq_method : string;
  rq_body : list Byte.byte;
  rq_timestamp : Time
}.

Record responses_row : Type := mk_responses_row {
  rs_id : Z;
  rs_req_id : Z;
  rs_proto : string;
  rs_status_code : Z;
  rs_status_reason : string;
  rs_body : list Byte.byte;
  rs_timestamp : Time
}.

Record headers_row : Type := mk_headers_row {
  hd_id : Z;
  hd_req_id : option Z;
  hd_res_id : option Z;
  hd_key : string;
  hd_value : string
}.

(** Rows are kept in insertion order, which is rowid order. *)
Record DB : Type := mk_DB {
  http_requests : list requests_row;
  http_responses : list responses_row;
  http_headers : list headers_row
}.

Definition empty_DB : DB := mk_DB [] [] [].

(** [INTEGER PRIMARY KEY] without AUTOINCREMENT: the new rowid is one more
    than the largest one in the table, and 1 in an empty table.  This is
    the choice of SQLite as long as the largest rowid is between 0 and
    [2^63 - 2], as it is in a table these inserts fill from empty; after a
    negative rowid, or once [2^63 - 1] is taken, SQLite picks another
    number, which this definition does not follow. *)
Definition next_rowid (ids : list Z) : Z := 1 + foldr Z.max 0 ids.

(** ** The connection: committed store, open transaction, fault schedule *)

Record World : Type := mk_World {
  committed : DB;
  tx : option DB;
  faults : list (option string)
}.

Definition set_faults (fs : list (option string)) (w : World) : World :=
  mk_World (committed w) (tx w) fs.
Definition set_tx (t : option DB) (w : World) : World :=
  mk_World (committed w) t (faults w).

(** A world that never fails a driver call. *)
Definition quiet (d : DB) : World := mk_World d None [].

Definition M (A : Type) : Type := World → result A * World.

Definition ret {A} (a : A) : M A := λ w, (Ok a, w).
Definition fail {A} (e : error) : M A := λ w, (Err e, w).
Definition bind {A B} (m : M A) (k : A → M B) : M B :=
  λ w, match m w with
       | (Ok a, w') => k a w'
       | (Err e, w') => (Err e, w')
       end.

Declare Scope go_scope.
Delimit Scope go_scope with go.
Notation "x <- c1 ;; c2" := (bind c1 (λ x, c2))
  (at level 100, c1 at next level, right associativity) : go_scope.
Notation "c1 ;; c2" := (bind c1 (λ _, c2))
  (at level 100, right associativity) : go_scope.
Open Scope go_scope.

(** [if err != nil { return ..., fmt.Errorf(prefix, err) }] around a call. *)
Definition wrap {A} (prefix : string) (m : M A) : M A :=
  λ w, match m w with
       | (Ok a, w') => (Ok a, w')
       | (Err e, w') => (Err (Errorf prefix e), w')
       end.

(** [defer d]: [d] runs when the body returns, on every path, and its own
    result is dropped. *)
Definition defer {A} (d : M unit) (body : M A) : M A :=
  λ w, match body w with
       | (r, w') => (r, snd (d w'))
       end.

(** One driver round trip.  It consumes the head of the fault schedule. *)
Definition step : M unit :=
  λ w, match faults w with
       | Some msg :: fs => (Err (errorString msg), set_faults fs w)
       | None :: fs => (Ok tt, set_faults fs w)
       | [] => (Ok tt, w)
       end.

(** [db.BeginTx]: the transaction works on a private copy. *)
Definition BeginTx : M unit :=
  step ;; (λ w, (Ok tt, set_tx (Some (committed w)) w)).

(** [tx.Commit]: the transaction is finished whatever the driver answers;
    its writes reach the store only when the driver accepts. *)
Definition Commit : M unit :=
  λ w, match tx w with
       | None => (Err ErrTxDone, w)
       | Some d =>
           match step w with
           | (Ok _, w') => (Ok tt, mk_World d None (faults w'))
           | (Err e, w') => (Err e, set_tx None w')
           end
       end.

(** [tx.Rollback]: drops the private copy; [ErrTxDone] once finished.
    The callers defer it and drop its answer; the round trip of the
    driver it makes, like the one of a deferred [stmt.Close], is left out
    of the fault schedule. *)
Definition Rollback : M unit :=
  λ w, match tx w with
       | None => (Err ErrTxDone, w)
       | Some _ => (Ok tt, set_tx None w)
       end.

(** Statements run inside the open transaction. *)
Definition in_tx {A} (f : DB → result A * DB) : M A :=
  λ w, match tx w with
       | None => (Err ErrTxDone, w)
       | Some d => match f d with
                   | (r, d') => (r, set_tx (Some d') w)
                   end
       end.

(** ** net/textproto and net/http *)

Module textproto.

(** Token bytes of RFC 7230, the ones a header field name may hold. *)
Definition validHeaderFieldByte (c : ascii) : bool :=
  let n := nat_of_ascii c in
  ((48 <=? n) && (n <=? 57))%nat || ((65 <=? n) && (n <=? 90))%nat
  || ((97 <=? n) && (n <=? 122))%nat
  || bool_decide (n ∈ [33; 35; 36; 37; 38; 39; 42; 43; 45; 46; 94; 95; 96; 124; 126]%nat).

Definition isLower (c : ascii) : bool :=
  let n := nat_of_ascii c in ((97 <=? n) && (n <=? 122))%nat.
Definition isUpper (c : ascii) : bool :=
  let n := nat_of_ascii c in ((65 <=? n) && (n <=? 90))%nat.
Definition toLower : nat := 32.

(** The second loop of [canonicalMIMEHeaderKey]: upper case at the start
    and after each dash, lower case elsewhere. *)
Fixpoint canonicalize (upper : bool) (a : string) : string :=
  match a with
  | EmptyString => EmptyString
  | String c rest =>
      let c' :=
        if upper && isLower c then ascii_of_nat (nat_of_ascii c - toLower)
        else if negb upper && isUpper c then ascii_of_nat (nat_of_ascii c + toLower)
        else c in
      String c' (canonicalize (Ascii.eqb c' "-") rest)
  end.

(** [CanonicalMIMEHeaderKey]: a key holding a byte that is not a token
    byte is returned as it is. *)
Definition CanonicalMIMEHeaderKey (s : string) : string :=
  if forallb validHeaderFieldByte (list_ascii_of_string s)
  then canonicalize true s
  else s.

End textproto.

(** [http.Header] is [map[string][]string]. *)
Abbreviation Header := (gmap string (list string)).

(** [h[k]], which is the empty slice for an absent key. *)
Definition values (h : Header) (k : string) : list string := default [] (h !! k).

(** [Header.Add]: the key is canonicalised, the value appended. *)
Definition Add (h : Header) (key value : string) : Header :=
  let key := textproto.CanonicalMIMEHeaderKey key in
  <[key := values h key ++ [value]]> h.

(** What one [for key, values := range headers] can yield: every entry
    once, in an order the runtime picks. *)
Definition range_of (h : Header) (l : list (string * list string)) : Prop :=
  l ≡ₚ map_to_list h.

Module http.

Module Request.
(** The fields of [http.Request] the store reads.  [URL] is the text
    [URL.String()] renders; a nil [Header] is [None]. *)
Record t : Type := mk {
  Method : string;
  URL : string;
  Proto : string;
  Header : option Header
}.
End Request.

Module Response.
Record t : Type := mk {
  Status : string;
  StatusCode : Z;
  Proto : string;
  Header : option Header
}.
End Response.

End http.

Module reqlog.

Module Response.
Record t : Type := mk {
  ID : Z;
  RequestID : Z;
  Response : http.Response.t;
  Body : list Byte.byte;
  Timestamp : Time
}.
End Response.

Module Request.
Record t : Type := mk {
  ID : Z;
  Request : http.Request.t;
  Body : list Byte.byte;
  Timestamp : Time;
  Response : option Response.t
}.
End Request.

End reqlog.

(** Values of a nilable header map. *)
Definition header_values (h : option Header) (k : string) : list string :=
  match h with
  | Some h => values h k
  | None => []
  end.


(** ** database/sql over SQLite *)

(** What a driver argument or a result column holds. *)
Inductive value : Type :=
| VNull
| VInt (n : Z)
| VText (s : string)
| VBlob (b : list Byte.byte)
| VTime (t : Time).

(** *** The driver, go-sqlite3 *)

Module sqlite3.

(** The driver binds a [time.Time] as the text [Format] gives under the
    layout [2006-01-02 15:04:05.999999999-07:00], and reads a column
    declared [DATETIME] by parsing its text under the same layout.  The
    year of the layout has four digits: the text of a time before year
    0000 or after year 9999 does not parse, and the driver then answers
    the zero [time.Time], without an error. *)
Definition nanoseconds_per_day : Z := 86400 * 1000000000.

(** January 1 of year 0000, a leap year, and January 1 of year 10000. *)
Definition year_0000 : Time := - 366 * nanoseconds_per_day.
Definition year_10000 : Time := 3652059 * nanoseconds_per_day.

Definition parses (t : Time) : bool := (year_0000 <=? t) && (t <? year_10000).

(** What is read from a [DATETIME] column in which [t] was written. *)
Definition read_time (t : Time) : Time := if parses t then t else 0.

End sqlite3.

(** The four INSERT texts of the store:
    - [INSERT INTO http_requests (proto, url, method, body, timestamp)
       VALUES (?, ?, ?, ?, ?)];
    - [INSERT INTO http_responses (req_id, proto, status_code,
       status_reason, body, timestamp) VALUES (?, ?, ?, ?, ?, ?)];
    - [INSERT INTO http_headers (req_id, key, value) VALUES (?, ?, ?)];
    - [INSERT INTO http_headers (res_id, key, value) VALUES (?, ?, ?)]. *)
Inductive insert_stmt : Type :=
| insert_http_requests
| insert_http_responses
| insert_http_headers_req_id
| insert_http_headers_res_id.

(** Foreign keys are enforced ([_foreign_keys=1]): a child row whose parent
    is missing is refused. *)
Definition exec_insert (s : insert_stmt) (args : list value) (d : DB) : result Z * DB :=
  match s, args with
  | insert_http_requests, [VText proto; VText url; VText method; VBlob body; VTime ts] =>
      let id := next_rowid (rq_id <$> http_requests d) in
      (Ok id, mk_DB (http_requests d ++ [mk_requests_row id proto url method body ts])
                    (http_responses d) (http_headers d))
  | insert_http_responses,
    [VInt req_id; VText proto; VInt code; VText reason; VBlob body; VTime ts] =>
      if bool_decide (req_id ∈ rq_id <$> http_requests d) then
        let id := next_rowid (rs_id <$> http_responses d) in
        (Ok id, mk_DB (http_requests d)
                      (http_responses d ++ [mk_responses_row id req_id proto code reason body ts])
                      (http_headers d))
      else (Err (errorString "FOREIGN KEY constraint failed"), d)
  | insert_http_headers_req_id, [VInt req_id; VText key; VText val] =>
      if bool_decide (req_id ∈ rq_id <$> http_requests d) then
        let id := next_rowid (hd_id <$> http_headers d) in
        (Ok id, mk_DB (http_requests d) (http_responses d)
                      (http_headers d ++ [mk_headers_row id (Some req_id) None key val]))
      else (Err (errorString "FOREIGN KEY constraint failed"), d)
  | insert_http_headers_res_id, [VInt res_id; VText key; VText val] =>
      if bool_decide (res_id ∈ rs_id <$> http_responses d) then
        let id := next_rowid (hd_id <$> http_headers d) in
        (Ok id, mk_DB (http_requests d) (http_responses d)
                      (http_headers d ++ [mk_headers_row id None (Some res_id) key val]))
      else (Err (errorString "FOREIGN KEY constraint failed"), d)
  | _, _ => (Err (errorString "sql: statement and arguments do not match"), d)
  end.

(** [tx.PrepareContext] of an INSERT. *)
Definition PrepareContext (s : insert_stmt) : M insert_stmt := step ;; ret s.

(** [stmt.ExecContext]; the answer is the [sql.Result], here its rowid. *)
Definition ExecContext (s : insert_stmt) (args : list value) : M Z :=
  step ;; in_tx (exec_insert s args).

(** [result.LastInsertId]. *)
Definition LastInsertId (r : Z) : M Z := step ;; ret r.

(** *** squirrel *)

Module sq.

Record SelectBuilder : Type := mk {
  Columns : list string;
  FromPart : string;
  Joins : list string;
  WhereParts : list string;
  OrderBys : list string
}.

Definition Select (columns : list string) : SelectBuilder := mk columns "" [] [] [].
Definition From (b : SelectBuilder) (from : string) : SelectBuilder :=
  mk (Columns b) from (Joins b) (WhereParts b) (OrderBys b).
Definition LeftJoin (b : SelectBuilder) (join : string) : SelectBuilder :=
  mk (Columns b) (FromPart b) (Joins b ++ ["LEFT JOIN " +:+ join]) (WhereParts b) (OrderBys b).
Definition Where (b : SelectBuilder) (pred : string) : SelectBuilder :=
  mk (Columns b) (FromPart b) (Joins b) (WhereParts b ++ [pred]) (OrderBys b).
Definition OrderBy (b : SelectBuilder) (o : string) : SelectBuilder :=
  mk (Columns b) (FromPart b) (Joins b) (WhereParts b) (OrderBys b ++ [o]).

Fixpoint Join (sep : string) (l : list string) : string :=
  match l with
  | [] => ""
  | [x] => x
  | x :: rest => x +:+ sep +:+ Join sep rest
  end.

Definition clause (kw sep : string) (l : list string) : string :=
  match l with
  | [] => ""
  | _ => kw +:+ Join sep l
  end.

Definition ToSql (b : SelectBuilder) : result string :=
  match Columns b with
  | [] => Err (errorString "select statements must have at least one result column")
  | _ =>
      Ok ("SELECT " +:+ Join ", " (Columns b)
          +:+ clause " FROM " "" [FromPart b]
          +:+ clause " " " " (Joins b)
          +:+ clause " WHERE " " AND " (WhereParts b)
          +:+ clause " ORDER BY " ", " (OrderBys b))
  end.

End sq.

(** *** The SELECT statements SQLite is given *)

(** A result row: the name and the value of each result column. *)
Abbreviation row := (list (string * value)).

Definition opt_value {A} (f : A → value) (o : option A) : value :=
  match o with
  | Some a => f a
  | None => VNull
  end.

(** The columns the two joined tables offer to a result column written
    [alias.column] or [alias.column AS name]: the result name, whether the
    alias is [res], and the value.  A timestamp is read as the driver
    reads it. *)
Definition base_columns :
  list (string * (string * bool * (requests_row → option responses_row → value))) :=
  [ ("req.id AS req_id", ("req_id", false, λ q _, VInt (rq_id q)));
    ("req.proto AS req_proto", ("req_proto", false, λ q _, VText (rq_proto q)));
    ("req.url", ("url", false, λ q _, VText (rq_url q)));
    ("req.method", ("method", false, λ q _, VText (rq_method q)));
    ("req.body AS req_body", ("req_body", false, λ q _, VBlob (rq_body q)));
    ("req.timestamp AS req_timestamp",
      ("req_timestamp", false, λ q _, VTime (sqlite3.read_time (rq_timestamp q))));
    ("res.id AS res_id", ("res_id", true, λ _ s, opt_value (VInt ∘ rs_id) s));
    ("res.req_id AS res_req_id", ("res_req_id", true, λ _ s, opt_value (VInt ∘ rs_req_id) s));
    ("res.proto AS res_proto", ("res_proto", true, λ _ s, opt_value (VText ∘ rs_proto) s));
    ("res.status_code", ("status_code", true, λ _ s, opt_value (VInt ∘ rs_status_code) s));
    ("res.status_reason", ("status_reason", true, λ _ s, opt_value (VText ∘ rs_status_reason) s));
    ("res.body AS res_body", ("res_body", true, λ _ s, opt_value (VBlob ∘ rs_body) s));
    ("res.timestamp AS res_timestamp",
      ("res_timestamp", true,
       λ _ s, opt_value (VTime ∘ sqlite3.read_time ∘ rs_timestamp) s)) ].

(** The expression of a result column, without its [AS name]. *)
Definition expression (c : string) : string :=
  match index 0 " AS " c with
  | Some n => substring 0 n c
  | None => c
  end.

Fixpoint assoc {V} (k : string) (l : list (string * V)) : option V :=
  match l with
  | [] => None
  | (k', v) :: rest => if String.eqb k k' then Some v else assoc k rest
  end.

(** Resolves the result columns of a query over [http_requests req]; a
    column of [res] is known only when [http_responses res] is joined. *)
Fixpoint resolve_base (joined : bool) (cols : list string) :
  result (list (string * (requests_row → option responses_row → value))) :=
  match cols with
  | [] => Ok []
  | c :: rest =>
      match assoc c base_columns with
      | Some (name, needs_res, get) =>
          if needs_res && negb joined then Err (errorString ("no such column: " +:+ expression c))
          else match resolve_base joined rest with
               | Ok l => Ok ((name, get) :: l)
               | Err e => Err e
               end
      | None => Err (errorString ("no such column: " +:+ expression c))
      end
  end.

(** The columns of [http_headers]. *)
Definition header_columns : list (string * (headers_row → value)) :=
  [ ("id", λ h, VInt (hd_id h));
    ("req_id", λ h, opt_value VInt (hd_req_id h));
    ("res_id", λ h, opt_value VInt (hd_res_id h));
    ("key", λ h, VText (hd_key h));
    ("value", λ h, VText (hd_value h)) ].

Fixpoint resolve_header (cols : list string) : result (list (string * (headers_row → value))) :=
  match cols with
  | [] => Ok []
  | c :: rest =>
      match assoc c header_columns with
      | Some get =>
          match resolve_header rest with
          | Ok l => Ok ((c, get) :: l)
          | Err e => Err e
          end
      | None => Err (errorString ("no such column: " +:+ expression c))
      end
  end.

(** [ORDER BY req.id DESC]. *)
Definition id_desc (a b : requests_row) : Prop := rq_id b ≤ rq_id a.
#[global] Instance id_desc_dec a b : Decision (id_desc a b) := Z_le_dec _ _.

(** [LEFT JOIN http_responses res ON req.id = res.req_id]: one row per
    matching response, and one row with NULLs when there is none. *)
Definition left_join (responses : list responses_row) (q : requests_row) :
  list (requests_row * option responses_row) :=
  match filter (λ s, rs_req_id s = rq_id q) responses with
  | [] => [(q, None)]
  | l => (λ s, (q, Some s)) <$> l
  end.

Inductive header_owner : Type := by_req_id | by_res_id.

(** A compiled SELECT. *)
Inductive plan : Type :=
| plan_requests (cols : list (string * (requests_row → option responses_row → value)))
                (joined by_id ordered : bool)
| plan_headers (cols : list (string * (headers_row → value))) (owner : header_owner).

Definition unsupported {A} : result A := Err (errorString "near clause: syntax error").

(** Compiles the statements the builder of this client renders: a query
    over [http_requests req], or a query over [http_headers] by owner. *)
Definition compile (b : sq.SelectBuilder) : result plan :=
  if String.eqb (sq.FromPart b) "http_requests req" then
    let joined :=
      match sq.Joins b with
      | [] => Some false
      | [j] => if String.eqb j "LEFT JOIN http_responses res ON req.id = res.req_id"
               then Some true else None
      | _ => None
      end in
    let by_id :=
      match sq.WhereParts b with
      | [] => Some false
      | [p] => if String.eqb p "req.id = ?" then Some true else None
      | _ => None
      end in
    let ordered :=
      match sq.OrderBys b with
      | [] => Some false
      | [o] => if String.eqb o "req.id DESC" then Some true else None
      | _ => None
      end in
    match joined, by_id, ordered with
    | Some j, Some w, Some o =>
        match resolve_base j (sq.Columns b) with
        | Ok cols => Ok (plan_requests cols j w o)
        | Err e => Err e
        end
    | _, _, _ => unsupported
    end
  else if String.eqb (sq.FromPart b) "http_headers" then
    let owner :=
      match sq.Joins b, sq.WhereParts b, sq.OrderBys b with
      | [], [p], [] =>
          if String.eqb p "req_id = ?" then Some by_req_id
          else if String.eqb p "res_id = ?" then Some by_res_id
          else None
      | _, _, _ => None
      end in
    match owner with
    | Some o =>
        match resolve_header (sq.Columns b) with
        | Ok cols => Ok (plan_headers cols o)
        | Err e => Err e
        end
    | None => unsupported
    end
  else Err (errorString ("no such table: " +:+ sq.FromPart b)).

(** Runs a compiled SELECT.  Without [ORDER BY] the rows come in rowid
    order, the order of SQLite's table scan.  Arguments beyond the
    placeholders of the statement are ignored, as the driver does. *)
Definition run (p : plan) (args : list value) (d : DB) : result (list row) :=
  match p with
  | plan_requests cols joined by_id ordered =>
      let selected :=
        if by_id then
          match args with
          | VInt id :: _ => Some (filter (λ q, rq_id q = id) (http_requests d))
          | VNull :: _ => Some []
          | _ => None
          end
        else Some (http_requests d) in
      match selected with
      | None => Err (errorString "not enough args to execute query")
      | Some reqs =>
          let reqs := if ordered then merge_sort id_desc reqs else reqs in
          let js := if joined then reqs ≫= left_join (http_responses d)
                    else (λ q, (q, None)) <$> reqs in
          Ok ((λ j, (λ c, (c.1, c.2 j.1 j.2)) <$> cols) <$> js)
      end
  | plan_headers cols owner =>
      match args with
      | VInt id :: _ =>
          let hs :=
            match owner with
            | by_req_id => filter (λ h, hd_req_id h = Some id) (http_headers d)
            | by_res_id => filter (λ h, hd_res_id h = Some id) (http_headers d)
            end in
          Ok ((λ h, (λ c, (c.1, c.2 h)) <$> cols) <$> hs)
      | VNull :: _ => Ok []
      | _ => Err (errorString "not enough args to execute query")
      end
  end.

Definition lift {A} (r : result A) : M A := λ w, (r, w).

(** Reads go through the pool and see the committed store only. *)
Definition read {A} (f : DB → result A) : M A := λ w, (f (committed w), w).

(** [db.QueryxContext]. *)
Definition QueryxContext (b : sq.SelectBuilder) (args : list value) : M (list row) :=
  step ;; p <- lift (compile b) ;; read (run p args).

(** [db.QueryRowxContext]: never fails by itself; the error, if any, waits
    in the row until it is scanned. *)
Definition QueryRowxContext (b : sq.SelectBuilder) (args : list value) :
  M (result (list row)) :=
  λ w, match QueryxContext b args w with
       | (r, w') => (Ok r, w')
       end.

(** [db.PrepareContext] of a SELECT, and [stmt.QueryContext]. *)
Definition PrepareSelect (b : sq.SelectBuilder) : M plan := step ;; lift (compile b).
Definition QueryContext (stmt : plan) (args : list value) : M (list row) :=
  step ;; read (run stmt args).

(** [rows.Err] after the last [rows.Next]. *)
Definition rows_Err : M unit := step.

(** [rows.Scan(&key, &value)] with two [string] destinations: the row must
    have two columns, and neither may be NULL. *)
Definition scan_string (v : value) : result string :=
  match v with
  | VText s => Ok s
  | VBlob b => Ok (string_of_list_byte b)
  | VInt n => Ok (pretty n)
  | VNull => Err (errorString "sql: Scan error: converting NULL to string is unsupported")
  | VTime _ => Err (errorString "sql: Scan error: unsupported Scan of time into string")
  end.

Definition Scan2 (r : row) : result (string * string) :=
  match r with
  | [(_, a); (_, b)] =>
      match scan_string a, scan_string b with
      | Ok x, Ok y => Ok (x, y)
      | Err e, _ => Err e
      | _, Err e => Err e
      end
  | _ => Err (errorString ("sql: expected " +:+ pretty (length r)
                           +:+ " destination arguments in Scan, not 2"))
  end.

(** Loops. *)
Fixpoint forM_ {A} (l : list A) (f : A → M unit) : M unit :=
  match l with
  | [] => ret tt
  | a :: rest => f a ;; forM_ rest f
  end.

Fixpoint mapM {A B} (f : A → M B) (l : list A) : M (list B) :=
  match l with
  | [] => ret []
  | a :: rest => b <- f a ;; bs <- mapM f rest ;; ret (b :: bs)
  end.

Fixpoint foldM {A B} (f : B → A → M B) (b : B) (l : list A) : M B :=
  match l with
  | [] => ret b
  | a :: rest => b' <- f b a ;; foldM f b' rest
  end.

(** ** Package sqlite: the rows a query is scanned into *)

Module dto.

(** Modelled from the spec: the row types [httpRequest] and
    [httpResponse] and the conversion [toRequestLog] belong to a file of
    this package that is not among the sources.  The spec has a record
    come back with the fields the projection asked for populated and
    the others zero, the id always populated, and the response present
    exactly when the joined row has one; the status line is the code, a
    space and the reason. *)
Module httpResponse.
Record t : Type := mk {
  ID : option Z;
  RequestID : option Z;
  Proto : option string;
  StatusCode : option Z;
  StatusReason : option string;
  Body : list Byte.byte;
  Timestamp : option Time
}.
Definition zero : t := mk None None None None None [] None.
End httpResponse.

Module httpRequest.
Record t : Type := mk {
  ID : Z;
  Proto : string;
  URL : string;
  Method : string;
  Body : list Byte.byte;
  Timestamp : Time;
  Response : httpResponse.t
}.
Definition zero : t := mk 0 "" "" "" [] 0 httpResponse.zero.
End httpRequest.

Definition conversion {A} (name : string) : result A :=
  Err (errorString ("sql: Scan error on column " +:+ name)).

Definition with_response (f : httpResponse.t → httpResponse.t) (d : httpRequest.t) :
  httpRequest.t :=
  httpRequest.mk (httpRequest.ID d) (httpRequest.Proto d) (httpRequest.URL d)
    (httpRequest.Method d) (httpRequest.Body d) (httpRequest.Timestamp d)
    (f (httpRequest.Response d)).

(** Modelled from the spec: one result column stored in the field of
    that [db] name. *)
Definition scan_column (d : httpRequest.t) (c : string * value) : result httpRequest.t :=
  let name := c.1 in
  let v := c.2 in
  let q := d in
  let s := httpRequest.Response d in
  if String.eqb name "req_id" then
    match v with
    | VInt n => Ok (httpRequest.mk n (httpRequest.Proto q) (httpRequest.URL q)
                      (httpRequest.Method q) (httpRequest.Body q) (httpRequest.Timestamp q) s)
    | _ => conversion name
    end
  else if String.eqb name "req_proto" then
    match v with
    | VText x => Ok (httpRequest.mk (httpRequest.ID q) x (httpRequest.URL q)
                       (httpRequest.Method q) (httpRequest.Body q) (httpRequest.Timestamp q) s)
    | _ => conversion name
    end
  else if String.eqb name "url" then
    match v with
    | VText x => Ok (httpRequest.mk (httpRequest.ID q) (httpRequest.Proto q) x
                       (httpRequest.Method q) (httpRequest.Body q) (httpRequest.Timestamp q) s)
    | _ => conversion name
    end
  else if String.eqb name "method" then
    match v with
    | VText x => Ok (httpRequest.mk (httpRequest.ID q) (httpRequest.Proto q) (httpRequest.URL q)
                       x (httpRequest.Body q) (httpRequest.Timestamp q) s)
    | _ => conversion name
    end
  else if String.eqb name "req_body" then
    match v with
    | VBlob x => Ok (httpRequest.mk (httpRequest.ID q) (httpRequest.Proto q) (httpRequest.URL q)
                       (httpRequest.Method q) x (httpRequest.Timestamp q) s)
    | VNull => Ok (httpRequest.mk (httpRequest.ID q) (httpRequest.Proto q) (httpRequest.URL q)
                     (httpRequest.Method q) [] (httpRequest.Timestamp q) s)
    | _ => conversion name
    end
  else if String.eqb name "req_timestamp" then
    match v with
    | VTime x => Ok (httpRequest.mk (httpRequest.ID q) (httpRequest.Proto q) (httpRequest.URL q)
                       (httpRequest.Method q) (httpRequest.Body q) x s)
    | _ => conversion name
    end
  else if String.eqb name "res_id" then
    match v with
    | VInt n => Ok (with_response (λ s, httpResponse.mk (Some n) (httpResponse.RequestID s)
                      (httpResponse.Proto s) (httpResponse.StatusCode s)
                      (httpResponse.StatusReason s) (httpResponse.Body s)
                      (httpResponse.Timestamp s)) d)
    | VNull => Ok (with_response (λ s, httpResponse.mk None (httpResponse.RequestID s)
                      (httpResponse.Proto s) (httpResponse.StatusCode s)
                      (httpResponse.StatusReason s) (httpResponse.Body s)
                      (httpResponse.Timestamp s)) d)
    | _ => conversion name
    end
  else if String.eqb name "res_req_id" then
    match v with
    | VInt n => Ok (with_response (λ s, httpResponse.mk (httpResponse.ID s) (Some n)
                      (httpResponse.Proto s) (httpResponse.StatusCode s)
                      (httpResponse.StatusReason s) (httpResponse.Body s)
                      (httpResponse.Timestamp s)) d)
    | VNull => Ok (with_response (λ s, httpResponse.mk (httpResponse.ID s) None
                      (httpResponse.Proto s) (httpResponse.StatusCode s)
                      (httpResponse.StatusReason s) (httpResponse.Body s)
                      (httpResponse.Timestamp s)) d)
    | _ => conversion name
    end
  else if String.eqb name "res_proto" then
    match v with
    | VText x => Ok (with_response (λ s, httpResponse.mk (httpResponse.ID s)
                       (httpResponse.RequestID s) (Some x) (httpResponse.StatusCode s)
                       (httpResponse.StatusReason s) (httpResponse.Body s)
                       (httpResponse.Timestamp s)) d)
    | VNull => Ok (with_response (λ s, httpResponse.mk (httpResponse.ID s)
                       (httpResponse.RequestID s) None (httpResponse.StatusCode s)
                       (httpResponse.StatusReason s) (httpResponse.Body s)
                       (httpResponse.Timestamp s)) d)
    | _ => conversion name
    end
  else if String.eqb name "status_code" then
    match v with
    | VInt n => Ok (with_response (λ s, httpResponse.mk (httpResponse.ID s)
                       (httpResponse.RequestID s) (httpResponse.Proto s) (Some n)
                       (httpResponse.StatusReason s) (httpResponse.Body s)
                       (httpResponse.Timestamp s)) d)
    | VNull => Ok (with_response (λ s, httpResponse.mk (httpResponse.ID s)
                       (httpResponse.RequestID s) (httpResponse.Proto s) None
                       (httpResponse.StatusReason s) (httpResponse.Body s)
                       (httpResponse.Timestamp s)) d)
    | _ => conversion name
    end
  else if String.eqb name "status_reason" then
    match v with
    | VText x => Ok (with_response (λ s, httpResponse.mk (httpResponse.ID s)
                       (httpResponse.RequestID s) (httpResponse.Proto s)
                       (httpResponse.StatusCode s) (Some x) (httpResponse.Body s)
                       (httpResponse.Timestamp s)) d)
    | VNull => Ok (with_response (λ s, httpResponse.mk (httpResponse.ID s)
                       (httpResponse.RequestID s) (httpResponse.Proto s)
                       (httpResponse.StatusCode s) None (httpResponse.Body s)
                       (httpResponse.Timestamp s)) d)
    | _ => conversion name
    end
  else if String.eqb name "res_body" then
    match v with
    | VBlob x => Ok (with_response (λ s, httpResponse.mk (httpResponse.ID s)
                       (httpResponse.RequestID s) (httpResponse.Proto s)
                       (httpResponse.StatusCode s) (httpResponse.StatusReason s) x
                       (httpResponse.Timestamp s)) d)
    | VNull => Ok (with_response (λ s, httpResponse.mk (httpResponse.ID s)
                       (httpResponse.RequestID s) (httpResponse.Proto s)
                       (httpResponse.StatusCode s) (httpResponse.StatusReason s) []
                       (httpResponse.Timestamp s)) d)
    | _ => conversion name
    end
  else if String.eqb name "res_timestamp" then
    match v with
    | VTime x => Ok (with_response (λ s, httpResponse.mk (httpResponse.ID s)
                       (httpResponse.RequestID s) (httpResponse.Proto s)
                       (httpResponse.StatusCode s) (httpResponse.StatusReason s)
                       (httpResponse.Body s) (Some x)) d)
    | VNull => Ok (with_response (λ s, httpResponse.mk (httpResponse.ID s)
                       (httpResponse.RequestID s) (httpResponse.Proto s)
                       (httpResponse.StatusCode s) (httpResponse.StatusReason s)
                       (httpResponse.Body s) None) d)
    | _ => conversion name
    end
  else Err (errorString ("missing destination name " +:+ name)).

(** [rows.StructScan(&dto)] on one row, from a zero [dto]. *)
Fixpoint scan_columns (d : httpRequest.t) (r : row) : result httpRequest.t :=
  match r with
  | [] => Ok d
  | c :: rest =>
      match scan_column d c with
      | Ok d' => scan_columns d' rest
      | Err e => Err e
      end
  end.

Definition StructScan (r : row) : result httpRequest.t := scan_columns httpRequest.zero r.

(** [row.StructScan(&dto)] on the answer of [QueryRowxContext]. *)
Definition Row_StructScan (r : result (list row)) : result httpRequest.t :=
  match r with
  | Err e => Err e
  | Ok [] => Err ErrNoRows
  | Ok (first :: _) => StructScan first
  end.

Definition toRequestLog (dto : httpRequest.t) : reqlog.Request.t :=
  let s := httpRequest.Response dto in
  reqlog.Request.mk (httpRequest.ID dto)
    (http.Request.mk (httpRequest.Method dto) (httpRequest.URL dto) (httpRequest.Proto dto) None)
    (httpRequest.Body dto) (httpRequest.Timestamp dto)
    (match httpResponse.ID s with
     | Some id =>
         Some (reqlog.Response.mk id (default 0 (httpResponse.RequestID s))
                 (http.Response.mk
                    (pretty (default 0 (httpResponse.StatusCode s)) +:+ " "
                       +:+ default "" (httpResponse.StatusReason s))
                    (default 0 (httpResponse.StatusCode s))
                    (default "" (httpResponse.Proto s)) None)
                 (httpResponse.Body s) (default 0 (httpResponse.Timestamp s)))
     | None => None
     end).

End dto.

(** ** Package sqlite: [sqlite.go] *)

(** A field of the GraphQL selection under resolution, with the fields
    selected below it ([graphql.CollectFields] of its selections). *)
#[local] Unset Elimination Schemes.
Inductive CollectedField : Type :=
| Field (name : string) (selections : list CollectedField).

#[local] Set Elimination Schemes.

Definition Name (f : CollectedField) : string :=
  match f with Field n _ => n end.
Definition Selections (f : CollectedField) : list CollectedField :=
  match f with Field _ s => s end.

Module sqlite.

Record httpRequestLogsQuery : Type := mk_query {
  requestCols : list string;
  requestHeaderCols : list string;
  responseHeaderCols : list string;
  joinResponse : bool
}.

Definition reqFieldToColumnMap : gmap string string :=
  list_to_map [
    ("proto", "proto AS req_proto");
    ("url", "url");
    ("method", "method");
    ("body", "body AS req_body");
    ("timestamp", "timestamp AS req_timestamp") ].

Definition resFieldToColumnMap : gmap string string :=
  list_to_map [
    ("requestId", "req_id AS res_req_id");
    ("proto", "proto AS res_proto");
    ("statusCode", "status_code");
    ("statusReason", "status_reason");
    ("body", "body AS res_body");
    ("timestamp", "timestamp AS res_timestamp") ].

Definition headerFieldToColumnMap : gmap string string :=
  list_to_map [ ("key", "key"); ("value", "value") ].

(** The inner loop over the fields selected below [headers]. *)
Definition headerCols (cols : list string) (headerFields : list CollectedField) : list string :=
  foldl (λ cols headerField,
           match headerFieldToColumnMap !! Name headerField with
           | Some col => cols ++ [col]
           | None => cols
           end) cols headerFields.

(** The body of the loop over the fields selected below [response]. *)
Definition resFieldStep (q : httpRequestLogsQuery) (resField : CollectedField) :
  httpRequestLogsQuery :=
  let q :=
    if String.eqb (Name resField) "headers" then
      mk_query (requestCols q ++ ["res.id AS res_id"]) (requestHeaderCols q)
        (headerCols (responseHeaderCols q) (Selections resField)) (joinResponse q)
    else q in
  match resFieldToColumnMap !! Name resField with
  | Some col =>
      mk_query (requestCols q ++ ["res." +:+ col]) (requestHeaderCols q)
        (responseHeaderCols q) (joinResponse q)
  | None => q
  end.

(** The body of the loop over the fields of the request. *)
Definition reqFieldStep (q : httpRequestLogsQuery) (reqField : CollectedField) :
  httpRequestLogsQuery :=
  let q :=
    match reqFieldToColumnMap !! Name reqField with
    | Some col =>
        mk_query (requestCols q ++ ["req." +:+ col]) (requestHeaderCols q)
          (responseHeaderCols q) (joinResponse q)
    | None => q
    end in
  let q :=
    if String.eqb (Name reqField) "headers" then
      mk_query (requestCols q) (headerCols (requestHeaderCols q) (Selections reqField))
        (responseHeaderCols q) (joinResponse q)
    else q in
  if String.eqb (Name reqField) "response" then
    foldl resFieldStep
      (mk_query (requestCols q) (requestHeaderCols q) (responseHeaderCols q) true)
      (Selections reqField)
  else q.

(** [reqFields] is what [graphql.CollectFieldsCtx] finds in the context. *)
Definition parseHTTPRequestLogsQuery (reqFields : list CollectedField) : httpRequestLogsQuery :=
  foldl reqFieldStep
    (mk_query ["req.id AS req_id"; "res.id AS res_id"] [] [] false)
    reqFields.

Definition insertHeaders (stmt : insert_stmt) (id : Z)
  (headers : list (string * list string)) : M unit :=
  forM_ headers (λ kv,
    forM_ kv.2 (λ value,
      wrap "could not execute statement: "
        (ExecContext stmt [VInt id; VText kv.1; VText value]) ;; ret tt)).

Definition findHeaders (stmt : plan) (id : Z) : M Header :=
  rows <- wrap "sqlite: could not execute query: " (QueryContext stmt [VInt id]) ;;
  headers <- foldM (λ headers r,
                      kv <- wrap "sqlite: could not scan row: " (lift (Scan2 r)) ;;
                      ret (Add headers kv.1 kv.2)) (∅ : Header) rows ;;
  wrap "sqlite: could not iterate over rows: " rows_Err ;;
  ret headers.

Definition set_request_header (headers : Header) (r : reqlog.Request.t) : reqlog.Request.t :=
  let q := reqlog.Request.Request r in
  reqlog.Request.mk (reqlog.Request.ID r)
    (http.Request.mk (http.Request.Method q) (http.Request.URL q) (http.Request.Proto q)
       (Some headers))
    (reqlog.Request.Body r) (reqlog.Request.Timestamp r) (reqlog.Request.Response r).

Definition set_response_header (headers : Header) (r : reqlog.Request.t)
  (s : reqlog.Response.t) : reqlog.Request.t :=
  let p := reqlog.Response.Response s in
  reqlog.Request.mk (reqlog.Request.ID r) (reqlog.Request.Request r)
    (reqlog.Request.Body r) (reqlog.Request.Timestamp r)
    (Some (reqlog.Response.mk (reqlog.Response.ID s) (reqlog.Response.RequestID s)
             (http.Response.mk (http.Response.Status p) (http.Response.StatusCode p)
                (http.Response.Proto p) (Some headers))
             (reqlog.Response.Body s) (reqlog.Response.Timestamp s))).

(** The slice [reqLogs] is updated in place; the updated slice is the
    answer here. *)
Definition queryHeaders (query : httpRequestLogsQuery) (reqLogs : list reqlog.Request.t) :
  M (list reqlog.Request.t) :=
  reqLogs <-
    (if (0 <? length (requestHeaderCols query))%nat then
       let b := sq.Where (sq.From (sq.Select (requestHeaderCols query)) "http_headers")
                  "req_id = ?" in
       wrap "could not parse request headers query: " (lift (sq.ToSql b)) ;;
       reqHeadersStmt <- wrap "could not prepare statement: " (PrepareSelect b) ;;
       mapM (λ r,
               headers <- wrap "could not query request headers: "
                            (findHeaders reqHeadersStmt (reqlog.Request.ID r)) ;;
               ret (set_request_header headers r)) reqLogs
     else ret reqLogs) ;;
  if (0 <? length (responseHeaderCols query))%nat then
    let b := sq.Where (sq.From (sq.Select (responseHeaderCols query)) "http_headers")
               "res_id = ?" in
    wrap "could not parse response headers query: " (lift (sq.ToSql b)) ;;
    resHeadersStmt <- wrap "could not prepare statement: " (PrepareSelect b) ;;
    mapM (λ r,
            match reqlog.Request.Response r with
            | None => ret r
            | Some s =>
                headers <- wrap "could not query response headers: "
                             (findHeaders resHeadersStmt (reqlog.Response.ID s)) ;;
                ret (set_response_header headers r s)
            end) reqLogs
  else ret reqLogs.

(** [opts] and [scope] are not read by the function and are left out. *)
Definition FindRequestLogs (reqFields : list CollectedField) : M (list reqlog.Request.t) :=
  let httpReqLogsQuery := parseHTTPRequestLogsQuery reqFields in
  let reqQuery :=
    sq.OrderBy (sq.From (sq.Select (requestCols httpReqLogsQuery)) "http_requests req")
      "req.id DESC" in
  let reqQuery :=
    if joinResponse httpReqLogsQuery
    then sq.LeftJoin reqQuery "http_responses res ON req.id = res.req_id"
    else reqQuery in
  wrap "sqlite: could not parse query: " (lift (sq.ToSql reqQuery)) ;;
  rows <- wrap "sqlite: could not execute query: " (QueryxContext reqQuery [VNull]) ;;
  reqLogs <- mapM (λ r,
                     dto <- wrap "sqlite: could not scan row: " (lift (dto.StructScan r)) ;;
                     ret (dto.toRequestLog dto)) rows ;;
  wrap "sqlite: could not iterate over rows: " rows_Err ;;
  wrap "sqlite: could not query headers: " (queryHeaders httpReqLogsQuery reqLogs).

Definition FindRequestLogByID (reqFields : list CollectedField) (id : Z) :
  M reqlog.Request.t :=
  let httpReqLogsQuery := parseHTTPRequestLogsQuery reqFields in
  let reqQuery :=
    sq.Where (sq.From (sq.Select (requestCols httpReqLogsQuery)) "http_requests req")
      "req.id = ?" in
  let reqQuery :=
    if joinResponse httpReqLogsQuery
    then sq.LeftJoin reqQuery "http_responses res ON req.id = res.req_id"
    else reqQuery in
  wrap "sqlite: could not parse query: " (lift (sq.ToSql reqQuery)) ;;
  row <- QueryRowxContext reqQuery [VInt id] ;;
  match dto.Row_StructScan row with
  | Err ErrNoRows => fail ErrRequestNotFound
  | Err e => fail (Errorf "sqlite: could not scan row: " e)
  | Ok dto =>
      let reqLog := dto.toRequestLog dto in
      reqLogs <- wrap "sqlite: could not query headers: "
                   (queryHeaders httpReqLogsQuery [reqLog]) ;;
      ret (default reqLog (head reqLogs))
  end.

Definition with_ID (id : Z) (r : reqlog.Request.t) : reqlog.Request.t :=
  reqlog.Request.mk id (reqlog.Request.Request r) (reqlog.Request.Body r)
    (reqlog.Request.Timestamp r) (reqlog.Request.Response r).

(** [visit] is the sequence the [range] over [req.Header] yields. *)
Definition AddRequestLog (visit : list (string * list string))
  (req : http.Request.t) (body : list Byte.byte) (timestamp : Time) : M reqlog.Request.t :=
  let reqLog := reqlog.Request.mk 0 req body timestamp None in
  wrap "sqlite: could not start transaction: " BeginTx ;;
  defer Rollback (
    reqStmt <- wrap "sqlite: could not prepare statement: "
                 (PrepareContext insert_http_requests) ;;
    result <- wrap "sqlite: could not execute statement: "
                (ExecContext reqStmt
                   [ VText (http.Request.Proto (reqlog.Request.Request reqLog));
                     VText (http.Request.URL (reqlog.Request.Request reqLog));
                     VText (http.Request.Method (reqlog.Request.Request reqLog));
                     VBlob (reqlog.Request.Body reqLog);
                     VTime (reqlog.Request.Timestamp reqLog) ]) ;;
    reqID <- wrap "sqlite: could not get last insert ID: " (LastInsertId result) ;;
    let reqLog := with_ID reqID reqLog in
    headerStmt <- wrap "sqlite: could not prepare statement: "
                    (PrepareContext insert_http_headers_req_id) ;;
    wrap "sqlite: could not insert http headers: "
      (insertHeaders headerStmt reqID visit) ;;
    wrap "sqlite: could not commit transaction: " Commit ;;
    ret reqLog).

(** [Status[4:]] when the status line is longer than four bytes. *)
Definition statusReason (status : string) : string :=
  if (4 <? String.length status)%nat
  then substring 4 (String.length status - 4) status
  else "".

Definition with_response_ID (id : Z) (s : reqlog.Response.t) : reqlog.Response.t :=
  reqlog.Response.mk id (reqlog.Response.RequestID s) (reqlog.Response.Response s)
    (reqlog.Response.Body s) (reqlog.Response.Timestamp s).

Definition AddResponseLog (visit : list (string * list string)) (reqID : Z)
  (res : http.Response.t) (body : list Byte.byte) (timestamp : Time) : M reqlog.Response.t :=
  let resLog := reqlog.Response.mk 0 reqID res body timestamp in
  wrap "sqlite: could not start transaction: " BeginTx ;;
  defer Rollback (
    resStmt <- wrap "sqlite: could not prepare statement: "
                 (PrepareContext insert_http_responses) ;;
    let statusReason := statusReason (http.Response.Status (reqlog.Response.Response resLog)) in
    result <- wrap "sqlite: could not execute statement: "
                (ExecContext resStmt
                   [ VInt (reqlog.Response.RequestID resLog);
                     VText (http.Response.Proto (reqlog.Response.Response resLog));
                     VInt (http.Response.StatusCode (reqlog.Response.Response resLog));
                     VText statusReason;
                     VBlob (reqlog.Response.Body resLog);
                     VTime (reqlog.Response.Timestamp resLog) ]) ;;
    resID <- wrap "sqlite: could not get last insert ID: " (LastInsertId result) ;;
    let resLog := with_response_ID resID resLog in
    headerStmt <- wrap "sqlite: could not prepare statement: "
                    (PrepareContext insert_http_headers_res_id) ;;
    wrap "sqlite: could not insert http headers: "
      (insertHeaders headerStmt resID visit) ;;
    wrap "sqlite: could not commit transaction: " Commit ;;
    ret resLog).

End sqlite.

(** ** Package api: the resolver of the query API *)

Module api.

(** Modelled from the spec: [HTTPMethod.IsValid] is generated code that
    is not among the sources; the spec gives the recognized method
    tokens. *)
Definition recognized : list string :=
  ["GET"; "HEAD"; "POST"; "PUT"; "DELETE"; "CONNECT"; "OPTIONS"; "TRACE"; "PATCH"].

Definition IsValid (method : string) : bool := bool_decide (method ∈ recognized).

Record HTTPHeader : Type := mk_header { Key : string; Value : string }.

Module HTTPResponseLog.
Record t : Type := mk {
  RequestID : Z;
  Proto : string;
  Status : string;
  StatusCode : Z;
  Body : option string;
  Headers : option (list HTTPHeader)
}.
End HTTPResponseLog.

Module HTTPRequestLog.
(** [ID] holds the id whose text the resolver renders. *)
Record t : Type := mk {
  ID : Z;
  URL : string;
  Proto : string;
  Method : string;
  Timestamp : Time;
  Body : option string;
  Headers : option (list HTTPHeader);
  Response : option HTTPResponseLog.t
}.
End HTTPRequestLog.

(** The two nested loops that flatten a header map. *)
Definition flatten (visit : list (string * list string)) : list HTTPHeader :=
  visit ≫= λ kv, mk_header kv.1 <$> kv.2.

(** [if len(b) > 0 { s := string(b); field = &s }]. *)
Definition body_field (b : list Byte.byte) : option string :=
  if (0 <? length b)%nat then Some (string_of_list_byte b) else None.

(** [visit] and [visit_res] are what the ranges over the request and the
    response header maps yield. *)
Definition parseRequestLog (visit visit_res : list (string * list string))
  (req : reqlog.Request.t) : result HTTPRequestLog.t :=
  let method := http.Request.Method (reqlog.Request.Request req) in
  if negb (IsValid method) then
    Err (errorString ("request has invalid method: " +:+ method))
  else
    Ok (HTTPRequestLog.mk
          (reqlog.Request.ID req)
          (http.Request.URL (reqlog.Request.Request req))
          (http.Request.Proto (reqlog.Request.Request req))
          method
          (reqlog.Request.Timestamp req)
          (body_field (reqlog.Request.Body req))
          (match http.Request.Header (reqlog.Request.Request req) with
           | Some _ => Some (flatten visit)
           | None => None
           end)
          (match reqlog.Request.Response req with
           | Some s =>
               let p := reqlog.Response.Response s in
               Some (HTTPResponseLog.mk
                       (reqlog.Request.ID req)
                       (http.Response.Proto p)
                       (http.Response.Status p)
                       (http.Response.StatusCode p)
                       (body_field (reqlog.Response.Body s))
                       (match http.Response.Header p with
                        | Some _ => Some (flatten visit_res)
                        | None => None
                        end))
           | None => None
           end)).

(** The resolver of one log entry.  [Parse] is [uuid.Parse], of a
    library that is not among the sources, and [find] is the call of the
    service that reads the record of the parsed id.  An id that does
    not parse is answered with an error, before the service is called;
    the not-found condition of the service becomes a null answer
    without an error. *)
Definition HTTPRequestLog_resolver {K} (Parse : string → result K)
  (visit visit_res : list (string * list string))
  (find : K → M reqlog.Request.t) (id : string) : M (option HTTPRequestLog.t) :=
  λ w, match Parse id with
       | Err err => (Err (Errorf "invalid id: " err), w)
       | Ok reqLogID =>
           match find reqLogID w with
           | (Err ErrRequestNotFound, w') => (Ok None, w')
           | (Err e, w') => (Err (Errorf "could not get request by ID: " e), w')
           | (Ok log, w') =>
               match parseRequestLog visit visit_res log with
               | Ok req => (Ok (Some req), w')
               | Err e => (Err e, w')
               end
           end
       end.

End api.

(** ** Notions used to state the properties *)

(** The columns a header selection can ask for, and the columns the two
    joined tables have. *)
Definition header_column (c : string) : Prop := c = "key" ∨ c = "value".
Definition base_column (c : string) : Prop := is_Some (assoc c base_columns).

(** [l'] is [l] with more elements appended, each satisfying [P]. *)
Definition grows {A} (P : A → Prop) (l l' : list A) : Prop :=
  ∃ k, l' = l ++ k ∧ ∀ c, c ∈ k → P c.

(** What the loops of the planner keep: columns are only ever appended,
    each one a column the tables have, and the join flag is only ever
    raised. *)
Definition extends (q q' : sqlite.httpRequestLogsQuery) : Prop :=
  grows base_column (sqlite.requestCols q) (sqlite.requestCols q')
  ∧ grows header_column (sqlite.requestHeaderCols q) (sqlite.requestHeaderCols q')
  ∧ grows header_column (sqlite.responseHeaderCols q) (sqlite.responseHeaderCols q')
  ∧ (sqlite.joinResponse q = true → sqlite.joinResponse q' = true).

(** The (key, value) pairs the two nested loops over a header map see, in
    the order they see them. *)
Definition pairs (visit : list (string * list string)) : list (string * string) :=
  visit ≫= λ kv, pair kv.1 <$> kv.2.

Definition owner_stmt (o : header_owner) : insert_stmt :=
  match o with
  | by_req_id => insert_http_headers_req_id
  | by_res_id => insert_http_headers_res_id
  end.

(** The parent row a header row of owner [o] points to exists. *)
Definition owned (o : header_owner) (id : Z) (d : DB) : Prop :=
  match o with
  | by_req_id => id ∈ rq_id <$> http_requests d
  | by_res_id => id ∈ rs_id <$> http_responses d
  end.

Definition header_row (o : header_owner) (id hid : Z) (kv : string * string) : headers_row :=
  match o with
  | by_req_id => mk_headers_row hid (Some id) None kv.1 kv.2
  | by_res_id => mk_headers_row hid None (Some id) kv.1 kv.2
  end.

(** The store with one more header row, and with a list of them. *)
Definition add_header (o : header_owner) (id : Z) (d : DB) (kv : string * string) : DB :=
  mk_DB (http_requests d) (http_responses d)
    (http_headers d ++ [header_row o id (next_rowid (hd_id <$> http_headers d)) kv]).

Definition add_headers (o : header_owner) (id : Z) (kvs : list (string * string)) (d : DB) : DB :=
  foldl (add_header o id) d kvs.

(** The store with one more request row. *)
Definition add_request (req : http.Request.t) (body : list Byte.byte) (timestamp : Time)
  (d : DB) : DB :=
  mk_DB (http_requests d
           ++ [mk_requests_row (next_rowid (rq_id <$> http_requests d))
                 (http.Request.Proto req) (http.Request.URL req) (http.Request.Method req)
                 body timestamp])
    (http_responses d) (http_headers d).

(** The store with one more response row. *)
Definition add_response (reqID : Z) (res : http.Response.t) (body : list Byte.byte)
  (timestamp : Time) (d : DB) : DB :=
  mk_DB (http_requests d)
    (http_responses d
       ++ [mk_responses_row (next_rowid (rs_id <$> http_responses d)) reqID
             (http.Response.Proto res) (http.Response.StatusCode res)
             (sqlite.statusReason (http.Response.Status res)) body timestamp])
    (http_headers d).

(** The header rows of one owner, in rowid order. *)
Definition owner_rows (o : header_owner) (id : Z) (hs : list headers_row) : list headers_row :=
  match o with
  | by_req_id => filter (λ h, hd_req_id h = Some id) hs
  | by_res_id => filter (λ h, hd_res_id h = Some id) hs
  end.

(** The map the loop of [findHeaders] builds from rows whose two scanned
    columns are [g1] and [g2]. *)
Definition collect (g1 g2 : headers_row → string) (rows : list headers_row) (h : Header) :
  Header :=
  foldl (λ h r, Add h (g1 r) (g2 r)) h rows.

(** The values a sequence of (key, value) pairs holds under the keys whose
    canonical form is [K], in sequence order. *)
Definition canonical_values (K : string) (kvs : list (string * string)) : list string :=
  snd <$> filter (λ kv, textproto.CanonicalMIMEHeaderKey kv.1 = K) kvs.

(** Foreign keys and primary keys of the three tables. *)
Record consistent (d : DB) : Prop := mk_consistent {
  responses_fk : ∀ s, s ∈ http_responses d → rs_req_id s ∈ rq_id <$> http_requests d;
  headers_req_fk : ∀ h id, h ∈ http_headers d → hd_req_id h = Some id →
                           id ∈ rq_id <$> http_requests d;
  headers_res_fk : ∀ h id, h ∈ http_headers d → hd_res_id h = Some id →
                           id ∈ rs_id <$> http_responses d;
  requests_pk : NoDup (rq_id <$> http_requests d);
  responses_pk : NoDup (rs_id <$> http_responses d)
}.

(** The value of a result row of the base query. *)
Definition eval_row (cols : list (string * (requests_row → option responses_row → value)))
  (j : requests_row * option responses_row) : row :=
  (λ c, (c.1, c.2 j.1 j.2)) <$> cols.

(** A resolved result column of the base query: its name and its value
    come from one line of [base_columns]. *)
Definition known_column
  (c : string * (requests_row → option responses_row → value)) : Prop :=
  ∃ text needs_res, assoc text base_columns = Some (c.1, needs_res, c.2).

(** The text a header column selects from a header row. *)
Definition header_getter (c : string) : headers_row → string :=
  if String.eqb c "key" then hd_key else hd_value.


(** The header map [findHeaders] answers for owner [o] and id [id] when
    the statement selects the columns [c1] and [c2]. *)
Definition fetched (c1 c2 : string) (o : header_owner) (id : Z) (d : DB) : Header :=
  collect (header_getter c1) (header_getter c2) (owner_rows o id (http_headers d)) ∅.

(** What a [range] over a nilable header map can yield. *)
Definition range_of_header (h : option Header) (l : list (string * list string)) : Prop :=
  match h with
  | Some h => range_of h l
  | None => l = []
  end.

(** Every key of the map is a fixed point of the canonicalisation. *)
Definition canonical_keys (h : option Header) : Prop :=
  ∀ k, header_values h k ≠ [] → textproto.CanonicalMIMEHeaderKey k = k.

(** The projection that selects every field of the request, of its
    headers, of the response and of its headers. *)
Definition full_projection : list CollectedField :=
  [ Field "id" []; Field "proto" []; Field "url" []; Field "method" [];
    Field "body" []; Field "timestamp" [];
    Field "headers" [Field "key" []; Field "value" []];
    Field "response"
      [ Field "requestId" []; Field "proto" []; Field "statusCode" [];
        Field "statusReason" []; Field "body" []; Field "timestamp" [];
        Field "headers" [Field "key" []; Field "value" []] ] ].


(** A header row that belongs to owner [o] with id [id], and to no other. *)
Definition owned_row (o : header_owner) (id : Z) (r : headers_row) : Prop :=
  match o with
  | by_req_id => hd_req_id r = Some id ∧ hd_res_id r = None
  | by_res_id => hd_req_id r = None ∧ hd_res_id r = Some id
  end.

(** The record the full projection reads from a request row, its response
    row if it has one, and the header rows of both.  The timestamps are
    the ones the driver reads from the rows. *)
Definition full_record (d : DB) (q : requests_row) (o : option responses_row) :
  reqlog.Request.t :=
  reqlog.Request.mk (rq_id q)
    (http.Request.mk (rq_method q) (rq_url q) (rq_proto q)
       (Some (fetched "key" "value" by_req_id (rq_id q) d)))
    (rq_body q) (sqlite3.read_time (rq_timestamp q))
    (match o with
     | Some s =>
         Some (reqlog.Response.mk (rs_id s) (rs_req_id s)
                 (http.Response.mk
                    (pretty (rs_status_code s) +:+ " " +:+ rs_status_reason s)
                    (rs_status_code s) (rs_proto s)
                    (Some (fetched "key" "value" by_res_id (rs_id s) d)))
                 (rs_body s) (sqlite3.read_time (rs_timestamp s)))
     | None => None
     end).

(** One call of [AddRequestLog]: the order its range over the headers
    takes, and its three arguments. *)
Record ingest : Type := mk_ingest {
  in_visit : list (string * list string);
  in_req : http.Request.t;
  in_body : list Byte.byte;
  in_timestamp : Z
}.

(** [AddRequestLog] called once per element, one call after the other, on
    one connection. *)
Definition AddRequestLogs (ins : list ingest) : M (list reqlog.Request.t) :=
  mapM (λ i, sqlite.AddRequestLog (in_visit i) (in_req i) (in_body i) (in_timestamp i)) ins.

(** The record a scanned row becomes. *)
Definition scanned (r : row) : reqlog.Request.t :=
  match dto.StructScan r with
  | Ok d => dto.toRequestLog d
  | Err _ => dto.toRequestLog dto.httpRequest.zero
  end.

(** One more driver call in a proof about a fault schedule: the schedule
    is empty, or its head makes the call fail, or lets it pass. *)
Ltac tick :=
  match goal with
  | |- context [match ?fs with _ => _ end] =>
      is_var fs;
      lazymatch type of fs with list (option string) => idtac end;
      destruct fs as [|[?|] ?];
      cbn -[sqlite.insertHeaders add_headers next_rowid sqlite.statusReason]
  end.

#[global] Instance id_desc_trans : Transitive id_desc.
Proof. unfold id_desc. intros x y z ? ?. lia. Qed.

#[global] Instance id_desc_total : Total id_desc.
Proof. unfold id_desc. intros x y. lia. Qed.

#[global] Instance ge_antisymm : AntiSymm eq (λ a b : Z, b ≤ a).
Proof. intros x y ? ?. lia. Qed.

(** [later c c']: the store [c'] is [c] after any number of calls of the
    two writes, each under any fault schedule and with any arguments. *)
Inductive later : DB → DB → Prop :=
| later_now c : later c c
| later_request c c' visit req body timestamp fs :
    later c c' →
    later c (committed (sqlite.AddRequestLog visit req body timestamp (mk_World c' None fs)).2)
| later_response c c' visit reqID res body timestamp fs :
    later c c' →
    later c (committed
               (sqlite.AddResponseLog visit reqID res body timestamp (mk_World c' None fs)).2).

(** What the writes keep of a store [c] in a later store [c']: the store
    stays consistent, the requests table only grows at its end, and the
    header rows of the requests that were already there are the same. *)
Definition preserved (c c' : DB) : Prop :=
  consistent c'
  ∧ (∃ l, http_requests c' = http_requests c ++ l)
  ∧ (∀ i, i ∈ rq_id <$> http_requests c →
          owner_rows by_req_id i (http_headers c') = owner_rows by_req_id i (http_headers c)).

(** ** Package sqlite: the schema *)

Module schema.

(** The database file: each of the three tables is absent, or holds its
    rows. *)
Record File : Type := mk_File {
  requests_table : option (list requests_row);
  responses_table : option (list responses_row);
  headers_table : option (list headers_row)
}.

(** A file in which no table was created yet. *)
Definition blank : File := mk_File None None None.

(** The file whose three tables hold the rows of a store. *)
Definition of_DB (d : DB) : File :=
  mk_File (Some (http_requests d)) (Some (http_responses d)) (Some (http_headers d)).

(** The three [CREATE TABLE IF NOT EXISTS] texts of [prepareSchema]. *)
Inductive create_stmt : Type :=
| create_http_requests
| create_http_responses
| create_http_headers.

(** [CREATE TABLE IF NOT EXISTS]: a table that exists is left as it is,
    one that is absent is created empty. *)
Definition create_if_not_exists {A} (t : option (list A)) : option (list A) :=
  match t with
  | Some rows => Some rows
  | None => Some []
  end.

Definition exec_create (s : create_stmt) (f : File) : File :=
  match s with
  | create_http_requests =>
      mk_File (create_if_not_exists (requests_table f)) (responses_table f) (headers_table f)
  | create_http_responses =>
      mk_File (requests_table f) (create_if_not_exists (responses_table f)) (headers_table f)
  | create_http_headers =>
      mk_File (requests_table f) (responses_table f) (create_if_not_exists (headers_table f))
  end.

(** The connection [prepareSchema] runs on: the file, and the fault
    schedule of the driver. *)
Record Conn : Type := mk_Conn {
  file : File;
  conn_faults : list (option string)
}.

(** [db.Exec] outside a transaction: the statement is applied to the
    file at once, unless the driver fails the call. *)
Definition Exec (s : create_stmt) (c : Conn) : result unit * Conn :=
  match conn_faults c with
  | Some msg :: fs => (Err (errorString msg), mk_Conn (file c) fs)
  | None :: fs => (Ok tt, mk_Conn (exec_create s (file c)) fs)
  | [] => (Ok tt, mk_Conn (exec_create s (file c)) [])
  end.

Definition prepareSchema (c : Conn) : result unit * Conn :=
  match Exec create_http_requests c with
  | (Err err, c) => (Err (Errorf "could not create http_requests table: " err), c)
  | (Ok _, c) =>
      match Exec create_http_responses c with
      | (Err err, c) => (Err (Errorf "could not create http_responses table: " err), c)
      | (Ok _, c) =>
          match Exec create_http_headers c with
          | (Err err, c) => (Err (Errorf "could not create http_headers table: " err), c)
          | (Ok _, c) => (Ok tt, c)
          end
      end
  end.

End schema.

(** ** Package api: the other functions of the resolver file *)

Module resolvers.

(** [Filter]: the loop appends the elements that pass the test. *)
Definition Filter (ss : list reqlog.Request.t) (test : reqlog.Request.t → bool) :
  list reqlog.Request.t :=
  foldl (λ ret s, if test s then ret ++ [s] else ret) [] ss.

(** [DerefString]; a nil pointer is [None]. *)
Definition DerefString (s : option string) : string :=
  match s with
  | Some s => s
  | None => ""
  end.

(** What one call of [Read] on a body answers besides its bytes: no
    error, [io.EOF], or another error. *)
Inductive read_status : Type :=
| more
| EOF
| failed (msg : string).

(** A body, as the answers of its successive [Read] calls.  A body whose
    answers run out has reached its end. *)
Abbreviation ReadCloser := (list (string * read_status)) (only parsing).

(** [io.Copy(buf, body)]: every chunk that is read is written to [buf],
    until a [Read] answers [io.EOF], which is no error, or fails.  The
    answer is what [buf] holds, the number of bytes written, and the
    error. *)
Fixpoint Copy (body : ReadCloser) (buf : string) : string * nat * option string :=
  match body with
  | [] => (buf, 0%nat, None)
  | (chunk, status) :: rest =>
      match status with
      | more =>
          match Copy rest (buf +:+ chunk) with
          | (buf', n, err) => (buf', (String.length chunk + n)%nat, err)
          end
      | EOF => (buf +:+ chunk, String.length chunk, None)
      | failed msg => (buf +:+ chunk, String.length chunk, Some msg)
      end
  end.

(** [OpenBodyToRead]; a nil body is [None]. *)
Definition OpenBodyToRead (body : option ReadCloser) : string :=
  match body with
  | None => ""
  | Some body =>
      match Copy body "" with
      | (buf, n, err) =>
          if bool_decide (err ≠ None) || (n =? 0)%nat then "" else buf
      end
  end.

(** The zero [HTTPRequestLog] that [make] fills the slice with. *)
Definition zero : api.HTTPRequestLog.t :=
  api.HTTPRequestLog.mk 0 "" "" "" 0 None None None.

(** The loop of [HTTPRequestLogs] from index [i] on: each record is
    parsed and stored at its index; the first failure ends the call.
    [order i] is what the two ranges over the header maps of record [i]
    yield. *)
Fixpoint fill (order : nat → list (string * list string) * list (string * list string))
  (i : nat) (reqs : list reqlog.Request.t) (logs : list api.HTTPRequestLog.t) :
  result (list api.HTTPRequestLog.t) :=
  match reqs with
  | [] => Ok logs
  | req :: rest =>
      match api.parseRequestLog (order i).1 (order i).2 req with
      | Err err => Err err
      | Ok req => fill order (S i) rest (<[i := req]> logs)
      end
  end.

(** The resolver of the list of log entries.  [find] is the call of the
    service that reads the records. *)
Definition HTTPRequestLogs
  (order : nat → list (string * list string) * list (string * list string))
  (find : M (list reqlog.Request.t)) : M (list api.HTTPRequestLog.t) :=
  λ w, match find w with
       | (Err err, w') =>
           (Err (Errorf "could not query repository for requests: " err), w')
       | (Ok reqs, w') =>
           (fill order 0 reqs (replicate (length reqs) zero), w')
       end.

End resolvers.

(** ** The admin page: [LogsOverview.tsx] *)

Module LogsOverview.

(** What [router.query] holds under a key: nothing, the text of the
    parameter, or the texts of a repeated parameter. *)
Inductive query_value : Type :=
| undefined
| text (s : string)
| texts (l : list string).

(** The text a value becomes when it is concatenated to a string; an
    array becomes its elements with commas between them. *)
Definition ToString (v : query_value) : string :=
  match v with
  | undefined => "undefined"
  | text s => s
  | texts l => sq.Join "," l
  end.

(** [v != ''], the loose comparison: [undefined] differs from every
    string, an array is compared by its text. *)
Definition differs_from_empty (v : query_value) : bool :=
  match v with
  | undefined => true
  | _ => negb (String.eqb (ToString v) "")
  end.

(** [handleLogClick]: the answer is the URL given to [router.push].
    [filter] is [router.query.s]. *)
Definition handleLogClick (filter : query_value) (reqId : string) : string :=
  let querystring := "?" in
  let querystring :=
    if differs_from_empty filter
    then querystring +:+ "s=" +:+ ToString filter +:+ "&id=" +:+ reqId
    else querystring +:+ "id=" +:+ reqId in
  "/proxy/logs" +:+ querystring.

(** [handleSearch]: the URL given to [router.push]. *)
Definition handleSearch (filter : string) : string := "/proxy/logs?s=" +:+ filter.

End LogsOverview.

(** ** More notions used to state the properties *)

(** The names the planner looks at among the fields of a request. *)
Definition request_field (name : string) : Prop :=
  name ∈ ["proto"; "url"; "method"; "body"; "timestamp"; "headers"; "response"].

#[global] Instance request_field_dec name : Decision (request_field name).
Proof. unfold request_field. apply _. Defined.

(** A field named [response] is among the selected fields. *)
Definition selects_response (fs : list CollectedField) : Prop :=
  ∃ f, f ∈ fs ∧ Name f = "response".

(** A computation that leaves the committed store and the open
    transaction as they are. *)
Definition read_only {A} (m : M A) : Prop :=
  ∀ w, committed (m w).2 = committed w ∧ tx (m w).2 = tx w.

(** Two responses that differ at most in their header map. *)
Definition same_response_but_headers (s s' : reqlog.Response.t) : Prop :=
  reqlog.Response.ID s' = reqlog.Response.ID s
  ∧ reqlog.Response.RequestID s' = reqlog.Response.RequestID s
  ∧ http.Response.Status (reqlog.Response.Response s')
    = http.Response.Status (reqlog.Response.Response s)
  ∧ http.Response.StatusCode (reqlog.Response.Response s')
    = http.Response.StatusCode (reqlog.Response.Response s)
  ∧ http.Response.Proto (reqlog.Response.Response s')
    = http.Response.Proto (reqlog.Response.Response s)
  ∧ reqlog.Response.Body s' = reqlog.Response.Body s
  ∧ reqlog.Response.Timestamp s' = reqlog.Response.Timestamp s.

(** Two records that differ at most in the header maps of the request and
    of the response. *)
Definition same_but_headers (r r' : reqlog.Request.t) : Prop :=
  reqlog.Request.ID r' = reqlog.Request.ID r
  ∧ http.Request.Method (reqlog.Request.Request r')
    = http.Request.Method (reqlog.Request.Request r)
  ∧ http.Request.URL (reqlog.Request.Request r') = http.Request.URL (reqlog.Request.Request r)
  ∧ http.Request.Proto (reqlog.Request.Request r')
    = http.Request.Proto (reqlog.Request.Request r)
  ∧ reqlog.Request.Body r' = reqlog.Request.Body r
  ∧ reqlog.Request.Timestamp r' = reqlog.Request.Timestamp r
  ∧ match reqlog.Request.Response r, reqlog.Request.Response r' with
    | Some s, Some s' => same_response_but_headers s s'
    | None, None => True
    | _, _ => False
    end.

(** The responses of a request, in rowid order. *)
Definition responses_of (d : DB) (q : requests_row) : list responses_row :=
  filter (λ s, rs_req_id s = rq_id q) (http_responses d).

(** The largest rowid of SQLite, and the rowids after which the next one
    is the largest plus one: from 0 up to the last but one. *)
Definition max_rowid : Z := 2 ^ 63 - 1.

Definition rowids_in_range (ids : list Z) : Prop := ∀ i, i ∈ ids → 0 ≤ i < max_rowid.

(** Numbers [1], ..., [n] of the first [n] rows of an empty table. *)
Definition first_rowids (n : nat) : list Z := seqZ 1 (Z.of_nat n).

(** A header selection the header fetch can serve: no column, or two. *)
Definition none_or_two (cols : list string) : Prop :=
  length cols = 0%nat ∨ length cols = 2%nat.

(** The byte the second loop of [canonicalMIMEHeaderKey] writes in the
    place of [c]. *)
Definition canonical_byte (upper : bool) (c : ascii) : ascii :=
  if upper && textproto.isLower c then ascii_of_nat (nat_of_ascii c - textproto.toLower)
  else if negb upper && textproto.isUpper c then ascii_of_nat (nat_of_ascii c + textproto.toLower)
  else c.

(** No key of the map holds an empty list of values. *)
Definition no_empty_values (h : Header) : Prop :=
  ∀ k l, h !! k = Some l → l ≠ [].

(** The bytes of a sequence of chunks. *)
Definition bytes_of (chunks : list string) : string := foldr String.append "" chunks.

(** The statements of [prepareSchema], in its order, each with the name
    its error message gives the table. *)
Definition schema_statements : list (schema.create_stmt * string) :=
  [ (schema.create_http_requests, "http_requests");
    (schema.create_http_responses, "http_responses");
    (schema.create_http_headers, "http_headers") ].

(** The file after the first [k] statements of [prepareSchema]. *)
Definition created (k : nat) (f : schema.File) : schema.File :=
  foldl (λ f s, schema.exec_create s.1 f) f (take k schema_statements).

(** The text that opens the error of [AddRequestLog] when its driver call
    of index [k] fails, for a request with [n] header values: the calls
    are, in order, the begin of the transaction, the preparation and the
    execution of the request insert, the read of the new id, the
    preparation of the header insert, its [n] executions, and the commit. *)
Definition AddRequestLog_failure (n k : nat) : string :=
  match k with
  | 0%nat => "sqlite: could not start transaction: "
  | 1%nat => "sqlite: could not prepare statement: "
  | 2%nat => "sqlite: could not execute statement: "
  | 3%nat => "sqlite: could not get last insert ID: "
  | 4%nat => "sqlite: could not prepare statement: "
  | _ =>
      if (k <? 5 + n)%nat
      then "sqlite: could not insert http headers: could not execute statement: "
      else "sqlite: could not commit transaction: "
  end.


(** * Properties *)

Example canonical_examples :
  textproto.CanonicalMIMEHeaderKey "x-custom" = "X-Custom"
  ∧ textproto.CanonicalMIMEHeaderKey "CONTENT-type" = "Content-Type"
  ∧ textproto.CanonicalMIMEHeaderKey "a b" = "a b".
Proof. repeat split; reflexivity. Qed.

(** ** The projection planner *)

Section planner.
Import sqlite.

Lemma headerCols_app cols hfs : headerCols cols hfs = cols ++ headerCols [] hfs.
Proof.
  unfold headerCols. revert cols.
  induction hfs as [|hf hfs IH]; intros cols; simpl.
  - by rewrite app_nil_r.
  - destruct (headerFieldToColumnMap !! Name hf) as [col|].
    + rewrite (IH (cols ++ [col])), (IH [col]). by rewrite <- app_assoc.
    + apply IH.
Qed.

Lemma headerFieldToColumnMap_cases name col :
  headerFieldToColumnMap !! name = Some col → col = "key" ∨ col = "value".
Proof.
  intros H. apply elem_of_list_to_map_2 in H.
  repeat (apply elem_of_cons in H as [H|H]; [inversion H; auto|]).
  by apply elem_of_nil in H.
Qed.

Lemma headerCols_columns hfs c :
  c ∈ headerCols [] hfs → c = "key" ∨ c = "value".
Proof.
  induction hfs as [|hf hfs IH] using rev_ind.
  - intros H. by apply elem_of_nil in H.
  - unfold headerCols in *. rewrite foldl_snoc.
    destruct (headerFieldToColumnMap !! Name hf) as [col|] eqn:E; [|done].
    intros [H|H]%elem_of_app; [auto|].
    apply list_elem_of_singleton in H as ->. by eapply headerFieldToColumnMap_cases.
Qed.


Lemma grows_refl {A} (P : A → Prop) l : grows P l l.
Proof.
  exists []. rewrite app_nil_r. split; [done|]. intros c H. by apply elem_of_nil in H.
Qed.

Lemma grows_trans {A} (P : A → Prop) l1 l2 l3 :
  grows P l1 l2 → grows P l2 l3 → grows P l1 l3.
Proof.
  intros (k1 & -> & H1) (k2 & -> & H2). exists (k1 ++ k2).
  split; [by rewrite app_assoc|]. intros c [?|?]%elem_of_app; auto.
Qed.

Lemma grows_snoc {A} (P : A → Prop) l c : P c → grows P l (l ++ [c]).
Proof.
  intros H. exists [c]. split; [done|]. by intros ? ->%list_elem_of_singleton.
Qed.


Lemma extends_refl q : extends q q.
Proof. repeat split; auto using grows_refl. Qed.

Lemma extends_trans q1 q2 q3 : extends q1 q2 → extends q2 q3 → extends q1 q3.
Proof.
  intros (A1 & B1 & C1 & J1) (A2 & B2 & C2 & J2).
  repeat split; eauto using grows_trans.
Qed.

Lemma headerCols_grows cols hfs : grows header_column cols (headerCols cols hfs).
Proof.
  exists (headerCols [] hfs). split; [apply headerCols_app|apply headerCols_columns].
Qed.

Lemma reqFieldToColumnMap_base name col :
  reqFieldToColumnMap !! name = Some col → base_column ("req." +:+ col).
Proof.
  intros H. apply elem_of_list_to_map_2 in H.
  repeat (apply elem_of_cons in H as [H|H]; [inversion H; by eexists|]).
  by apply elem_of_nil in H.
Qed.

Lemma resFieldToColumnMap_base name col :
  resFieldToColumnMap !! name = Some col → base_column ("res." +:+ col).
Proof.
  intros H. apply elem_of_list_to_map_2 in H.
  repeat (apply elem_of_cons in H as [H|H]; [inversion H; by eexists|]).
  by apply elem_of_nil in H.
Qed.

Lemma resFieldStep_extends q f :
  extends q (resFieldStep q f) ∧ joinResponse (resFieldStep q f) = joinResponse q.
Proof.
  unfold resFieldStep.
  set (q1 := if String.eqb (Name f) "headers" then _ else q).
  assert (extends q q1 ∧ joinResponse q1 = joinResponse q) as [E1 J1].
  { subst q1. destruct (String.eqb (Name f) "headers"); [|split; [apply extends_refl|done]].
    split; [|done]. repeat split; simpl; auto using grows_refl, headerCols_grows.
    apply grows_snoc. by eexists. }
  destruct (resFieldToColumnMap !! Name f) as [col|] eqn:E; [|done].
  split; [|done]. eapply extends_trans; [exact E1|].
  repeat split; simpl; auto using grows_refl.
  apply grows_snoc. by eapply resFieldToColumnMap_base.
Qed.

Lemma foldl_resFieldStep_extends fs q :
  extends q (foldl resFieldStep q fs)
  ∧ joinResponse (foldl resFieldStep q fs) = joinResponse q.
Proof.
  revert q. induction fs as [|f fs IH]; intros q; simpl.
  - split; [apply extends_refl|done].
  - destruct (resFieldStep_extends q f) as [E J].
    destruct (IH (resFieldStep q f)) as [E' J'].
    split; [by eapply extends_trans|congruence].
Qed.

Lemma reqFieldStep_extends q f :
  extends q (reqFieldStep q f)
  ∧ joinResponse (reqFieldStep q f) = joinResponse q || String.eqb (Name f) "response".
Proof.
  unfold reqFieldStep.
  set (q1 := match reqFieldToColumnMap !! Name f with
             | Some col => _ | None => q end).
  assert (extends q q1 ∧ joinResponse q1 = joinResponse q) as [E1 J1].
  { subst q1. destruct (reqFieldToColumnMap !! Name f) eqn:E;
      [|split; [apply extends_refl|done]].
    split; [|done]. repeat split; simpl; auto using grows_refl.
    apply grows_snoc. by eapply reqFieldToColumnMap_base. }
  set (q2 := if String.eqb (Name f) "headers" then _ else q1).
  assert (extends q1 q2 ∧ joinResponse q2 = joinResponse q1) as [E2 J2].
  { subst q2. destruct (String.eqb (Name f) "headers"); [|split; [apply extends_refl|done]].
    split; [|done]. repeat split; simpl; auto using grows_refl, headerCols_grows. }
  destruct (String.eqb (Name f) "response").
  - destruct (foldl_resFieldStep_extends (Selections f)
                (mk_query (requestCols q2) (requestHeaderCols q2)
                   (responseHeaderCols q2) true)) as [E3 J3].
    split; [|by rewrite J3, orb_true_r].
    eapply extends_trans; [exact E1|]. eapply extends_trans; [exact E2|].
    eapply extends_trans; [|exact E3].
    repeat split; simpl; auto using grows_refl.
  - split; [by eapply extends_trans|]. by rewrite J2, J1, orb_false_r.
Qed.

Lemma foldl_reqFieldStep_extends fs q :
  extends q (foldl reqFieldStep q fs)
  ∧ joinResponse (foldl reqFieldStep q fs)
    = joinResponse q || existsb (λ f, String.eqb (Name f) "response") fs.
Proof.
  revert q. induction fs as [|f fs IH]; intros q; simpl.
  - split; [apply extends_refl|by rewrite orb_false_r].
  - destruct (reqFieldStep_extends q f) as [E J].
    destruct (IH (reqFieldStep q f)) as [E' J'].
    split; [by eapply extends_trans|]. by rewrite J', J, orb_assoc.
Qed.

(** The join is planned exactly when a field named [response] is among
    the selected request fields. *)
Lemma joinResponse_iff fs :
  joinResponse (parseHTTPRequestLogsQuery fs) = true
  ↔ ∃ f, f ∈ fs ∧ Name f = "response".
Proof.
  unfold parseHTTPRequestLogsQuery.
  destruct (foldl_reqFieldStep_extends fs
              (mk_query ["req.id AS req_id"; "res.id AS res_id"] [] [] false)) as [_ ->].
  simpl. rewrite existsb_exists. split.
  - intros (f & Hin & Hn). exists f. split; [by apply list_elem_of_In|].
    by apply String.eqb_eq.
  - intros (f & Hin & Hn). exists f. split; [by apply list_elem_of_In|].
    by apply String.eqb_eq.
Qed.

(** Both id columns open every column list, whatever was selected, and
    every further column is one the two tables have. *)
Lemma requestCols_shape fs :
  ∃ l, requestCols (parseHTTPRequestLogsQuery fs)
       = "req.id AS req_id" :: "res.id AS res_id" :: l
       ∧ ∀ c, c ∈ l → base_column c.
Proof.
  unfold parseHTTPRequestLogsQuery.
  destruct (foldl_reqFieldStep_extends fs
              (mk_query ["req.id AS req_id"; "res.id AS res_id"] [] [] false)) as [((l & H & K) & _) _].
  exists l. split; [exact H|exact K].
Qed.

Lemma requestHeaderCols_columns fs c :
  c ∈ requestHeaderCols (parseHTTPRequestLogsQuery fs) → header_column c.
Proof.
  unfold parseHTTPRequestLogsQuery.
  destruct (foldl_reqFieldStep_extends fs
              (mk_query ["req.id AS req_id"; "res.id AS res_id"] [] [] false)) as [(_ & (l & -> & H) & _) _].
  simpl. apply H.
Qed.

Lemma responseHeaderCols_columns fs c :
  c ∈ responseHeaderCols (parseHTTPRequestLogsQuery fs) → header_column c.
Proof.
  unfold parseHTTPRequestLogsQuery.
  destruct (foldl_reqFieldStep_extends fs
              (mk_query ["req.id AS req_id"; "res.id AS res_id"] [] [] false)) as [(_ & _ & (l & -> & H) & _) _].
  simpl. apply H.
Qed.

End planner.


(** ** Writes *)

Section writes.
Import sqlite.

Lemma next_rowid_fresh ids x : x ∈ ids → x < next_rowid ids.
Proof.
  unfold next_rowid. induction ids as [|y ids IH]; simpl.
  - intros H. by apply elem_of_nil in H.
  - intros [->|H]%elem_of_cons; [lia|]. specialize (IH H). lia.
Qed.

Lemma next_rowid_pos ids : 0 < next_rowid ids.
Proof. unfold next_rowid. induction ids; simpl; lia. Qed.

Lemma add_header_owned o id o' id' d kv :
  owned o' id' d → owned o' id' (add_header o id d kv).
Proof. by destruct o'. Qed.

Lemma exec_header o id d k v :
  owned o id d →
  exec_insert (owner_stmt o) [VInt id; VText k; VText v] d
  = (Ok (next_rowid (hd_id <$> http_headers d)), add_header o id d (k, v)).
Proof.
  intros H. destruct o; simpl in *; by rewrite bool_decide_eq_true_2.
Qed.

(** The inner loop, over the values of one key. *)
Lemma insert_values o id k vs c d fs :
  owned o id d →
  match forM_ vs (λ value,
          wrap "could not execute statement: "
            (ExecContext (owner_stmt o) [VInt id; VText k; VText value]) ;; ret tt)
        (mk_World c (Some d) fs) with
  | (Ok _, w') =>
      committed w' = c ∧ tx w' = Some (add_headers o id (pair k <$> vs) d)
      ∧ (fs = [] → faults w' = [])
  | (Err _, w') => committed w' = c ∧ is_Some (tx w') ∧ fs ≠ []
  end.
Proof.
  revert d fs. induction vs as [|v vs IH]; intros d fs Hown.
  - simpl. done.
  - cbn [forM_ fmap list_fmap]. unfold bind at 1. unfold bind at 1.
    unfold wrap, ExecContext, bind, step, in_tx. cbn [faults tx set_faults set_tx committed].
    destruct fs as [|[msg|] fs]; cbn [faults tx set_faults set_tx committed].
    + rewrite (exec_header _ _ _ _ _ Hown). cbn.
      specialize (IH (add_header o id d (k, v)) [] (add_header_owned _ _ _ _ _ _ Hown)).
      unfold bind, wrap, ExecContext, step, in_tx in IH.
      destruct (forM_ vs _ _) as [[[]|e] w']; [done|]. by destruct IH as (? & ? & ?).
    + cbn. eauto.
    + rewrite (exec_header _ _ _ _ _ Hown). cbn.
      specialize (IH (add_header o id d (k, v)) fs (add_header_owned _ _ _ _ _ _ Hown)).
      unfold bind, wrap, ExecContext, step, in_tx in IH.
      destruct (forM_ vs _ _) as [[[]|e] w']; destruct IH as (? & ? & ?); done.
Qed.

Lemma pairs_cons k vs visit : pairs ((k, vs) :: visit) = (pair k <$> vs) ++ pairs visit.
Proof. done. Qed.

Lemma add_headers_app o id l1 l2 d :
  add_headers o id (l1 ++ l2) d = add_headers o id l2 (add_headers o id l1 d).
Proof. apply foldl_app. Qed.

Lemma add_headers_owned o id o' id' kvs d :
  owned o' id' d → owned o' id' (add_headers o id kvs d).
Proof.
  revert d. induction kvs as [|kv kvs IH]; intros d H; [done|].
  apply IH. by apply add_header_owned.
Qed.

(** Inside an open transaction [insertHeaders] touches the private copy
    only; when it succeeds every pair has its row. *)
Lemma insertHeaders_spec o id visit c d fs :
  owned o id d →
  match insertHeaders (owner_stmt o) id visit (mk_World c (Some d) fs) with
  | (Ok _, w') =>
      committed w' = c ∧ tx w' = Some (add_headers o id (pairs visit) d)
      ∧ (fs = [] → faults w' = [])
  | (Err _, w') => committed w' = c ∧ is_Some (tx w') ∧ fs ≠ []
  end.
Proof.
  unfold insertHeaders. revert d fs.
  induction visit as [|[k vs] visit IH]; intros d fs Hown.
  - simpl. done.
  - cbn [forM_]. unfold bind at 1. cbn [fst snd].
    pose proof (insert_values o id k vs c d fs Hown) as Hin.
    destruct (forM_ vs _ _) as [[[]|e] [c' t' fs']]; [|done].
    cbn [committed tx faults] in Hin. destruct Hin as (-> & -> & Hq).
    specialize (IH (add_headers o id (pair k <$> vs) d) fs'
                  (add_headers_owned _ _ _ _ _ _ Hown)).
    rewrite pairs_cons, add_headers_app.
    destruct (forM_ visit _ _) as [[[]|e] w''].
    + destruct IH as (? & ? & Hq'). repeat split; [done..|]. auto.
    + destruct IH as (? & ? & Hne). repeat split; [done..|].
      intros ->. by apply Hne, Hq.
Qed.

Lemma insertHeaders_quiet o id visit c d :
  owned o id d →
  insertHeaders (owner_stmt o) id visit (mk_World c (Some d) [])
  = (Ok tt, mk_World c (Some (add_headers o id (pairs visit) d)) []).
Proof.
  intros Hown. pose proof (insertHeaders_spec o id visit c d [] Hown) as H.
  destruct (insertHeaders _ _ _ _) as [[[]|e] [c' t' fs']]; cbn in H.
  - destruct H as (-> & -> & Hq). by rewrite Hq.
  - by destruct H as (_ & _ & ?).
Qed.

Local Arguments insertHeaders : simpl never.
Local Arguments add_headers : simpl never.
Local Arguments next_rowid : simpl never.

Lemma owned_add_request req body ts c :
  owned by_req_id (next_rowid (rq_id <$> http_requests c)) (add_request req body ts c).
Proof.
  unfold owned, add_request. simpl. rewrite fmap_app. apply elem_of_app. right.
  simpl. apply list_elem_of_singleton. done.
Qed.

(** [AddRequestLog] under every fault schedule: an error leaves the store
    as it was, success adds the request row and a row for every header
    pair; either way no transaction stays open. *)
Lemma AddRequestLog_spec visit req body ts c fs :
  match AddRequestLog visit req body ts (mk_World c None fs) with
  | (Ok r, w') =>
      r = reqlog.Request.mk (next_rowid (rq_id <$> http_requests c)) req body ts None
      ∧ committed w'
        = add_headers by_req_id (next_rowid (rq_id <$> http_requests c))
            (pairs visit) (add_request req body ts c)
      ∧ tx w' = None
      ∧ (fs = [] → faults w' = [])
  | (Err _, w') => committed w' = c ∧ tx w' = None ∧ fs ≠ []
  end.
Proof.
  unfold AddRequestLog, BeginTx, PrepareContext, ExecContext, LastInsertId, Commit, Rollback,
    defer, wrap, bind, ret, step, in_tx.
  cbn -[insertHeaders add_headers next_rowid statusReason].
  repeat (tick; try done).
  all: unfold set_tx, set_faults; cbn -[insertHeaders add_headers next_rowid statusReason].
  all: fold (add_request req body ts c).
  all: match goal with
       | |- context [insertHeaders _ _ _ (mk_World _ _ ?fs)] =>
           pose proof (insertHeaders_spec by_req_id _ visit c _ fs
                         (owned_add_request req body ts c)) as Hins;
           cbn -[insertHeaders add_headers next_rowid statusReason] in Hins;
           destruct (insertHeaders _ _ _ _) as [[[]|?] [c' t' fs']];
           cbn -[insertHeaders add_headers next_rowid statusReason] in Hins |- *;
           [destruct Hins as (-> & -> & Hq)|destruct Hins as (-> & [? ->] & ?)];
           cbn -[insertHeaders add_headers next_rowid statusReason]
       end.
  all: repeat (tick; try done).
  all: cbn; repeat split; auto; try done.
  all: by specialize (Hq eq_refl).
Qed.

Lemma owned_add_response reqID res body ts c :
  owned by_res_id (next_rowid (rs_id <$> http_responses c)) (add_response reqID res body ts c).
Proof.
  unfold owned, add_response. simpl. rewrite fmap_app. apply elem_of_app. right.
  simpl. apply list_elem_of_singleton. done.
Qed.

(** [AddResponseLog] under every fault schedule.  It also fails, with the
    store unchanged, when the request it refers to does not exist. *)
Lemma AddResponseLog_spec visit reqID res body ts c fs :
  match AddResponseLog visit reqID res body ts (mk_World c None fs) with
  | (Ok r, w') =>
      reqID ∈ rq_id <$> http_requests c
      ∧ r = reqlog.Response.mk (next_rowid (rs_id <$> http_responses c)) reqID res body ts
      ∧ committed w'
        = add_headers by_res_id (next_rowid (rs_id <$> http_responses c))
            (pairs visit) (add_response reqID res body ts c)
      ∧ tx w' = None
      ∧ (fs = [] → faults w' = [])
  | (Err _, w') =>
      committed w' = c ∧ tx w' = None ∧ (fs ≠ [] ∨ reqID ∉ rq_id <$> http_requests c)
  end.
Proof.
  unfold AddResponseLog, BeginTx, PrepareContext, ExecContext, LastInsertId, Commit, Rollback,
    defer, wrap, bind, ret, step, in_tx.
  cbn -[insertHeaders add_headers next_rowid statusReason].
  repeat (tick; try (repeat split; auto; done)).
  all: case_bool_decide as Hfk; cbn -[insertHeaders add_headers next_rowid statusReason];
    [|repeat split; auto; done].
  all: repeat (tick; try (repeat split; auto; done)).
  all: unfold set_tx, set_faults; cbn -[insertHeaders add_headers next_rowid statusReason].
  all: fold (add_response reqID res body ts c).
  all: match goal with
       | |- context [insertHeaders _ _ _ (mk_World _ _ ?fs)] =>
           pose proof (insertHeaders_spec by_res_id _ visit c _ fs
                         (owned_add_response reqID res body ts c)) as Hins;
           cbn -[insertHeaders add_headers next_rowid statusReason] in Hins;
           destruct (insertHeaders _ _ _ _) as [[[]|?] [c' t' fs']];
           cbn -[insertHeaders add_headers next_rowid statusReason] in Hins |- *;
           [destruct Hins as (-> & -> & Hq)|destruct Hins as (-> & [? ->] & ?)];
           cbn -[insertHeaders add_headers next_rowid statusReason]
       end.
  all: repeat (tick; try (repeat split; auto; done)).
  all: cbn; repeat split; auto; try done.
  all: by specialize (Hq eq_refl).
Qed.

(** Before [Commit] nothing reaches the committed store, the one other
    connections read: a statement run through the transaction, and every
    pass of the loop of [insertHeaders], leaves it as it is, whatever
    the faults and whatever the state of the transaction. *)
Lemma ExecContext_private s args w : committed (ExecContext s args w).2 = committed w.
Proof.
  unfold ExecContext, bind, step, in_tx. destruct w as [c t [|[msg|] fs]]; cbn;
    try done; destruct t as [d|]; cbn; try done; destruct (exec_insert s args d); done.
Qed.

Lemma forM__private {A} (f : A → M unit) l :
  (∀ a w, committed (f a w).2 = committed w) →
  ∀ w, committed (forM_ l f w).2 = committed w.
Proof.
  intros Hf. induction l as [|a l IH]; intros w; [done|].
  cbn [forM_]. unfold bind. specialize (Hf a w).
  destruct (f a w) as [[[]|e] w1]; cbn [snd] in *; [|done].
  rewrite <- Hf. apply IH.
Qed.

Lemma insertHeaders_private s id visit w :
  committed (insertHeaders s id visit w).2 = committed w.
Proof.
  unfold insertHeaders. apply forM__private. clear. intros [k vs] w.
  apply forM__private. clear w. intros v w.
  unfold bind, wrap, ret.
  pose proof (ExecContext_private s [VInt id; VText (k, vs).1; VText v] w) as He.
  by destruct (ExecContext _ _ w) as [[r|e] w1].
Qed.
End writes.


(** ** Header rows and header maps *)

Section headers.
Import sqlite.

Lemma values_Add h k v K :
  values (Add h k v) K
  = values h K ++ (if decide (textproto.CanonicalMIMEHeaderKey k = K) then [v] else []).
Proof.
  unfold Add, values. case_decide as E.
  - subst K. by rewrite lookup_insert_eq.
  - rewrite lookup_insert_ne by done. by rewrite app_nil_r.
Qed.

Lemma values_collect g1 g2 rows h K :
  values (collect g1 g2 rows h) K
  = values h K
    ++ (g2 <$> filter (λ r, textproto.CanonicalMIMEHeaderKey (g1 r) = K) rows).
Proof.
  unfold collect. revert h. induction rows as [|r rows IH]; intros h; simpl.
  - by rewrite app_nil_r.
  - rewrite IH, values_Add, filter_cons. case_decide; simpl.
    + by rewrite <- app_assoc.
    + by rewrite app_nil_r.
Qed.

Lemma values_empty K : values (∅ : Header) K = [].
Proof. unfold values. by rewrite lookup_empty. Qed.

(** The rows [add_headers] appends belong to the owner and carry the
    pairs as they were given. *)
Lemma owner_rows_app o id l1 l2 :
  owner_rows o id (l1 ++ l2) = owner_rows o id l1 ++ owner_rows o id l2.
Proof. destruct o; simpl; apply filter_app. Qed.

Lemma add_headers_tables o id kvs d :
  http_requests (add_headers o id kvs d) = http_requests d
  ∧ http_responses (add_headers o id kvs d) = http_responses d.
Proof.
  revert d. induction kvs as [|kv kvs IH]; intros d; [done|].
  unfold add_headers in *. simpl. destruct (IH (add_header o id d kv)) as [-> ->]. done.
Qed.

Lemma add_headers_rows o id kvs d :
  ∃ rows, http_headers (add_headers o id kvs d) = http_headers d ++ rows
          ∧ ((λ r, (hd_key r, hd_value r)) <$> rows) = kvs
          ∧ owner_rows o id rows = rows
          ∧ (∀ o' id', (o', id') ≠ (o, id) → owner_rows o' id' rows = [])
          ∧ Forall (owned_row o id) rows.
Proof.
  revert d. induction kvs as [|[k v] kvs IH]; intros d.
  - exists []. rewrite app_nil_r. repeat split; [by destruct o|by intros [] ? ?|done].
  - destruct (IH (add_header o id d (k, v))) as (rows & H1 & H2 & H3 & H4 & H5).
    exists (header_row o id (next_rowid (hd_id <$> http_headers d)) (k, v) :: rows).
    unfold add_headers in *. simpl. rewrite H1. simpl. rewrite <- app_assoc. simpl.
    repeat split.
    + f_equal; [by destruct o|exact H2].
    + change (?x :: rows) with ([x] ++ rows). rewrite owner_rows_app, H3.
      f_equal. destruct o; simpl; by rewrite filter_cons_True.
    + intros o' id' Hne.
      change (?x :: rows) with ([x] ++ rows). rewrite owner_rows_app, (H4 _ _ Hne).
      rewrite app_nil_r.
      destruct o, o'; simpl; rewrite filter_cons_False; try done; simpl; congruence.
    + constructor; [by destruct o|done].
Qed.


Lemma owner_rows_add_headers_other o id o' id' kvs d :
  (o', id') ≠ (o, id) →
  owner_rows o' id' (http_headers (add_headers o id kvs d)) = owner_rows o' id' (http_headers d).
Proof.
  intros Hne. destruct (add_headers_rows o id kvs d) as (rows & -> & _ & _ & Hother & _).
  by rewrite owner_rows_app, (Hother _ _ Hne), app_nil_r.
Qed.

(** [findHeaders] in a world without faults, for a statement of two text
    columns. *)
Lemma findHeaders_quiet n1 n2 g1 g2 o id c t :
  findHeaders (plan_headers [(n1, λ h, VText (g1 h)); (n2, λ h, VText (g2 h))] o) id
    (mk_World c t [])
  = (Ok (collect g1 g2 (owner_rows o id (http_headers c)) ∅), mk_World c t []).
Proof.
  unfold findHeaders, QueryContext, rows_Err, read, wrap, bind, step, ret. cbn.
  assert (∀ rows (h : Header),
    foldM (λ headers r,
             kv <- wrap "sqlite: could not scan row: " (lift (Scan2 r)) ;;
             ret (Add headers kv.1 kv.2)) h
      ((λ r, [(n1, VText (g1 r)); (n2, VText (g2 r))]) <$> rows) (mk_World c t [])
    = (Ok (collect g1 g2 rows h), mk_World c t [])) as Hfold.
  { induction rows as [|r rows IH]; intros h; [done|].
    cbn. unfold bind, wrap, lift, ret in *. cbn. apply IH. }
  unfold bind, wrap, lift, ret in Hfold.
  destruct o; cbn; rewrite Hfold; done.
Qed.
End headers.


(** ** Canonical header keys *)

Section canonical_keys.

Lemma canonicalize_cons upper c rest :
  textproto.canonicalize upper (String c rest)
  = String (canonical_byte upper c)
      (textproto.canonicalize (Ascii.eqb (canonical_byte upper c) "-") rest).
Proof. reflexivity. Qed.

Lemma canonical_byte_idem upper c :
  canonical_byte upper (canonical_byte upper c) = canonical_byte upper c.
Proof. destruct upper, c as [[] [] [] [] [] [] [] []]; reflexivity. Qed.

Lemma canonical_byte_valid upper c :
  textproto.validHeaderFieldByte c = true →
  textproto.validHeaderFieldByte (canonical_byte upper c) = true.
Proof. destruct upper, c as [[] [] [] [] [] [] [] []]; vm_compute; done. Qed.

Lemma canonicalize_idem upper s :
  textproto.canonicalize upper (textproto.canonicalize upper s)
  = textproto.canonicalize upper s.
Proof.
  revert upper. induction s as [|c s IH]; intros upper; [done|].
  rewrite !canonicalize_cons, canonical_byte_idem. by rewrite IH.
Qed.

Lemma canonicalize_valid upper s :
  forallb textproto.validHeaderFieldByte (list_ascii_of_string s) = true →
  forallb textproto.validHeaderFieldByte
    (list_ascii_of_string (textproto.canonicalize upper s)) = true.
Proof.
  revert upper. induction s as [|c s IH]; intros upper; [done|].
  rewrite canonicalize_cons. cbn [list_ascii_of_string forallb].
  intros [Hc Hs]%andb_prop. rewrite canonical_byte_valid by done. by apply IH.
Qed.

(** Canonical keys are fixed points of the canonicalisation. *)
Lemma CanonicalMIMEHeaderKey_idem s :
  textproto.CanonicalMIMEHeaderKey (textproto.CanonicalMIMEHeaderKey s)
  = textproto.CanonicalMIMEHeaderKey s.
Proof.
  unfold textproto.CanonicalMIMEHeaderKey.
  destruct (forallb _ (list_ascii_of_string s)) eqn:E.
  - by rewrite canonicalize_valid, canonicalize_idem.
  - by rewrite E.
Qed.



End canonical_keys.


(** ** Consistency of the store *)

Section consistency.

Lemma consistent_empty : consistent empty_DB.
Proof.
  split; simpl; try (intros; by apply elem_of_nil in H); try (intros ? ? H; by apply elem_of_nil in H);
    apply NoDup_nil_2.
Qed.

Lemma NoDup_snoc_fresh (ids : list Z) : NoDup ids → NoDup (ids ++ [next_rowid ids]).
Proof.
  intros H. apply NoDup_app. split; [done|]. split; [|apply NoDup_singleton].
  intros x Hx ->%list_elem_of_singleton. apply next_rowid_fresh in Hx. lia.
Qed.

Lemma consistent_add_request req body ts d :
  consistent d → consistent (add_request req body ts d).
Proof.
  intros [F1 F2 F3 P1 P2]. split; simpl; rewrite ?fmap_app; simpl.
  - intros s Hs. apply elem_of_app. left. by apply F1.
  - intros h id Hh E. apply elem_of_app. left. by eapply F2.
  - done.
  - by apply NoDup_snoc_fresh.
  - done.
Qed.

Lemma consistent_add_response reqID res body ts d :
  reqID ∈ rq_id <$> http_requests d →
  consistent d → consistent (add_response reqID res body ts d).
Proof.
  intros Hfk [F1 F2 F3 P1 P2]. split; simpl; rewrite ?fmap_app; simpl.
  - intros s [Hs| ->%list_elem_of_singleton]%elem_of_app; [by apply F1|done].
  - done.
  - intros h id Hh E. apply elem_of_app. left. by eapply F3.
  - done.
  - by apply NoDup_snoc_fresh.
Qed.

Lemma consistent_add_header o id kv d :
  owned o id d → consistent d → consistent (add_header o id d kv).
Proof.
  intros Hown [F1 F2 F3 P1 P2]. split; simpl; try done.
  - intros h i [Hh| ->%list_elem_of_singleton]%elem_of_app E; [by eapply F2|].
    destruct o; simpl in *; [by inversion E; subst|done].
  - intros h i [Hh| ->%list_elem_of_singleton]%elem_of_app E; [by eapply F3|].
    destruct o; simpl in *; [done|by inversion E; subst].
Qed.

Lemma consistent_add_headers o id kvs d :
  owned o id d → consistent d → consistent (add_headers o id kvs d).
Proof.
  revert d. induction kvs as [|kv kvs IH]; intros d Hown Hc; [done|].
  apply IH; [by apply add_header_owned|by apply consistent_add_header].
Qed.

Lemma filter_none {A} (P : A → Prop) `{∀ x, Decision (P x)} (l : list A) :
  (∀ x, x ∈ l → ¬ P x) → filter P l = [].
Proof.
  induction l as [|x l IH]; intros Hl; [done|].
  rewrite filter_cons_False by (apply Hl; left).
  apply IH. intros y Hy. apply Hl. by right.
Qed.

(** Nothing in a consistent store refers to the rowid the next request
    will get. *)
Lemma fresh_request_rows d :
  consistent d →
  let id := next_rowid (rq_id <$> http_requests d) in
  filter (λ q, rq_id q = id) (http_requests d) = []
  ∧ filter (λ s, rs_req_id s = id) (http_responses d) = []
  ∧ owner_rows by_req_id id (http_headers d) = [].
Proof.
  intros [F1 F2 F3 P1 P2] id. repeat split.
  - apply filter_none. intros q Hq E.
    assert (rq_id q ∈ rq_id <$> http_requests d) as H by (by apply list_elem_of_fmap_2).
    apply next_rowid_fresh in H. subst id. lia.
  - apply filter_none. intros s Hs E.
    apply F1, next_rowid_fresh in Hs. subst id. lia.
  - simpl. apply filter_none. intros h Hh E.
    apply (F2 h id Hh), next_rowid_fresh in E. subst id. lia.
Qed.


End consistency.

(** The two writes keep the store consistent, whatever the faults. *)

Section invariant.
Import sqlite.

Lemma AddRequestLog_consistent visit req body ts c fs :
  consistent c →
  consistent (committed (AddRequestLog visit req body ts (mk_World c None fs)).2).
Proof.
  intros Hc. pose proof (AddRequestLog_spec visit req body ts c fs) as H.
  destruct (AddRequestLog _ _ _ _ _) as [[r|e] w']; cbn [snd].
  - destruct H as (_ & -> & _).
    apply consistent_add_headers; [apply owned_add_request|by apply consistent_add_request].
  - by destruct H as (-> & _).
Qed.

Lemma AddResponseLog_consistent visit reqID res body ts c fs :
  consistent c →
  consistent (committed (AddResponseLog visit reqID res body ts (mk_World c None fs)).2).
Proof.
  intros Hc. pose proof (AddResponseLog_spec visit reqID res body ts c fs) as H.
  destruct (AddResponseLog _ _ _ _ _ _) as [[r|e] w']; cbn [snd].
  - destruct H as (Hfk & _ & -> & _).
    apply consistent_add_headers; [apply owned_add_response|by apply consistent_add_response].
  - by destruct H as (-> & _).
Qed.
End invariant.


(** ** The base query *)

Section base_query.
Import sqlite.

Lemma resolve_base_ok cols :
  (∀ c, c ∈ cols → base_column c) →
  ∃ rc, resolve_base true cols = Ok rc ∧ Forall known_column rc
        ∧ length rc = length cols.
Proof.
  induction cols as [|c cols IH]; intros H.
  - exists []. by repeat split.
  - destruct IH as (rc & E & K & L); [intros; apply H; by right|].
    destruct (H c) as [[[name b] get] Hc]; [by left|].
    cbn [resolve_base]. rewrite Hc, E. rewrite andb_false_r.
    exists ((name, get) :: rc). repeat split; [|simpl; by rewrite L].
    constructor; [|done]. by exists c, b.
Qed.

Lemma resolve_base_unjoined cols :
  "res.id AS res_id" ∈ cols → ∃ e, resolve_base false cols = Err (errorString e).
Proof.
  induction cols as [|c cols IH]; [by intros ?%elem_of_nil|].
  intros [<-|H]%elem_of_cons; cbn [resolve_base]; [by eexists|].
  destruct (assoc c base_columns) as [[[name b] get]|]; [|by eexists].
  destruct (b && negb false); [by eexists|].
  destruct (IH H) as [e ->]. by eexists.
Qed.

(** Scanning a column of the base query into the row type never fails;
    the id is the id of the request row; a row without response keeps
    the response id null. *)
Lemma scan_known c d q s :
  known_column c →
  ∃ d', dto.scan_column d (c.1, c.2 q s) = Ok d'
        ∧ (dto.httpRequest.ID d = rq_id q → dto.httpRequest.ID d' = rq_id q)
        ∧ (c.1 = "req_id" → dto.httpRequest.ID d' = rq_id q)
        ∧ (s = None → dto.httpResponse.ID (dto.httpRequest.Response d) = None →
           dto.httpResponse.ID (dto.httpRequest.Response d') = None).
Proof.
  destruct c as [name get]. intros (text & b & H). simpl in *.
  unfold base_columns, assoc in H.
  repeat (destruct (String.eqb text _);
          [inversion H; subst; destruct s; eexists; (split; [reflexivity|]);
           simpl; repeat split; auto; done|]).
  done.
Qed.

Lemma scan_columns_known rc d q s :
  Forall known_column rc →
  ∃ d', dto.scan_columns d (eval_row rc (q, s)) = Ok d'
        ∧ (dto.httpRequest.ID d = rq_id q → dto.httpRequest.ID d' = rq_id q)
        ∧ (s = None → dto.httpResponse.ID (dto.httpRequest.Response d) = None →
           dto.httpResponse.ID (dto.httpRequest.Response d') = None).
Proof.
  intros H. revert d. induction H as [|c rc Hc _ IH]; intros d.
  - exists d. by repeat split.
  - destruct (scan_known c d q s Hc) as (d1 & E1 & A1 & _ & B1).
    destruct (IH d1) as (d2 & E2 & A2 & B2).
    exists d2. change (eval_row (c :: rc) (q, s)) with ((c.1, c.2 q s) :: eval_row rc (q, s)).
    cbn [dto.scan_columns]. rewrite E1, E2. repeat split; auto.
Qed.

End base_query.


Section find.
Import sqlite.

(** The columns the planner asks for resolve once the join is there,
    and the first of them is the id of the request. *)
Lemma planned_columns fs :
  ∃ rc, resolve_base true (requestCols (parseHTTPRequestLogsQuery fs))
        = Ok (("req_id", λ q _, VInt (rq_id q)) :: rc)
        ∧ Forall known_column rc.
Proof.
  destruct (requestCols_shape fs) as (l & -> & Hl).
  destruct (resolve_base_ok l Hl) as (rc & E & K & _).
  eexists. cbn [resolve_base]. rewrite E. cbn. split; [reflexivity|].
  constructor; [|done]. by exists "res.id AS res_id", true.
Qed.

Lemma unplanned_columns fs :
  ∃ e, resolve_base false (requestCols (parseHTTPRequestLogsQuery fs)) = Err (errorString e).
Proof.
  destruct (requestCols_shape fs) as (l & -> & Hl).
  apply resolve_base_unjoined. right. left.
Qed.

Lemma StructScan_planned rc q s :
  Forall known_column rc →
  ∃ d, dto.StructScan (eval_row (("req_id", λ q _, VInt (rq_id q)) :: rc) (q, s)) = Ok d
       ∧ dto.httpRequest.ID d = rq_id q
       ∧ (s = None → dto.httpResponse.ID (dto.httpRequest.Response d) = None).
Proof.
  intros K. unfold dto.StructScan.
  change (eval_row (?c :: rc) (q, s)) with ((c.1, c.2 q s) :: eval_row rc (q, s)).
  cbn [dto.scan_columns]. cbn [fst snd].
  change (dto.scan_column dto.httpRequest.zero ("req_id", VInt (rq_id q)))
    with (Ok (dto.httpRequest.mk (rq_id q) "" "" "" [] 0 dto.httpResponse.zero)).
  cbv beta iota.
  destruct (scan_columns_known rc
              (dto.httpRequest.mk (rq_id q) "" "" "" [] 0 dto.httpResponse.zero) q s K)
    as (d & E & A & B).
  exists d. split; [done|]. split; [by apply A|]. intros ->. by apply B.
Qed.

Lemma StructScan_error r e : dto.StructScan r = Err e → ∃ msg, e = errorString msg.
Proof.
  unfold dto.StructScan. generalize dto.httpRequest.zero.
  induction r as [|[name v] r IH]; intros d; simpl; [done|].
  destruct (dto.scan_column d (name, v)) as [d'|e'] eqn:E; [apply IH|].
  intros [= <-]. unfold dto.scan_column, dto.conversion in E. simpl in E.
  repeat (destruct (String.eqb name _);
          [destruct v; inversion E; by eexists|]).
  inversion E. by eexists.
Qed.

Lemma left_join_nonempty resps q : left_join resps q ≠ [].
Proof.
  unfold left_join. destruct (filter _ resps); simpl; done.
Qed.

Lemma left_join_request resps q j : j ∈ left_join resps q → j.1 = q.
Proof.
  unfold left_join. destruct (filter _ resps) as [|s l].
  - by intros ->%list_elem_of_singleton.
  - intros ([] & -> & _)%list_elem_of_fmap; done.
Qed.

Lemma left_join_none resps q :
  filter (λ s, rs_req_id s = rq_id q) resps = [] → left_join resps q = [(q, None)].
Proof. unfold left_join. by intros ->. Qed.


(** *** Stepping through the monad *)

Lemma bind_ok {A B} (m : M A) (k : A → M B) w a w' :
  m w = (Ok a, w') → bind m k w = k a w'.
Proof. unfold bind. by intros ->. Qed.

Lemma bind_err {A B} (m : M A) (k : A → M B) w e w' :
  m w = (Err e, w') → bind m k w = (Err e, w').
Proof. unfold bind. by intros ->. Qed.

Lemma wrap_ok {A} p (m : M A) w a w' : m w = (Ok a, w') → wrap p m w = (Ok a, w').
Proof. unfold wrap. by intros ->. Qed.

Lemma wrap_err {A} p (m : M A) w e w' :
  m w = (Err e, w') → wrap p m w = (Err (Errorf p e), w').
Proof. unfold wrap. by intros ->. Qed.

Lemma ToSql_ok b : sq.Columns b ≠ [] → ∃ s, sq.ToSql b = Ok s.
Proof. unfold sq.ToSql. destruct (sq.Columns b); [done|]. by eexists. Qed.

Lemma QueryxContext_quiet b p args c t :
  compile b = Ok p →
  QueryxContext b args (mk_World c t []) = (run p args c, mk_World c t []).
Proof. intros E. unfold QueryxContext, bind, step, lift, read. cbn. by rewrite E. Qed.

Lemma QueryxContext_invalid b e args c t :
  compile b = Err e →
  QueryxContext b args (mk_World c t []) = (Err e, mk_World c t []).
Proof. intros E. unfold QueryxContext, bind, step, lift, read. cbn. by rewrite E. Qed.

Lemma PrepareSelect_quiet b c t : PrepareSelect b (mk_World c t []) = (compile b, mk_World c t []).
Proof. done. Qed.

Lemma compile_by_id cols rc :
  resolve_base true cols = Ok rc →
  compile (sq.LeftJoin (sq.Where (sq.From (sq.Select cols) "http_requests req") "req.id = ?")
             "http_responses res ON req.id = res.req_id")
  = Ok (plan_requests rc true true false).
Proof. intros E. unfold compile. cbv -[resolve_base]. by rewrite E. Qed.

Lemma compile_ordered cols rc :
  resolve_base true cols = Ok rc →
  compile (sq.LeftJoin (sq.OrderBy (sq.From (sq.Select cols) "http_requests req") "req.id DESC")
             "http_responses res ON req.id = res.req_id")
  = Ok (plan_requests rc true false true).
Proof. intros E. unfold compile. cbv -[resolve_base]. by rewrite E. Qed.

Lemma compile_by_id_unjoined cols e :
  resolve_base false cols = Err e →
  compile (sq.Where (sq.From (sq.Select cols) "http_requests req") "req.id = ?") = Err e.
Proof. intros E. unfold compile. cbv -[resolve_base]. by rewrite E. Qed.

Lemma compile_ordered_unjoined cols e :
  resolve_base false cols = Err e →
  compile (sq.OrderBy (sq.From (sq.Select cols) "http_requests req") "req.id DESC") = Err e.
Proof. intros E. unfold compile. cbv -[resolve_base]. by rewrite E. Qed.

Lemma requestCols_nonempty fs : requestCols (parseHTTPRequestLogsQuery fs) ≠ [].
Proof. by destruct (requestCols_shape fs) as (l & -> & _). Qed.

(** [FindRequestLogByID] in a world without faults, when the projection
    selects the response: no row gives the not-found error, a row is
    scanned and its headers are fetched. *)
Lemma FindRequestLogByID_quiet fs id c t :
  joinResponse (parseHTTPRequestLogsQuery fs) = true →
  ∃ rc,
    resolve_base true (requestCols (parseHTTPRequestLogsQuery fs))
    = Ok (("req_id", λ q _, VInt (rq_id q)) :: rc)
    ∧ Forall known_column rc
    ∧ FindRequestLogByID fs id (mk_World c t [])
    = match filter (λ q, rq_id q = id) (http_requests c) ≫= left_join (http_responses c) with
      | [] => (Err ErrRequestNotFound, mk_World c t [])
      | j :: _ =>
          match dto.StructScan (eval_row (("req_id", λ q _, VInt (rq_id q)) :: rc) j) with
          | Ok d =>
              (reqLogs <- wrap "sqlite: could not query headers: "
                            (queryHeaders (parseHTTPRequestLogsQuery fs) [dto.toRequestLog d]) ;;
               ret (default (dto.toRequestLog d) (head reqLogs))) (mk_World c t [])
          | Err e => (Err (Errorf "sqlite: could not scan row: " e), mk_World c t [])
          end
      end.
Proof.
  intros Hj. destruct (planned_columns fs) as (rc & E & K). exists rc.
  split; [done|]. split; [done|].
  unfold FindRequestLogByID. rewrite Hj.
  set (b := sq.LeftJoin _ _).
  destruct (ToSql_ok b) as [s Hs]; [apply requestCols_nonempty|].
  rewrite (bind_ok _ _ _ s (mk_World c t []))
    by (apply wrap_ok; unfold lift; by rewrite Hs).
  unfold QueryRowxContext.
  rewrite (bind_ok _ _ _ (run (plan_requests (("req_id", λ q _, VInt (rq_id q)) :: rc)
                                 true true false) [VInt id] c) (mk_World c t []))
    by (subst b; by rewrite (QueryxContext_quiet _ _ _ _ _ (compile_by_id _ _ E))).
  cbn [run]. unfold dto.Row_StructScan.
  destruct (filter _ _ ≫= left_join _) as [|j rest]; [done|].
  cbn [fmap list_fmap]. fold (eval_row (("req_id", λ q _, VInt (rq_id q)) :: rc) j).
  destruct (dto.StructScan _) as [d|e] eqn:Es; [done|].
  by destruct (StructScan_error _ _ Es) as [msg ->].
Qed.

Lemma filter_id_nil id (reqs : list requests_row) :
  filter (λ q, rq_id q = id) reqs = [] ↔ id ∉ rq_id <$> reqs.
Proof.
  split.
  - intros H (q & -> & Hq)%list_elem_of_fmap.
    by apply (filter_nil_not_elem_of _ _ q) in H.
  - intros H. apply filter_none. intros q Hq <-. apply H. by apply list_elem_of_fmap_2.
Qed.

Lemma joined_nil id c :
  filter (λ q, rq_id q = id) (http_requests c) ≫= left_join (http_responses c) = []
  ↔ id ∉ rq_id <$> http_requests c.
Proof.
  rewrite <- filter_id_nil. destruct (filter _ (http_requests c)) as [|q l]; [done|].
  rewrite bind_cons. split; [|done].
  intros [H _]%app_eq_nil. by apply left_join_nonempty in H.
Qed.
End find.


(** ** The header fetches *)

Section query_headers.
Import sqlite.

Lemma resolve_header_ok cols :
  (∀ c, c ∈ cols → header_column c) → ∃ hc, resolve_header cols = Ok hc.
Proof.
  induction cols as [|c cols IH]; intros H; [by eexists|].
  destruct IH as [hc E]; [intros; apply H; by right|].
  cbn [resolve_header]. rewrite E.
  destruct (H c) as [-> | ->]; [by left|..]; by eexists.
Qed.

Lemma compile_headers cols p :
  compile (sq.Where (sq.From (sq.Select cols) "http_headers") p)
  = if String.eqb p "req_id = ?" then
      match resolve_header cols with
      | Ok hc => Ok (plan_headers hc by_req_id)
      | Err e => Err e
      end
    else if String.eqb p "res_id = ?" then
      match resolve_header cols with
      | Ok hc => Ok (plan_headers hc by_res_id)
      | Err e => Err e
      end
    else unsupported.
Proof.
  unfold compile. cbn -[resolve_header String.eqb].
  change ("http_headers" =? "http_requests req")%string with false.
  change ("http_headers" =? "http_headers")%string with true. cbv iota.
  destruct (String.eqb p "req_id = ?"); [done|].
  by destruct (String.eqb p "res_id = ?").
Qed.

Lemma compile_two_headers c1 c2 o :
  header_column c1 → header_column c2 →
  compile (sq.Where (sq.From (sq.Select [c1; c2]) "http_headers")
             (match o with by_req_id => "req_id = ?" | by_res_id => "res_id = ?" end))
  = Ok (plan_headers [(c1, λ h, VText (header_getter c1 h));
                      (c2, λ h, VText (header_getter c2 h))] o).
Proof. intros [-> | ->] [-> | ->]; by destruct o. Qed.

Lemma mapM_quiet {A B} (f : A → M B) (g : A → B) l w :
  (∀ a, a ∈ l → f a w = (Ok (g a), w)) → mapM f l w = (Ok (g <$> l), w).
Proof.
  induction l as [|a l IH]; intros H; [done|].
  cbn [mapM]. rewrite (bind_ok _ _ _ (g a) w) by (apply H; left).
  rewrite (bind_ok _ _ _ (g <$> l) w); [done|].
  apply IH. intros; apply H. by right.
Qed.

(** The first half of [queryHeaders], for a selection of two header
    columns. *)
Lemma request_headers_quiet c1 c2 rs c t :
  header_column c1 → header_column c2 →
  (let b := sq.Where (sq.From (sq.Select [c1; c2]) "http_headers") "req_id = ?" in
   wrap "could not parse request headers query: " (lift (sq.ToSql b)) ;;
   reqHeadersStmt <- wrap "could not prepare statement: " (PrepareSelect b) ;;
   mapM (λ r,
           headers <- wrap "could not query request headers: "
                        (findHeaders reqHeadersStmt (reqlog.Request.ID r)) ;;
           ret (set_request_header headers r)) rs) (mk_World c t [])
  = (Ok ((λ r, set_request_header (fetched c1 c2 by_req_id (reqlog.Request.ID r) c) r) <$> rs),
     mk_World c t []).
Proof.
  intros H1 H2. cbv zeta.
  destruct (ToSql_ok (sq.Where (sq.From (sq.Select [c1; c2]) "http_headers") "req_id = ?"))
    as [s Hs]; [done|].
  rewrite (bind_ok _ _ _ s (mk_World c t []))
    by (apply wrap_ok; unfold lift; by rewrite Hs).
  erewrite bind_ok; cycle 1.
  { apply wrap_ok. rewrite PrepareSelect_quiet.
    by rewrite (compile_two_headers c1 c2 by_req_id H1 H2). }
  apply mapM_quiet. intros r _.
  erewrite bind_ok; [reflexivity|].
  apply wrap_ok. apply findHeaders_quiet.
Qed.

(** The second half of [queryHeaders] when no record has a response: the
    statement is prepared and never run. *)
Lemma response_headers_skipped cols rs c t :
  cols ≠ [] → (∀ x, x ∈ cols → header_column x) →
  Forall (λ r, reqlog.Request.Response r = None) rs →
  (let b := sq.Where (sq.From (sq.Select cols) "http_headers") "res_id = ?" in
   wrap "could not parse response headers query: " (lift (sq.ToSql b)) ;;
   resHeadersStmt <- wrap "could not prepare statement: " (PrepareSelect b) ;;
   mapM (λ r,
           match reqlog.Request.Response r with
           | None => ret r
           | Some s =>
               headers <- wrap "could not query response headers: "
                            (findHeaders resHeadersStmt (reqlog.Response.ID s)) ;;
               ret (set_response_header headers r s)
           end) rs) (mk_World c t [])
  = (Ok rs, mk_World c t []).
Proof.
  intros Hne Hc Hr. cbv zeta.
  destruct (ToSql_ok (sq.Where (sq.From (sq.Select cols) "http_headers") "res_id = ?"))
    as [s Hs]; [done|].
  rewrite (bind_ok _ _ _ s (mk_World c t []))
    by (apply wrap_ok; unfold lift; by rewrite Hs).
  destruct (resolve_header_ok cols Hc) as [hc Ehc].
  erewrite bind_ok; cycle 1.
  { apply wrap_ok. rewrite PrepareSelect_quiet, compile_headers. cbn [String.eqb].
    change ("res_id = ?" =? "req_id = ?")%string with false.
    change ("res_id = ?" =? "res_id = ?")%string with true. cbv iota.
    by rewrite Ehc. }
  rewrite (mapM_quiet _ id).
  - by rewrite list_fmap_id.
  - intros r Hin. rewrite Forall_forall in Hr. by rewrite (Hr r Hin).
Qed.

End query_headers.


(** ** Header maps through the store *)

Section header_round_trip.
Import sqlite.

Lemma canonical_values_app K l1 l2 :
  canonical_values K (l1 ++ l2) = canonical_values K l1 ++ canonical_values K l2.
Proof. unfold canonical_values. by rewrite filter_app, fmap_app. Qed.

Lemma canonical_values_key K k vs :
  canonical_values K (pair k <$> vs)
  = if decide (textproto.CanonicalMIMEHeaderKey k = K) then vs else [].
Proof.
  unfold canonical_values. induction vs as [|v vs IH]; [by case_decide|].
  rewrite fmap_cons, filter_cons. cbn [fst].
  destruct (decide (textproto.CanonicalMIMEHeaderKey k = K)) as [E|E].
  - rewrite fmap_cons, IH. done.
  - exact IH.
Qed.

Lemma canonical_values_absent K visit :
  (∀ kv, kv ∈ visit → textproto.CanonicalMIMEHeaderKey kv.1 ≠ K ∨ kv.2 = []) →
  canonical_values K (pairs visit) = [].
Proof.
  induction visit as [|[k vs] visit IH]; intros H; [done|].
  rewrite pairs_cons, canonical_values_app, canonical_values_key, IH.
  - destruct (H (k, vs)) as [?|?]; [by left|..]; simpl in *.
    + by rewrite decide_False.
    + subst. by case_decide.
  - intros kv Hkv. apply H. by right.
Qed.

(** With canonical keys, each key holds after the round trip the values
    it held before, in their order. *)
Lemma canonical_values_lookup (h : Header) visit K :
  range_of h visit → canonical_keys (Some h) →
  canonical_values K (pairs visit) = values h K.
Proof.
  intros Hr Hc.
  assert (NoDup visit.*1) as Hnd.
  { unfold range_of in Hr. rewrite Hr. apply NoDup_fst_map_to_list. }
  assert (∀ k vs, (k, vs) ∈ visit ↔ h !! k = Some vs) as Hin.
  { intros k vs. unfold range_of in Hr. rewrite Hr. apply elem_of_map_to_list. }
  assert (∀ k vs, (k, vs) ∈ visit → vs ≠ [] → textproto.CanonicalMIMEHeaderKey k = k) as Hk.
  { intros k vs Hkv Hne. apply Hc. simpl. unfold values.
    apply Hin in Hkv. by rewrite Hkv. }
  unfold values. destruct (h !! K) as [vs|] eqn:E; simpl.
  - apply Hin in E. clear Hin Hr Hc.
    induction visit as [|[k vs'] visit IH]; [by apply elem_of_nil in E|].
    rewrite pairs_cons, canonical_values_app, canonical_values_key.
    apply NoDup_cons in Hnd as [Hk' Hnd].
    apply elem_of_cons in E as [E|E].
    + inversion E; subst k vs'. clear E.
      rewrite canonical_values_absent.
      * rewrite app_nil_r. case_decide as Ec; [done|].
        destruct vs as [|v vs]; [done|]. exfalso. apply Ec.
        apply (Hk K (v :: vs)); [by left|done].
      * intros [k' vs'] Hkv. simpl.
        destruct vs' as [|v' vs']; [by right|]. left.
        rewrite (Hk k' (v' :: vs')); [|by right|done].
        intros ->. apply Hk'. apply list_elem_of_fmap. by exists (K, v' :: vs').
    + rewrite IH; [|done|intros; eapply Hk; [by right|done]|done].
      case_decide as Ec; [|done].
      destruct vs' as [|v' vs']; [done|]. exfalso.
      rewrite (Hk k (v' :: vs')) in Ec; [|by left|done]. subst k.
      apply Hk'. apply list_elem_of_fmap. by exists (K, vs).
  - apply canonical_values_absent. intros [k vs] Hkv. simpl.
    destruct vs as [|v vs]; [by right|]. left.
    rewrite (Hk k (v :: vs)); [|done..].
    intros ->. apply Hin in Hkv. congruence.
Qed.

Lemma filter_fmap_pairs (P : string * string → Prop) `{∀ x, Decision (P x)}
  (rows : list headers_row) :
  filter P ((λ r, (hd_key r, hd_value r)) <$> rows)
  = (λ r, (hd_key r, hd_value r)) <$> filter (λ r, P (hd_key r, hd_value r)) rows.
Proof.
  induction rows as [|r rows IH]; [done|].
  rewrite fmap_cons, !filter_cons, IH. by case_decide.
Qed.

(** What a header fetch of both columns answers for an owner whose rows
    were all written by one [add_headers]. *)
Lemma fetched_add_headers o id kvs d K :
  owner_rows o id (http_headers d) = [] →
  values (fetched "key" "value" o id (add_headers o id kvs d)) K = canonical_values K kvs.
Proof.
  intros Hfresh. unfold fetched.
  destruct (add_headers_rows o id kvs d) as (rows & -> & Hkv & Hown & _ & _).
  rewrite owner_rows_app, Hfresh, Hown. simpl.
  rewrite values_collect, values_empty. simpl.
  unfold canonical_values. rewrite <- Hkv, filter_fmap_pairs, <- list_fmap_compose.
  done.
Qed.

Lemma fetched_other o id o' id' kvs d :
  (o', id') ≠ (o, id) →
  fetched "key" "value" o' id' (add_headers o id kvs d) = fetched "key" "value" o' id' d.
Proof.
  intros Hne. unfold fetched.
  destruct (add_headers_rows o id kvs d) as (rows & -> & _ & _ & Hother & _).
  by rewrite owner_rows_app, (Hother _ _ Hne), app_nil_r.
Qed.

End header_round_trip.


(** ** A request through the store and back *)

Section round_trip.
Import sqlite.

(** The two cases of the read of a timestamp. *)
Lemma read_time_cases t :
  (sqlite3.year_0000 ≤ t < sqlite3.year_10000 → sqlite3.read_time t = t)
  ∧ (¬ (sqlite3.year_0000 ≤ t < sqlite3.year_10000) → sqlite3.read_time t = 0).
Proof.
  unfold sqlite3.read_time, sqlite3.parses. split.
  - intros [H1 H2]. apply Z.leb_le in H1. apply Z.ltb_lt in H2. by rewrite H1, H2.
  - intros Hn. destruct (Z.leb_spec sqlite3.year_0000 t) as [H1|H1]; [|done].
    destruct (Z.ltb_spec t sqlite3.year_10000) as [H2|H2]; [|done].
    exfalso. apply Hn. by split.
Qed.

Lemma full_projection_query :
  parseHTTPRequestLogsQuery full_projection
  = mk_query
      [ "req.id AS req_id"; "res.id AS res_id"; "req.proto AS req_proto"; "req.url";
        "req.method"; "req.body AS req_body"; "req.timestamp AS req_timestamp";
        "res.req_id AS res_req_id"; "res.proto AS res_proto"; "res.status_code";
        "res.status_reason"; "res.body AS res_body"; "res.timestamp AS res_timestamp";
        "res.id AS res_id" ]
      ["key"; "value"] ["key"; "value"] true.
Proof. vm_compute. reflexivity. Qed.

(** [AddRequestLog] in a world without faults. *)
Lemma AddRequestLog_quiet visit req body ts c :
  AddRequestLog visit req body ts (quiet c)
  = (Ok (reqlog.Request.mk (next_rowid (rq_id <$> http_requests c)) req body ts None),
     quiet (add_headers by_req_id (next_rowid (rq_id <$> http_requests c))
              (pairs visit) (add_request req body ts c))).
Proof.
  pose proof (AddRequestLog_spec visit req body ts c []) as H. unfold quiet.
  destruct (AddRequestLog _ _ _ _ _) as [[r|e] [c' t' fs']]; cbn in H.
  - destruct H as (-> & -> & -> & Hq). by rewrite Hq.
  - by destruct H as (_ & _ & ?).
Qed.

Lemma AddResponseLog_quiet visit reqID res body ts c :
  reqID ∈ rq_id <$> http_requests c →
  AddResponseLog visit reqID res body ts (quiet c)
  = (Ok (reqlog.Response.mk (next_rowid (rs_id <$> http_responses c)) reqID res body ts),
     quiet (add_headers by_res_id (next_rowid (rs_id <$> http_responses c))
              (pairs visit) (add_response reqID res body ts c))).
Proof.
  intros Hfk.
  pose proof (AddResponseLog_spec visit reqID res body ts c []) as H. unfold quiet.
  destruct (AddResponseLog _ _ _ _ _ _) as [[r|e] [c' t' fs']]; cbn in H.
  - destruct H as (_ & -> & -> & -> & Hq). by rewrite Hq.
  - by destruct H as (_ & _ & [?|?]).
Qed.

(** The rows the base query by id joins for a request that was just
    added to a consistent store. *)
Lemma joined_fresh visit req body ts c :
  consistent c →
  let id := next_rowid (rq_id <$> http_requests c) in
  let c' := add_headers by_req_id id (pairs visit) (add_request req body ts c) in
  filter (λ q, rq_id q = id) (http_requests c') ≫= left_join (http_responses c')
  = [(mk_requests_row id (http.Request.Proto req) (http.Request.URL req)
        (http.Request.Method req) body ts, None)].
Proof.
  intros Hc id c'. subst c'.
  destruct (add_headers_tables by_req_id id (pairs visit) (add_request req body ts c))
    as [-> ->].
  destruct (fresh_request_rows c Hc) as (F1 & F2 & _). fold id in F1, F2.
  unfold add_request. cbn [http_requests http_responses]. fold id.
  rewrite filter_app, F1. rewrite filter_cons_True by done. rewrite filter_nil.
  cbn [app]. rewrite bind_cons. cbn [mbind list_bind]. rewrite app_nil_r.
  apply left_join_none. exact F2.
Qed.

(** What [FindRequestLogByID] under the full projection answers right
    after [AddRequestLog]. *)
Lemma find_after_add visit req body ts c :
  consistent c →
  let id := next_rowid (rq_id <$> http_requests c) in
  let c' := add_headers by_req_id id (pairs visit) (add_request req body ts c) in
  FindRequestLogByID full_projection id (quiet c')
  = (Ok (reqlog.Request.mk id
           (http.Request.mk (http.Request.Method req) (http.Request.URL req)
              (http.Request.Proto req) (Some (fetched "key" "value" by_req_id id c')))
           body (sqlite3.read_time ts) None),
     quiet c').
Proof.
  intros Hc id c'. unfold quiet.
  destruct (FindRequestLogByID_quiet full_projection id c' None) as (rc & E & _ & ->).
  { by rewrite full_projection_query. }
  rewrite full_projection_query in E. cbv -[sqlite3.read_time] in E. injection E as <-.
  subst id c'. rewrite (joined_fresh visit req body ts c Hc).
  set (id := next_rowid _). set (c' := add_headers _ _ _ _).
  change (dto.StructScan _)
    with (Ok (dto.httpRequest.mk id (http.Request.Proto req) (http.Request.URL req)
                (http.Request.Method req) body (sqlite3.read_time ts)
                dto.httpResponse.zero)).
  cbv beta iota. rewrite full_projection_query.
  unfold queryHeaders. cbn [requestHeaderCols responseHeaderCols length Nat.ltb Nat.leb].
  erewrite bind_ok; cycle 1.
  { apply wrap_ok. erewrite bind_ok; cycle 1.
    - apply request_headers_quiet; [by left|by right].
    - apply response_headers_skipped; [done| |].
      + intros x [->|[->|?%elem_of_nil]%elem_of_cons]%elem_of_cons; [by left|by right|done].
      + repeat constructor. }
  reflexivity.
Qed.

End round_trip.


(** ** A request and its response through the store and back *)

Section response_round_trip.
Import sqlite.

(** The second half of [queryHeaders], for a selection of two header
    columns. *)
Lemma response_headers_quiet c1 c2 rs c t :
  header_column c1 → header_column c2 →
  (let b := sq.Where (sq.From (sq.Select [c1; c2]) "http_headers") "res_id = ?" in
   wrap "could not parse response headers query: " (lift (sq.ToSql b)) ;;
   resHeadersStmt <- wrap "could not prepare statement: " (PrepareSelect b) ;;
   mapM (λ r,
           match reqlog.Request.Response r with
           | None => ret r
           | Some s =>
               headers <- wrap "could not query response headers: "
                            (findHeaders resHeadersStmt (reqlog.Response.ID s)) ;;
               ret (set_response_header headers r s)
           end) rs) (mk_World c t [])
  = (Ok ((λ r, match reqlog.Request.Response r with
               | None => r
               | Some s =>
                   set_response_header (fetched c1 c2 by_res_id (reqlog.Response.ID s) c) r s
               end) <$> rs),
     mk_World c t []).
Proof.
  intros H1 H2. cbv zeta.
  destruct (ToSql_ok (sq.Where (sq.From (sq.Select [c1; c2]) "http_headers") "res_id = ?"))
    as [s Hs]; [done|].
  rewrite (bind_ok _ _ _ s (mk_World c t []))
    by (apply wrap_ok; unfold lift; by rewrite Hs).
  erewrite bind_ok; cycle 1.
  { apply wrap_ok. rewrite PrepareSelect_quiet.
    by rewrite (compile_two_headers c1 c2 by_res_id H1 H2). }
  apply mapM_quiet. intros r _.
  destruct (reqlog.Request.Response r) as [s'|]; [|done].
  erewrite bind_ok; [reflexivity|].
  apply wrap_ok. apply findHeaders_quiet.
Qed.

(** [FindRequestLogByID] under the full projection, in a world without
    faults, from the first row the base query joins. *)
Lemma find_full id d q o rest :
  filter (λ q, rq_id q = id) (http_requests d) ≫= left_join (http_responses d)
  = (q, o) :: rest →
  FindRequestLogByID full_projection id (quiet d) = (Ok (full_record d q o), quiet d).
Proof.
  intros Hrows. unfold quiet.
  destruct (FindRequestLogByID_quiet full_projection id d None) as (rc & E & _ & ->).
  { by rewrite full_projection_query. }
  rewrite full_projection_query in E. cbv -[sqlite3.read_time] in E. injection E as <-.
  rewrite Hrows.
  assert (dto.StructScan
            (eval_row
               [("req_id", λ q _, VInt (rq_id q));
                ("res_id", λ _ s, opt_value (VInt ∘ rs_id) s);
                ("req_proto", λ q _, VText (rq_proto q));
                ("url", λ q _, VText (rq_url q));
                ("method", λ q _, VText (rq_method q));
                ("req_body", λ q _, VBlob (rq_body q));
                ("req_timestamp", λ q _, VTime (sqlite3.read_time (rq_timestamp q)));
                ("res_req_id", λ _ s, opt_value (VInt ∘ rs_req_id) s);
                ("res_proto", λ _ s, opt_value (VText ∘ rs_proto) s);
                ("status_code", λ _ s, opt_value (VInt ∘ rs_status_code) s);
                ("status_reason", λ _ s, opt_value (VText ∘ rs_status_reason) s);
                ("res_body", λ _ s, opt_value (VBlob ∘ rs_body) s);
                ("res_timestamp",
                 λ _ s, opt_value (VTime ∘ sqlite3.read_time ∘ rs_timestamp) s);
                ("res_id", λ _ s, opt_value (VInt ∘ rs_id) s)] (q, o))
          = Ok (dto.httpRequest.mk (rq_id q) (rq_proto q) (rq_url q) (rq_method q)
                  (rq_body q) (sqlite3.read_time (rq_timestamp q))
                  (match o with
                   | Some s =>
                       dto.httpResponse.mk (Some (rs_id s)) (Some (rs_req_id s))
                         (Some (rs_proto s)) (Some (rs_status_code s))
                         (Some (rs_status_reason s)) (rs_body s)
                         (Some (sqlite3.read_time (rs_timestamp s)))
                   | None => dto.httpResponse.zero
                   end))) as Hscan.
  { by destruct o. }
  match goal with
  | |- context [dto.StructScan ?r] =>
      match type of Hscan with dto.StructScan ?r' = _ => change r with r' end
  end.
  rewrite Hscan. rewrite full_projection_query.
  unfold queryHeaders. cbn [requestHeaderCols responseHeaderCols length Nat.ltb Nat.leb].
  erewrite bind_ok; cycle 1.
  { apply wrap_ok. erewrite bind_ok; cycle 1.
    - apply request_headers_quiet; [by left|by right].
    - apply response_headers_quiet; [by left|by right]. }
  unfold full_record. by destruct o.
Qed.

End response_round_trip.


(** ** What later writes leave alone *)

Section later_writes.
Import sqlite.

Lemma preserved_refl c : consistent c → preserved c c.
Proof. intros Hc. split; [done|]. split; [|done]. exists []. by rewrite app_nil_r. Qed.

Lemma preserved_trans c1 c2 c3 : preserved c1 c2 → preserved c2 c3 → preserved c1 c3.
Proof.
  intros (_ & [l1 E1] & H1) (Hc & [l2 E2] & H2). split; [done|]. split.
  - exists (l1 ++ l2). by rewrite E2, E1, app_assoc.
  - intros i Hi. rewrite H2, H1; [done..|].
    rewrite E1, fmap_app. apply elem_of_app. by left.
Qed.

Lemma preserved_request visit req body ts c fs :
  consistent c →
  preserved c (committed (AddRequestLog visit req body ts (mk_World c None fs)).2).
Proof.
  intros Hc. pose proof (AddRequestLog_spec visit req body ts c fs) as H.
  pose proof (AddRequestLog_consistent visit req body ts c fs Hc) as Hc'.
  destruct (AddRequestLog _ _ _ _ _) as [[r|e] w']; cbn [snd] in *.
  - destruct H as (_ & E & _). split; [done|]. rewrite E.
    destruct (add_headers_tables by_req_id (next_rowid (rq_id <$> http_requests c))
                (pairs visit) (add_request req body ts c)) as [-> _].
    split; [by eexists|].
    intros i Hi. rewrite owner_rows_add_headers_other; [done|].
    intros [= ->]. apply next_rowid_fresh in Hi. lia.
  - destruct H as (-> & _). by apply preserved_refl.
Qed.

Lemma preserved_response visit reqID res body ts c fs :
  consistent c →
  preserved c (committed (AddResponseLog visit reqID res body ts (mk_World c None fs)).2).
Proof.
  intros Hc. pose proof (AddResponseLog_spec visit reqID res body ts c fs) as H.
  pose proof (AddResponseLog_consistent visit reqID res body ts c fs Hc) as Hc'.
  destruct (AddResponseLog _ _ _ _ _ _) as [[r|e] w']; cbn [snd] in *.
  - destruct H as (_ & _ & E & _). split; [done|]. rewrite E.
    destruct (add_headers_tables by_res_id (next_rowid (rs_id <$> http_responses c))
                (pairs visit) (add_response reqID res body ts c)) as [-> _].
    split; [exists []; by rewrite app_nil_r|].
    intros i Hi. by rewrite owner_rows_add_headers_other.
  - destruct H as (-> & _). by apply preserved_refl.
Qed.

Lemma later_preserved c c' : later c c' → consistent c → preserved c c'.
Proof.
  induction 1 as [c|c c' visit req body ts fs _ IH|c c' visit reqID res body ts fs _ IH];
    intros Hc.
  - by apply preserved_refl.
  - eapply preserved_trans; [by apply IH|]. apply preserved_request. by apply IH.
  - eapply preserved_trans; [by apply IH|]. apply preserved_response. by apply IH.
Qed.

Lemma filter_primary_key (l : list requests_row) q :
  NoDup (rq_id <$> l) → q ∈ l → filter (λ x, rq_id x = rq_id q) l = [q].
Proof.
  induction l as [|x l IH]; intros Hnd Hq; [by apply elem_of_nil in Hq|].
  rewrite fmap_cons in Hnd. apply NoDup_cons in Hnd as [Hx Hnd].
  apply elem_of_cons in Hq as [->|Hq].
  - rewrite filter_cons_True by done. f_equal. apply filter_none.
    intros y Hy E. apply Hx. rewrite <- E. by apply list_elem_of_fmap_2.
  - rewrite filter_cons_False; [by apply IH|].
    intros E. apply Hx. rewrite E. by apply list_elem_of_fmap_2.
Qed.

(** The base query by id over a consistent store that holds the row. *)
Lemma joined_stored c q :
  consistent c → q ∈ http_requests c →
  ∃ o rest,
    filter (λ x, rq_id x = rq_id q) (http_requests c) ≫= left_join (http_responses c)
    = (q, o) :: rest.
Proof.
  intros Hc Hq. rewrite (filter_primary_key _ q (requests_pk c Hc) Hq).
  rewrite bind_cons. cbn [mbind list_bind]. rewrite app_nil_r.
  destruct (left_join (http_responses c) q) as [|[q' o] rest] eqn:E.
  - by apply left_join_nonempty in E.
  - assert ((q', o).1 = q) as Hq' by (apply (left_join_request (http_responses c)); rewrite E; left).
    simpl in Hq'. subst q'. by exists o, rest.
Qed.

End later_writes.


(** * Properties of the specification *)

Section header_values.
Import sqlite.

Lemma header_values_after_add visit req body ts c k :
  consistent c →
  range_of_header (http.Request.Header req) visit →
  canonical_keys (http.Request.Header req) →
  let id := next_rowid (rq_id <$> http_requests c) in
  values (fetched "key" "value" by_req_id id
            (add_headers by_req_id id (pairs visit) (add_request req body ts c))) k
  = header_values (http.Request.Header req) k.
Proof.
  intros Hc Hr Hk id.
  rewrite fetched_add_headers by apply (fresh_request_rows c Hc).
  destruct (http.Request.Header req) as [h|]; simpl in *.
  - by apply canonical_values_lookup.
  - by subst visit.
Qed.

End header_values.




(** The timestamp does not always come back either: the last nanosecond
    of year 9999 is read as it was written, the first one of year 10000
    is read as the zero time. *)
Example round_trip_loses_late_timestamp :
  let req := http.Request.mk "GET" "http://x.test/a" "HTTP/1.1" None in
  let read (timestamp : Z) :=
    let added := sqlite.AddRequestLog [] req [] timestamp (quiet empty_DB) in
    match (sqlite.FindRequestLogByID full_projection 1 added.2).1 with
    | Ok found => Some (reqlog.Request.Timestamp found)
    | Err _ => None
    end in
  read (sqlite3.year_10000 - 1) = Some (sqlite3.year_10000 - 1)
  ∧ read sqlite3.year_10000 = Some 0
  ∧ read sqlite3.year_0000 = Some sqlite3.year_0000
  ∧ read (sqlite3.year_0000 - 1) = Some 0.
Proof. vm_compute. repeat split. Qed.

(** C2.  [AddRequestLog] is atomic under every fault schedule.  When any
    step fails the error is returned, no transaction stays open and the
    store is what it was; when it succeeds the record carries the id the
    store assigned, and the store holds the request row and one header row
    for every (key, value) pair.  No other store can result. *)
Theorem AddRequestLog_atomic
  (visit : list (string * list string)) (req : http.Request.t)
  (body : list Byte.byte) (timestamp : Z) (c : DB) (fs : list (option string)) :
  let out := sqlite.AddRequestLog visit req body timestamp (mk_World c None fs) in
  tx out.2 = None
  ∧ match out.1 with
    | Err _ => committed out.2 = c
    | Ok reqLog =>
        let id := next_rowid (rq_id <$> http_requests c) in
        reqlog.Request.ID reqLog = id
        ∧ http_requests (committed out.2)
          = http_requests c
            ++ [mk_requests_row id (http.Request.Proto req) (http.Request.URL req)
                  (http.Request.Method req) body timestamp]
        ∧ http_responses (committed out.2) = http_responses c
        ∧ ∃ rows, http_headers (committed out.2) = http_headers c ++ rows
                  ∧ ((λ r, (hd_key r, hd_value r)) <$> rows) = pairs visit
                  ∧ Forall (λ r, hd_req_id r = Some id ∧ hd_res_id r = None) rows
    end.
Proof.
  intros out. subst out.
  pose proof (AddRequestLog_spec visit req body timestamp c fs) as H.
  destruct (sqlite.AddRequestLog _ _ _ _ _) as [[r|e] w']; cbn [fst snd].
  - destruct H as (-> & Hc & Ht & _). split; [done|]. cbn [reqlog.Request.ID].
    split; [done|]. rewrite Hc.
    destruct (add_headers_tables by_req_id (next_rowid (rq_id <$> http_requests c))
                (pairs visit) (add_request req body timestamp c)) as [-> ->].
    split; [done|]. split; [done|].
    destruct (add_headers_rows by_req_id (next_rowid (rq_id <$> http_requests c))
                (pairs visit) (add_request req body timestamp c))
      as (rows & -> & Hkv & _ & _ & Hown).
    exists rows. by repeat split.
  - by destruct H as (? & ? & _).
Qed.

Section status_reason.

Lemma substring_all s : substring 0 (String.length s) s = s.
Proof. induction s as [|a s IH]; simpl; [done|]. by rewrite IH. Qed.

Lemma substring_drop n s :
  list_ascii_of_string (substring n (String.length s - n) s)
  = drop n (list_ascii_of_string s).
Proof.
  revert n. induction s as [|a s IH]; intros n.
  - by destruct n.
  - destruct n as [|n].
    + rewrite Nat.sub_0_r, substring_all. done.
    + simpl. apply IH.
Qed.

Lemma length_list_ascii s : length (list_ascii_of_string s) = String.length s.
Proof. induction s as [|a s IH]; simpl; [done|]. by rewrite IH. Qed.

(** The reason is the status line without its first four bytes. *)
Lemma statusReason_drop status :
  list_ascii_of_string (sqlite.statusReason status) = drop 4 (list_ascii_of_string status).
Proof.
  unfold sqlite.statusReason. destruct (Nat.ltb_spec 4 (String.length status)) as [H|H].
  - apply substring_drop.
  - rewrite drop_ge; [done|]. rewrite length_list_ascii. lia.
Qed.

Lemma statusReason_short status :
  (String.length status ≤ 4)%nat → sqlite.statusReason status = "".
Proof.
  intros H. unfold sqlite.statusReason.
  destruct (Nat.ltb_spec 4 (String.length status)); [lia|done].
Qed.

End status_reason.

(** C6.  [AddResponseLog] for a request that is in the store succeeds
    when no driver call fails.  Whenever it succeeds, under any fault
    schedule, it adds one response row, and the row holds as
    [status_reason] the bytes of the status line from index 4 onward,
    which is empty when the line has four bytes or fewer; when it fails no
    row is added. *)
Theorem AddResponseLog_status_reason
  (visit : list (string * list string)) (reqID : Z) (res : http.Response.t)
  (body : list Byte.byte) (timestamp : Z) (c : DB) :
  (reqID ∈ rq_id <$> http_requests c →
   ∃ resLog w,
     sqlite.AddResponseLog visit reqID res body timestamp (quiet c) = (Ok resLog, w))
  ∧ ∀ fs,
      let out := sqlite.AddResponseLog visit reqID res body timestamp (mk_World c None fs) in
      match out.1 with
      | Ok resLog =>
          ∃ row, http_responses (committed out.2) = http_responses c ++ [row]
                 ∧ rs_id row = reqlog.Response.ID resLog
                 ∧ list_ascii_of_string (rs_status_reason row)
                   = drop 4 (list_ascii_of_string (http.Response.Status res))
                 ∧ ((String.length (http.Response.Status res) ≤ 4)%nat →
                    rs_status_reason row = "")
      | Err _ => http_responses (committed out.2) = http_responses c
      end.
Proof.
  split; [intros Hfk; do 2 eexists; by apply AddResponseLog_quiet|].
  intros fs out. subst out.
  pose proof (AddResponseLog_spec visit reqID res body timestamp c fs) as H.
  destruct (sqlite.AddResponseLog _ _ _ _ _ _) as [[r|e] w']; cbn [fst snd].
  - destruct H as (_ & -> & -> & _).
    destruct (add_headers_tables by_res_id (next_rowid (rs_id <$> http_responses c))
                (pairs visit) (add_response reqID res body timestamp c)) as [_ ->].
    eexists. split; [reflexivity|]. cbn.
    split; [done|]. split; [apply statusReason_drop|apply statusReason_short].
  - by destruct H as (-> & _).
Qed.

(** The status line [200 OK] of the spec, stored for a request that is in
    the store. *)
Lemma AddResponseLog_status_reason_witness :
  let c := mk_DB [mk_requests_row 1 "HTTP/1.1" "http://x.test/a" "GET" [] 7] [] [] in
  let res := http.Response.mk "200 OK" 200 "HTTP/1.1" None in
  1 ∈ rq_id <$> http_requests c
  ∧ ∃ resLog w row,
      sqlite.AddResponseLog [] 1 res [] 8 (quiet c) = (Ok resLog, w)
      ∧ http_responses (committed w) = http_responses c ++ [row]
      ∧ rs_id row = reqlog.Response.ID resLog
      ∧ rs_status_reason row = "OK".
Proof.
  intros c res.
  assert (1 ∈ rq_id <$> http_requests c) as Hfk by (apply list_elem_of_singleton; reflexivity).
  split; [exact Hfk|].
  destruct (AddResponseLog_status_reason [] 1 res [] 8 c) as [Hok Hall].
  destruct (Hok Hfk) as (resLog & w & E).
  specialize (Hall []). cbv zeta in Hall. unfold quiet in E. rewrite E in Hall.
  cbn [fst snd] in Hall. destruct Hall as (row & Hrows & Hid & Hdrop & _).
  exists resLog, w, row. split; [exact E|]. split; [exact Hrows|]. split; [exact Hid|].
  rewrite <- (string_of_list_ascii_of_string (rs_status_reason row)), Hdrop. reflexivity.
Defined.

(** The status line of the spec's example. *)
Example statusReason_200_OK :
  sqlite.statusReason "200 OK" = "OK" ∧ sqlite.statusReason "404 Not Found" = "Not Found"
  ∧ sqlite.statusReason "200" = "" ∧ sqlite.statusReason "200 " = "".
Proof. repeat split. Qed.

(** C10.  At the API layer [parseRequestLog] succeeds for every record
    whose method is recognized, and then a body of length zero is a null
    [Body] field, never an empty string, and a body of at least one byte
    is its text.  This holds for the request and for its response. *)
Theorem parseRequestLog_empty_body_is_null
  (visit visit_res : list (string * list string)) (req : reqlog.Request.t) :
  http.Request.Method (reqlog.Request.Request req) ∈ api.recognized →
  ∃ log,
    api.parseRequestLog visit visit_res req = Ok log
    ∧ (api.HTTPRequestLog.Body log = None ↔ reqlog.Request.Body req = [])
    ∧ (reqlog.Request.Body req ≠ [] →
       api.HTTPRequestLog.Body log = Some (string_of_list_byte (reqlog.Request.Body req)))
    ∧ api.HTTPRequestLog.Body log ≠ Some ""
    ∧ match reqlog.Request.Response req with
      | Some s =>
          ∃ l, api.HTTPRequestLog.Response log = Some l
               ∧ (api.HTTPResponseLog.Body l = None ↔ reqlog.Response.Body s = [])
               ∧ (reqlog.Response.Body s ≠ [] →
                  api.HTTPResponseLog.Body l
                  = Some (string_of_list_byte (reqlog.Response.Body s)))
               ∧ api.HTTPResponseLog.Body l ≠ Some ""
      | None => api.HTTPRequestLog.Response log = None
      end.
Proof.
  intros Hm. unfold api.parseRequestLog, api.IsValid.
  rewrite bool_decide_eq_true_2 by done. cbn [negb].
  eexists. split; [reflexivity|].
  cbn [api.HTTPRequestLog.Body api.HTTPRequestLog.Response].
  assert (∀ b : list Byte.byte,
            (api.body_field b = None ↔ b = [])
            ∧ (b ≠ [] → api.body_field b = Some (string_of_list_byte b))
            ∧ api.body_field b ≠ Some "") as Hb.
  { intros [|x b]; unfold api.body_field; simpl; repeat split; done. }
  split; [apply Hb|]. split; [apply Hb|]. split; [apply Hb|].
  destruct (reqlog.Request.Response req) as [s|]; [|done].
  eexists. split; [reflexivity|]. cbn [api.HTTPResponseLog.Body]. apply Hb.
Qed.

(** A request with the body [hi] whose response has an empty body. *)
Lemma parseRequestLog_empty_body_is_null_witness :
  let res := reqlog.Response.mk 1 1 (http.Response.mk "204 No Content" 204 "HTTP/1.1" None)
               [] 8 in
  let req := reqlog.Request.mk 1 (http.Request.mk "POST" "http://x.test/a" "HTTP/1.1" None)
               [Byte.x68; Byte.x69] 7 (Some res) in
  "POST" ∈ api.recognized
  ∧ ∃ log l,
      api.parseRequestLog [] [] req = Ok log
      ∧ api.HTTPRequestLog.Body log = Some "hi"
      ∧ api.HTTPRequestLog.Response log = Some l
      ∧ api.HTTPResponseLog.Body l = None.
Proof.
  intros res req.
  assert ("POST" ∈ api.recognized) as Hm by (repeat constructor).
  split; [exact Hm|].
  destruct (parseRequestLog_empty_body_is_null [] [] req Hm)
    as (log & E & _ & Hsome & _ & l & El & Hnone & _).
  exists log, l. split; [exact E|]. split; [exact (Hsome ltac:(discriminate))|].
  split; [exact El|]. apply Hnone. reflexivity.
Defined.

(** The other way round: an empty request body and a response with the
    body [hi]. *)
Example parseRequestLog_response_body :
  let res := reqlog.Response.mk 1 1 (http.Response.mk "200 OK" 200 "HTTP/1.1" None)
               [Byte.x68; Byte.x69] 8 in
  let req := reqlog.Request.mk 1 (http.Request.mk "GET" "http://x.test/a" "HTTP/1.1" None)
               [] 7 (Some res) in
  match api.parseRequestLog [] [] req with
  | Ok log =>
      api.HTTPRequestLog.Body log = None
      ∧ (api.HTTPResponseLog.Body <$> api.HTTPRequestLog.Response log) = Some (Some "hi")
  | Err _ => False
  end.
Proof. vm_compute. repeat split. Qed.

(** C9.  Ingestion does not look at the method: in a world without faults
    [AddRequestLog] succeeds whatever the method string is, and stores it
    as it is.  The failure belongs to the API boundary: when the method is
    outside the recognized set, projecting the record read back from the
    store with [parseRequestLog] fails with the invalid-method error, and
    when it is inside, the projection succeeds. *)
Theorem method_validated_at_api_only
  (visit visit' visit_res : list (string * list string)) (req : http.Request.t)
  (body : list Byte.byte) (timestamp : Z) (c : DB) :
  consistent c →
  ∃ reqLog found w1 w2,
    sqlite.AddRequestLog visit req body timestamp (quiet c) = (Ok reqLog, w1)
    ∧ sqlite.FindRequestLogByID full_projection (reqlog.Request.ID reqLog) w1 = (Ok found, w2)
    ∧ http.Request.Method (reqlog.Request.Request found) = http.Request.Method req
    ∧ (http.Request.Method req ∉ api.recognized →
       api.parseRequestLog visit' visit_res found
       = Err (errorString ("request has invalid method: " +:+ http.Request.Method req)))
    ∧ (http.Request.Method req ∈ api.recognized →
       ∃ log, api.parseRequestLog visit' visit_res found = Ok log
              ∧ api.HTTPRequestLog.Method log = http.Request.Method req).
Proof.
  intros Hc. do 4 eexists. split; [apply AddRequestLog_quiet|].
  split; [apply (find_after_add visit req body timestamp c Hc)|].
  cbn. split; [done|]. unfold api.parseRequestLog, api.IsValid. cbn. split.
  - intros H. by rewrite bool_decide_eq_false_2.
  - intros H. rewrite bool_decide_eq_true_2 by done. cbn. by eexists.
Qed.

Lemma method_validated_at_api_only_witness :
  let req := http.Request.mk "BREW" "http://x.test/pot" "HTTP/1.1" None in
  consistent empty_DB
  ∧ ∃ reqLog found w1 w2,
      sqlite.AddRequestLog [] req [] 7 (quiet empty_DB) = (Ok reqLog, w1)
      ∧ sqlite.FindRequestLogByID full_projection (reqlog.Request.ID reqLog) w1 = (Ok found, w2)
      ∧ http.Request.Method (reqlog.Request.Request found) = "BREW"
      ∧ ("BREW" ∉ api.recognized →
         api.parseRequestLog [] [] found
         = Err (errorString ("request has invalid method: " +:+ "BREW")))
      ∧ ("BREW" ∈ api.recognized →
         ∃ log, api.parseRequestLog [] [] found = Ok log
                ∧ api.HTTPRequestLog.Method log = "BREW").
Proof.
  intros req. split; [apply consistent_empty|].
  apply (method_validated_at_api_only [] [] [] req [] 7 empty_DB consistent_empty).
Defined.

(** C4 at the failing input: for the projection that selects only [url]
    the planner plans no join and still selects [res.id], so the base
    query names a table that is not in it and the store refuses it. *)
Theorem planner_selects_res_id_without_join :
  let q := sqlite.parseHTTPRequestLogsQuery [Field "url" []] in
  sqlite.joinResponse q = false
  ∧ sqlite.requestCols q = ["req.id AS req_id"; "res.id AS res_id"; "req.url"]
  ∧ sq.ToSql (sq.Where (sq.From (sq.Select (sqlite.requestCols q)) "http_requests req")
                "req.id = ?")
    = Ok "SELECT req.id AS req_id, res.id AS res_id, req.url FROM http_requests req WHERE req.id = ?"
  ∧ (sqlite.FindRequestLogByID [Field "url" []] 1
       (quiet (mk_DB [mk_requests_row 1 "HTTP/1.1" "http://x.test/a" "GET" [] 7] [] []))).1
    = Err (errorString "sqlite: could not scan row: no such column: res.id").
Proof. vm_compute. repeat split. Qed.

(** C8 at the failing input: when the projection selects only the [key]
    of the request headers, the statement has one column, the scan has
    two destinations, and the fetch fails on the first header row. *)
Theorem queryHeaders_fails_on_one_column :
  let fields := [Field "headers" [Field "key" []]; Field "response" []] in
  let q := sqlite.parseHTTPRequestLogsQuery fields in
  let d := mk_DB [mk_requests_row 1 "HTTP/1.1" "http://x.test/a" "GET" [] 7] []
             [mk_headers_row 1 (Some 1) None "H" "1"] in
  sqlite.requestHeaderCols q = ["key"]
  ∧ (sqlite.queryHeaders q
       [reqlog.Request.mk 1 (http.Request.mk "GET" "http://x.test/a" "HTTP/1.1" None) [] 7 None]
       (quiet d)).1
    = Err (errorString
             "could not query request headers: sqlite: could not scan row: sql: expected 1 destination arguments in Scan, not 2")
  ∧ (sqlite.FindRequestLogByID fields 1 (quiet d)).1
    = Err (errorString
             "sqlite: could not query headers: could not query request headers: sqlite: could not scan row: sql: expected 1 destination arguments in Scan, not 2").
Proof. vm_compute. repeat split. Qed.


Section not_found.
Import sqlite.

Lemma resolve_base_error j cols e :
  resolve_base j cols = Err e → ∃ msg, e = errorString msg.
Proof.
  revert e. induction cols as [|c cols IH]; intros e; cbn [resolve_base]; [done|].
  destruct (assoc c base_columns) as [[[name b] get]|]; [|intros [= <-]; by eexists].
  destruct (b && negb j); [intros [= <-]; by eexists|].
  destruct (resolve_base j cols); [done|]. intros [= <-]. by apply IH.
Qed.

Lemma resolve_header_error cols e :
  resolve_header cols = Err e → ∃ msg, e = errorString msg.
Proof.
  revert e. induction cols as [|c cols IH]; intros e; cbn [resolve_header]; [done|].
  destruct (assoc c header_columns); [|intros [= <-]; by eexists].
  destruct (resolve_header cols); [done|]. intros [= <-]. by apply IH.
Qed.

Lemma compile_error b e : compile b = Err e → ∃ msg, e = errorString msg.
Proof.
  unfold compile, unsupported.
  repeat case_match; intros [= <-];
    eauto using resolve_base_error, resolve_header_error.
Qed.

Lemma run_error p args c e : run p args c = Err e → ∃ msg, e = errorString msg.
Proof. unfold run. repeat case_match; intros [= <-]; eauto. Qed.

(** What the query of a request by id can answer, whatever the faults
    and whatever the projection. *)
Lemma QueryxContext_cases b args w :
  match QueryxContext b args w with
  | (Ok rows, w') => ∃ p, compile b = Ok p ∧ run p args (committed w) = Ok rows
  | (Err e, w') => ∃ msg, e = errorString msg
  end.
Proof.
  unfold QueryxContext, bind, step, lift, read.
  destruct w as [c t [|[msg|] fs]]; cbn [faults committed set_faults];
    try (by eexists);
    (destruct (compile b) as [p|e] eqn:E; [|by eapply compile_error]);
    (destruct (run p args c) as [rows|e] eqn:Er; [by exists p|by eapply run_error]).
Qed.

Lemma compile_by_id_plan (j : bool) cols p :
  compile (if j
           then sq.LeftJoin (sq.Where (sq.From (sq.Select cols) "http_requests req")
                               "req.id = ?") "http_responses res ON req.id = res.req_id"
           else sq.Where (sq.From (sq.Select cols) "http_requests req") "req.id = ?")
  = Ok p → ∃ rc, p = plan_requests rc j true false.
Proof.
  destruct j; unfold compile; cbv -[resolve_base];
    destruct (resolve_base _ cols); intros [= <-]; by eexists.
Qed.

Lemma run_by_id_empty rc (j : bool) id c :
  run (plan_requests rc j true false) [VInt id] c = Ok [] → id ∉ rq_id <$> http_requests c.
Proof.
  cbn [run]. intros [= H]. apply fmap_nil_inv in H. destruct j.
  - by apply joined_nil.
  - apply fmap_nil_inv in H. by apply filter_id_nil.
Qed.

(** The not-found error is never a disguise for something else: when
    [FindRequestLogByID] answers it, no request has that id. *)
Lemma FindRequestLogByID_not_found_sound fs id w :
  (FindRequestLogByID fs id w).1 = Err ErrRequestNotFound →
  id ∉ rq_id <$> http_requests (committed w).
Proof.
  unfold FindRequestLogByID.
  set (q := parseHTTPRequestLogsQuery fs).
  set (b := if joinResponse q then _ else _).
  unfold bind at 1. unfold wrap at 1. unfold lift.
  destruct (sq.ToSql b); [|done].
  unfold bind at 1. unfold QueryRowxContext.
  pose proof (QueryxContext_cases b [VInt id] w) as Hq.
  destruct (QueryxContext b [VInt id] w) as [[rows|e] w1]; cbn [dto.Row_StructScan].
  - destruct Hq as (p & Ep & Er). destruct rows as [|first rest].
    + intros _. subst b. apply compile_by_id_plan in Ep as [rc ->].
      by eapply run_by_id_empty.
    + destruct (dto.StructScan first) as [d|e] eqn:Es.
      * unfold bind, wrap, ret. by destruct (queryHeaders _ _ _) as [[?|?] ?].
      * by destruct (StructScan_error _ _ Es) as [msg ->].
  - by destruct Hq as [msg ->].
Qed.


(** The resolver turns the not-found error of the read into a null
    answer without an error. *)
Lemma HTTPRequestLog_resolver_not_found {K} (Parse : string → result K) visit visit_res
  (find : K → M reqlog.Request.t) id k w w' :
  Parse id = Ok k →
  find k w = (Err ErrRequestNotFound, w') →
  api.HTTPRequestLog_resolver Parse visit visit_res find id w = (Ok None, w').
Proof. unfold api.HTTPRequestLog_resolver. by intros -> ->. Qed.

End not_found.

(** Where the store accepts the base query, that is for a projection that
    selects the response, and in a world without faults,
    [FindRequestLogByID] answers the not-found error, and neither another
    error nor a record, exactly when no request has the given id. *)
Lemma FindRequestLogByID_not_found_iff
  (fs : list CollectedField) (id : Z) (c : DB) :
  sqlite.joinResponse (sqlite.parseHTTPRequestLogsQuery fs) = true →
  (sqlite.FindRequestLogByID fs id (quiet c)).1 = Err ErrRequestNotFound
  ↔ id ∉ rq_id <$> http_requests c.
Proof.
  intros Hj. split; [apply (FindRequestLogByID_not_found_sound fs id (quiet c))|].
  intros Hid. unfold quiet.
  destruct (FindRequestLogByID_quiet fs id c None Hj) as (rc & _ & _ & ->).
  apply joined_nil in Hid. by rewrite Hid.
Qed.

Example FindRequestLogByID_not_found_iff_full_projection :
  sqlite.joinResponse (sqlite.parseHTTPRequestLogsQuery full_projection) = true
  ∧ ((sqlite.FindRequestLogByID full_projection 5 (quiet empty_DB)).1 = Err ErrRequestNotFound
     ↔ 5 ∉ rq_id <$> http_requests empty_DB).
Proof.
  assert (sqlite.joinResponse (sqlite.parseHTTPRequestLogsQuery full_projection) = true) as H
    by (vm_compute; reflexivity).
  split; [exact H|].
  exact (FindRequestLogByID_not_found_iff full_projection 5 empty_DB H).
Qed.

(** C5 at the failing input: no request has id 1, the projection selects
    [id] and [url] only, and the answer is a wrapped error of the store,
    not the not-found error: the base query names [res.id] without the
    join, as for C4. *)
Theorem FindRequestLogByID_not_found_lost_without_join :
  let fields := [Field "id" []; Field "url" []] in
  (1 ∉ rq_id <$> http_requests empty_DB)
  ∧ (sqlite.FindRequestLogByID fields 1 (quiet empty_DB)).1
    = Err (errorString "sqlite: could not scan row: no such column: res.id")
  ∧ (sqlite.FindRequestLogByID fields 1 (quiet empty_DB)).1 ≠ Err ErrRequestNotFound.
Proof.
  intros fields. split; [apply not_elem_of_nil|].
  assert ((sqlite.FindRequestLogByID fields 1 (quiet empty_DB)).1
          = Err (errorString "sqlite: could not scan row: no such column: res.id"))
    as H by (vm_compute; reflexivity).
  split; [exact H|]. rewrite H. discriminate.
Qed.


(** ** Stored headers, read back *)

Section stored_headers.
Import sqlite.












End stored_headers.



(** ** All requests, most recent first *)

Section find_all.
Import sqlite.

Lemma StronglySorted_reverse {A} (R R' : relation A) l :
  (∀ x y, R x y → R' y x) → StronglySorted R l → StronglySorted R' (reverse l).
Proof.
  intros HR. induction 1 as [|x l Hl IH Hx]; [apply SSorted_nil|].
  rewrite reverse_cons. apply StronglySorted_app_2.
  - intros y z Hy ->%list_elem_of_singleton. rewrite elem_of_reverse in Hy.
    rewrite Forall_forall in Hx. by apply HR, Hx.
  - exact IH.
  - repeat constructor.
Qed.

(** [ORDER BY req.id DESC] over a table in rowid order reverses it. *)
Lemma merge_sort_desc (reqs : list requests_row) :
  StronglySorted Z.lt (rq_id <$> reqs) →
  rq_id <$> merge_sort id_desc reqs = reverse (rq_id <$> reqs).
Proof.
  intros Hs. apply (StronglySorted_unique (λ a b : Z, b ≤ a)).
  - apply (StronglySorted_fmap _ id_desc); [done|].
    apply (StronglySorted_merge_sort id_desc).
  - eapply StronglySorted_reverse; [|exact Hs]. intros; simpl in *; lia.
  - rewrite reverse_Permutation. apply fmap_Permutation, merge_sort_Permutation.
Qed.

Lemma bind_left_join_nil (l : list requests_row) :
  l ≫= left_join [] = (λ q, (q, None)) <$> l.
Proof. induction l as [|q l IH]; [done|]. rewrite bind_cons, IH. done. Qed.

(** [queryHeaders] when no record has a response and the request header
    selection has no column or two. *)
Lemma queryHeaders_no_response q rs c t :
  (length (requestHeaderCols q) = 0%nat ∨ length (requestHeaderCols q) = 2%nat) →
  (∀ x, x ∈ requestHeaderCols q → header_column x) →
  (∀ x, x ∈ responseHeaderCols q → header_column x) →
  Forall (λ r, reqlog.Request.Response r = None) rs →
  ∃ rs', queryHeaders q rs (mk_World c t []) = (Ok rs', mk_World c t [])
         ∧ reqlog.Request.ID <$> rs' = reqlog.Request.ID <$> rs.
Proof.
  intros Hlen Hq Hs Hnone. unfold queryHeaders.
  assert (∃ rs1,
    (if (0 <? length (requestHeaderCols q))%nat then
       let b := sq.Where (sq.From (sq.Select (requestHeaderCols q)) "http_headers")
                  "req_id = ?" in
       wrap "could not parse request headers query: " (lift (sq.ToSql b)) ;;
       reqHeadersStmt <- wrap "could not prepare statement: " (PrepareSelect b) ;;
       mapM (λ r,
               headers <- wrap "could not query request headers: "
                            (findHeaders reqHeadersStmt (reqlog.Request.ID r)) ;;
               ret (set_request_header headers r)) rs
     else ret rs) (mk_World c t []) = (Ok rs1, mk_World c t [])
    ∧ reqlog.Request.ID <$> rs1 = reqlog.Request.ID <$> rs
    ∧ Forall (λ r, reqlog.Request.Response r = None) rs1) as (rs1 & E1 & Hid & Hnone1).
  { destruct (requestHeaderCols q) as [|c1 [|c2 [|c3 l]]] eqn:Ecols; simpl in Hlen;
      try (destruct Hlen; discriminate).
    - exists rs. by repeat split.
    - eexists. split; [apply request_headers_quiet; apply Hq; [by left|right; by left]|].
      split.
      + rewrite <- list_fmap_compose. done.
      + apply Forall_fmap. eapply Forall_impl; [exact Hnone|]. done. }
  rewrite (bind_ok _ _ _ rs1 (mk_World c t [])) by exact E1.
  destruct (responseHeaderCols q) as [|x l] eqn:Ecols.
  - exists rs1. by split.
  - exists rs1. split; [|done]. cbn [length Nat.ltb Nat.leb].
    apply response_headers_skipped; [done|exact Hs|exact Hnone1].
Qed.


(** [FindRequestLogs] in a world without faults, over a store without
    responses, for a projection that selects the response: one record
    per request row, in descending order of id. *)
Lemma FindRequestLogs_quiet fs c :
  joinResponse (parseHTTPRequestLogsQuery fs) = true →
  (length (requestHeaderCols (parseHTTPRequestLogsQuery fs)) = 0%nat
   ∨ length (requestHeaderCols (parseHTTPRequestLogsQuery fs)) = 2%nat) →
  http_responses c = [] →
  ∃ found, FindRequestLogs fs (quiet c) = (Ok found, quiet c)
           ∧ reqlog.Request.ID <$> found = rq_id <$> merge_sort id_desc (http_requests c).
Proof.
  intros Hj Hlen Hres. unfold quiet.
  destruct (planned_columns fs) as (rc & E & K).
  set (cols := ("req_id", λ (q : requests_row) (_ : option responses_row), VInt (rq_id q)) :: rc)
    in *.
  set (rows := eval_row cols <$> ((λ q, (q, None)) <$> merge_sort id_desc (http_requests c))).
  assert (∀ r, r ∈ rows → ∃ q d, q ∈ merge_sort id_desc (http_requests c)
                                 ∧ r = eval_row cols (q, None)
                                 ∧ dto.StructScan r = Ok d
                                 ∧ dto.httpRequest.ID d = rq_id q
                                 ∧ dto.httpResponse.ID (dto.httpRequest.Response d) = None)
    as Hrows.
  { intros r (j & -> & (q & -> & Hq)%list_elem_of_fmap)%list_elem_of_fmap.
    destruct (StructScan_planned rc q None K) as (d & Ed & Hid & Hnone).
    exists q, d. repeat split; auto. }
  destruct (queryHeaders_no_response (parseHTTPRequestLogsQuery fs) (scanned <$> rows) c None)
    as (found & Eq & Hids).
  { exact Hlen. }
  { apply requestHeaderCols_columns. }
  { apply responseHeaderCols_columns. }
  { apply Forall_fmap, Forall_forall. intros r Hr.
    destruct (Hrows r Hr) as (q & d & _ & _ & Ed & _ & Hnone).
    unfold scanned. simpl. rewrite Ed. unfold dto.toRequestLog. simpl. by rewrite Hnone. }
  exists found. split.
  - unfold FindRequestLogs. rewrite Hj.
    set (b := sq.LeftJoin _ _).
    destruct (ToSql_ok b) as [s Hs]; [apply requestCols_nonempty|].
    rewrite (bind_ok _ _ _ s (mk_World c None []))
      by (apply wrap_ok; unfold lift; by rewrite Hs).
    rewrite (bind_ok _ _ _ rows (mk_World c None [])); cycle 1.
    { apply wrap_ok. subst b. rewrite (QueryxContext_quiet _ _ _ _ _ (compile_ordered _ _ E)).
      cbn [run]. rewrite Hres, bind_left_join_nil. done. }
    rewrite (bind_ok _ _ _ (scanned <$> rows) (mk_World c None [])); cycle 1.
    { apply mapM_quiet. intros r Hr.
      destruct (Hrows r Hr) as (q & d & _ & _ & Ed & _).
      unfold bind, wrap, lift, ret, scanned. by rewrite Ed. }
    rewrite (bind_ok _ _ _ tt (mk_World c None [])) by done.
    by apply wrap_ok.
  - rewrite Hids. subst rows. rewrite <- !list_fmap_compose.
    apply Forall_fmap_ext_1. apply Forall_forall. intros q Hq. unfold compose.
    destruct (StructScan_planned rc q None K) as (d & Ed & Hid & _).
    unfold scanned. fold cols in Ed. by rewrite Ed.
Qed.

Lemma StronglySorted_snoc_fresh (ids : list Z) :
  StronglySorted Z.lt ids → StronglySorted Z.lt (ids ++ [next_rowid ids]).
Proof.
  intros H. apply StronglySorted_app_2; [|done|repeat constructor].
  intros x y Hx ->%list_elem_of_singleton. by apply next_rowid_fresh.
Qed.

(** [AddRequestLog], one call after the other, in a world without
    faults: every call succeeds and takes the next rowid. *)
Lemma AddRequestLogs_quiet ins c :
  ∃ added c',
    AddRequestLogs ins (quiet c) = (Ok added, quiet c')
    ∧ length added = length ins
    ∧ http_responses c' = http_responses c
    ∧ rq_id <$> http_requests c' = (rq_id <$> http_requests c) ++ (reqlog.Request.ID <$> added)
    ∧ (StronglySorted Z.lt (rq_id <$> http_requests c) →
       StronglySorted Z.lt (rq_id <$> http_requests c')).
Proof.
  unfold AddRequestLogs. revert c. induction ins as [|i ins IH]; intros c.
  - exists [], c. rewrite app_nil_r. by repeat split.
  - set (c1 := add_headers by_req_id (next_rowid (rq_id <$> http_requests c))
                 (pairs (in_visit i)) (add_request (in_req i) (in_body i) (in_timestamp i) c)).
    destruct (IH c1) as (added & c' & E & Hl & Hr & Hids & Hs).
    destruct (add_headers_tables by_req_id (next_rowid (rq_id <$> http_requests c))
                (pairs (in_visit i)) (add_request (in_req i) (in_body i) (in_timestamp i) c))
      as [Hq1 Hs1]. fold c1 in Hq1, Hs1.
    eexists (_ :: added), c'. cbn [mapM].
    rewrite (bind_ok _ _ _ _ _ (AddRequestLog_quiet _ _ _ _ _)). fold c1.
    rewrite (bind_ok _ _ _ added (quiet c')) by exact E.
    split; [reflexivity|]. split; [simpl; by rewrite Hl|].
    split; [by rewrite Hr, Hs1|].
    rewrite Hq1 in Hids, Hs. cbn [add_request http_requests] in Hids, Hs.
    rewrite fmap_app in Hids, Hs. cbn [fmap list_fmap rq_id] in Hids, Hs.
    split.
    + rewrite Hids, <- app_assoc. done.
    + intros Hsorted. apply Hs. by apply StronglySorted_snoc_fresh.
Qed.

End find_all.

(** [N] requests are added one after the other to the empty store, in a
    world without faults.  For a projection whose queries the store
    accepts (it selects the response, and of the request headers either no
    column or two), [FindRequestLogs] then answers exactly [N] records,
    those of the ids that were assigned, the most recently assigned first,
    in strictly descending order. *)
Lemma FindRequestLogs_descending (ins : list ingest) (fs : list CollectedField) :
  sqlite.joinResponse (sqlite.parseHTTPRequestLogsQuery fs) = true →
  (length (sqlite.requestHeaderCols (sqlite.parseHTTPRequestLogsQuery fs)) = 0%nat
   ∨ length (sqlite.requestHeaderCols (sqlite.parseHTTPRequestLogsQuery fs)) = 2%nat) →
  ∃ added found w1 w2,
    AddRequestLogs ins (quiet empty_DB) = (Ok added, w1)
    ∧ sqlite.FindRequestLogs fs w1 = (Ok found, w2)
    ∧ length added = length ins
    ∧ length found = length ins
    ∧ reqlog.Request.ID <$> found = reverse (reqlog.Request.ID <$> added)
    ∧ StronglySorted (λ a b : Z, a > b) (reqlog.Request.ID <$> found).
Proof.
  intros Hj Hlen.
  destruct (AddRequestLogs_quiet ins empty_DB) as (added & c' & E & Hl & Hr & Hids & Hs).
  simpl in Hids. specialize (Hs (SSorted_nil _)). rewrite Hids in Hs.
  destruct (FindRequestLogs_quiet fs c' Hj Hlen Hr) as (found & Ef & Hf).
  rewrite merge_sort_desc in Hf by (by rewrite Hids). rewrite Hids in Hf.
  exists added, found, (quiet c'), (quiet c').
  split; [exact E|]. split; [exact Ef|]. split; [exact Hl|].
  split.
  - rewrite <- Hl, <- (length_fmap reqlog.Request.ID found), Hf.
    by rewrite length_reverse, length_fmap.
  - split; [exact Hf|]. rewrite Hf.
    eapply StronglySorted_reverse; [|exact Hs]. intros; simpl in *; lia.
Qed.


(** Two requests, the second added after the first, read with the full
    projection: the spec's scenario of [A] then [B] read as [B, A]. *)
Example FindRequestLogs_descending_two_requests :
  let a := mk_ingest [("H", ["1"; "2"])]
             (http.Request.mk "GET" "http://x.test/a" "HTTP/1.1"
                (Some ({[ "H" := ["1"; "2"] ]} : Header))) [] 1 in
  let b := mk_ingest [] (http.Request.mk "GET" "http://x.test/b" "HTTP/1.1" None) [] 2 in
  (sqlite.joinResponse (sqlite.parseHTTPRequestLogsQuery full_projection) = true
   ∧ (length (sqlite.requestHeaderCols (sqlite.parseHTTPRequestLogsQuery full_projection))
      = 0%nat
      ∨ length (sqlite.requestHeaderCols (sqlite.parseHTTPRequestLogsQuery full_projection))
        = 2%nat))
  ∧ ∃ added found w1 w2,
      AddRequestLogs [a; b] (quiet empty_DB) = (Ok added, w1)
      ∧ sqlite.FindRequestLogs full_projection w1 = (Ok found, w2)
      ∧ length added = 2%nat
      ∧ length found = 2%nat
      ∧ reqlog.Request.ID <$> found = reverse (reqlog.Request.ID <$> added)
      ∧ StronglySorted (λ a b : Z, a > b) (reqlog.Request.ID <$> found).
Proof.
  intros a b.
  assert (sqlite.joinResponse (sqlite.parseHTTPRequestLogsQuery full_projection) = true) as Hj
    by (vm_compute; reflexivity).
  assert (length (sqlite.requestHeaderCols (sqlite.parseHTTPRequestLogsQuery full_projection))
          = 0%nat
          ∨ length (sqlite.requestHeaderCols (sqlite.parseHTTPRequestLogsQuery full_projection))
            = 2%nat) as Hlen
    by (right; vm_compute; reflexivity).
  split; [split; [exact Hj|exact Hlen]|].
  exact (FindRequestLogs_descending [a; b] full_projection Hj Hlen).
Qed.

(** C3 at the failing input: one request is added, and [FindRequestLogs]
    under a projection that selects [id] and [url] only answers an error
    of the store instead of the record, because the base query names
    [res.id] without the join, as for C4.  A projection that selects the
    response but only the [key] of the headers fails too, in the header
    fetch, as for C8. *)
Theorem FindRequestLogs_fails_without_join :
  let a := mk_ingest [("H", ["1"])]
             (http.Request.mk "GET" "http://x.test/a" "HTTP/1.1"
                (Some ({[ "H" := ["1"] ]} : Header))) [] 1 in
  let added := AddRequestLogs [a] (quiet empty_DB) in
  (reqlog.Request.ID <$> match added.1 with Ok l => l | Err _ => [] end) = [1]
  ∧ (sqlite.FindRequestLogs [Field "id" []; Field "url" []] added.2).1
    = Err (errorString "sqlite: could not execute query: no such column: res.id")
  ∧ (sqlite.FindRequestLogs [Field "headers" [Field "key" []]; Field "response" []] added.2).1
    = Err (errorString
             "sqlite: could not query headers: could not query request headers: sqlite: could not scan row: sql: expected 1 destination arguments in Scan, not 2")
  ∧ (reqlog.Request.ID
       <$> match (sqlite.FindRequestLogs full_projection added.2).1 with
           | Ok l => l
           | Err _ => []
           end) = [1].
Proof. vm_compute. repeat split. Qed.



(** The spec's second scenario: a request with a repeated header, then
    its response with status line [200 OK]. *)
Example scenario_request_then_response :
  let req := http.Request.mk "GET" "http://x.test/a" "HTTP/1.1"
               (Some ({[ "H" := ["1"; "2"] ]} : Header)) in
  let res := http.Response.mk "200 OK" 200 "HTTP/1.1"
               (Some ({[ "Content-Type" := ["text/plain"] ]} : Header)) in
  let w1 := (sqlite.AddRequestLog [("H", ["1"; "2"])] req [] 1 (quiet empty_DB)).2 in
  let w2 := (sqlite.AddResponseLog [("Content-Type", ["text/plain"])] 1 res
               [Byte.x68; Byte.x69] 2 w1).2 in
  match (sqlite.FindRequestLogByID full_projection 1 w2).1 with
  | Ok found =>
      header_values (http.Request.Header (reqlog.Request.Request found)) "H" = ["1"; "2"]
      ∧ match reqlog.Request.Response found with
        | Some s =>
            http.Response.StatusCode (reqlog.Response.Response s) = 200
            ∧ http.Response.Status (reqlog.Response.Response s) = "200 OK"
            ∧ reqlog.Response.Body s = [Byte.x68; Byte.x69]
        | None => False
        end
  | Err _ => False
  end.
Proof. vm_compute. repeat split. Qed.


(** * Further properties *)

(** ** The projection planner and the base query *)

Section planner_more.
Import sqlite.

Lemma reqFieldStep_unknown q f : ¬ request_field (Name f) → reqFieldStep q f = q.
Proof.
  unfold request_field. rewrite !not_elem_of_cons. intros (H1 & H2 & H3 & H4 & H5 & H6 & H7 & _).
  unfold reqFieldStep.
  assert (reqFieldToColumnMap !! Name f = None) as ->.
  { apply not_elem_of_list_to_map_1. cbn. rewrite !not_elem_of_cons.
    repeat split; try done. apply not_elem_of_nil. }
  apply String.eqb_neq in H6 as ->. apply String.eqb_neq in H7 as ->. done.
Qed.

Lemma resolve_base_res_id cols :
  resolve_base false ("req.id AS req_id" :: "res.id AS res_id" :: cols)
  = Err (errorString "no such column: res.id").
Proof. reflexivity. Qed.

End planner_more.

(** X1.  The planner looks only at the fields named [proto], [url],
    [method], [body], [timestamp], [headers] and [response]: every other
    field of the selection, [id] included, leaves the plan as it is. *)
Theorem planner_ignores_unknown_fields (fs : list CollectedField) :
  sqlite.parseHTTPRequestLogsQuery (filter (λ f, request_field (Name f)) fs)
  = sqlite.parseHTTPRequestLogsQuery fs.
Proof.
  unfold sqlite.parseHTTPRequestLogsQuery.
  generalize (sqlite.mk_query ["req.id AS req_id"; "res.id AS res_id"] [] [] false).
  induction fs as [|f fs IH]; intros q; [done|].
  rewrite filter_cons. destruct (decide (request_field (Name f))) as [H|H]; cbn [foldl].
  - apply IH.
  - rewrite (reqFieldStep_unknown q f H). apply IH.
Qed.

(** X2.  A projection that does not select the response gets no join and
    still selects [res.id], so the store refuses the base query of both
    reads: in a world without faults, whatever the store holds and
    whatever the id, [FindRequestLogByID] and [FindRequestLogs] answer the
    store's no-such-column error, and leave the world as it is. *)
Theorem finds_fail_without_response
  (fs : list CollectedField) (id : Z) (c : DB) :
  ¬ selects_response fs →
  sqlite.FindRequestLogByID fs id (quiet c)
  = (Err (errorString "sqlite: could not scan row: no such column: res.id"), quiet c)
  ∧ sqlite.FindRequestLogs fs (quiet c)
    = (Err (errorString "sqlite: could not execute query: no such column: res.id"), quiet c).
Proof.
  intros Hno.
  assert (sqlite.joinResponse (sqlite.parseHTTPRequestLogsQuery fs) = false) as Hj.
  { apply not_true_is_false. intros H. apply Hno. by apply joinResponse_iff. }
  destruct (requestCols_shape fs) as (l & Hcols & _).
  unfold sqlite.FindRequestLogByID, sqlite.FindRequestLogs. rewrite Hj, Hcols.
  split.
  - set (b := sq.Where _ _).
    destruct (ToSql_ok b) as [s Hs]; [done|].
    rewrite (bind_ok _ _ _ s (quiet c)) by (apply wrap_ok; unfold lift; by rewrite Hs).
    unfold bind, QueryRowxContext. unfold quiet.
    rewrite (QueryxContext_invalid b (errorString "no such column: res.id")); [done|].
    subst b. apply compile_by_id_unjoined, resolve_base_res_id.
  - set (b := sq.OrderBy _ _).
    destruct (ToSql_ok b) as [s Hs]; [done|].
    rewrite (bind_ok _ _ _ s (quiet c)) by (apply wrap_ok; unfold lift; by rewrite Hs).
    unfold quiet.
    rewrite (bind_err _ _ _
               (Errorf "sqlite: could not execute query: " (errorString "no such column: res.id"))
               (mk_World c None [])); [done|].
    apply wrap_err, QueryxContext_invalid.
    subst b. apply compile_ordered_unjoined, resolve_base_res_id.
Qed.

Lemma finds_fail_without_response_witness :
  let fs := [Field "id" []; Field "url" []; Field "headers" [Field "key" []; Field "value" []]] in
  let c := mk_DB [mk_requests_row 1 "HTTP/1.1" "http://x.test/a" "GET" [] 7] [] [] in
  ¬ selects_response fs
  ∧ sqlite.FindRequestLogByID fs 1 (quiet c)
    = (Err (errorString "sqlite: could not scan row: no such column: res.id"), quiet c)
  ∧ sqlite.FindRequestLogs fs (quiet c)
    = (Err (errorString "sqlite: could not execute query: no such column: res.id"), quiet c).
Proof.
  intros fs c.
  assert (¬ selects_response fs) as H.
  { intros (f & Hin & Hn). subst fs.
    repeat (apply elem_of_cons in Hin as [->|Hin]; [discriminate Hn|]).
    by apply elem_of_nil in Hin. }
  split; [exact H|]. exact (finds_fail_without_response fs 1 c H).
Defined.

(** X28.  The plan of a longer selection extends the plan of a shorter
    one.  When fields are appended to a selection, the columns of the base
    query and the header columns that were planned stay where they were,
    further columns, each one a column the tables have, are appended after
    them, and a join that was planned stays planned. *)
Theorem planner_is_monotone (fs more : list CollectedField) :
  extends (sqlite.parseHTTPRequestLogsQuery fs) (sqlite.parseHTTPRequestLogsQuery (fs ++ more)).
Proof.
  unfold sqlite.parseHTTPRequestLogsQuery. rewrite foldl_app.
  apply foldl_reqFieldStep_extends.
Qed.


(** ** The two writes *)

Section writes_more.
Import sqlite.

Lemma foldr_max_seqZ (m : Z) (n : nat) :
  0 ≤ m → foldr Z.max 0 (seqZ m (Z.of_nat n)) = if n is O then 0 else m + Z.of_nat n - 1.
Proof.
  revert m. induction n as [|n IH]; intros m Hm; [done|].
  rewrite seqZ_cons by lia. cbn [foldr].
  replace (Z.pred (Z.of_nat (S n))) with (Z.of_nat n) by lia.
  rewrite IH by lia. destruct n; lia.
Qed.

Lemma next_rowid_in_range ids : rowids_in_range ids → next_rowid ids ≤ max_rowid.
Proof.
  unfold next_rowid, rowids_in_range. intros H.
  assert (foldr Z.max 0 ids < max_rowid) as Hlt; [|lia].
  induction ids as [|x ids IH]; cbn [foldr]; [by vm_compute|].
  apply Z.max_lub_lt; [apply H; by left|]. apply IH. intros i Hi. apply H. by right.
Qed.

Lemma next_rowid_seqZ (n : nat) : next_rowid (seqZ 1 (Z.of_nat n)) = 1 + Z.of_nat n.
Proof. unfold next_rowid. rewrite foldr_max_seqZ by lia. destruct n; lia. Qed.

(** Every call takes the next number when the ids in the table are
    [1], ..., [k]. *)
Lemma AddRequestLogs_from (k : nat) ins c :
  rq_id <$> http_requests c = seqZ 1 (Z.of_nat k) →
  ∃ added c',
    AddRequestLogs ins (quiet c) = (Ok added, quiet c')
    ∧ reqlog.Request.ID <$> added = seqZ (1 + Z.of_nat k) (Z.of_nat (length ins)).
Proof.
  unfold AddRequestLogs. revert k c. induction ins as [|i ins IH]; intros k c Hk.
  - by exists [], c.
  - set (c1 := add_headers by_req_id (next_rowid (rq_id <$> http_requests c))
                 (pairs (in_visit i)) (add_request (in_req i) (in_body i) (in_timestamp i) c)).
    assert (rq_id <$> http_requests c1 = seqZ 1 (Z.of_nat (S k))) as Hk1.
    { subst c1.
      destruct (add_headers_tables by_req_id (next_rowid (rq_id <$> http_requests c))
                  (pairs (in_visit i))
                  (add_request (in_req i) (in_body i) (in_timestamp i) c)) as [-> _].
      cbn [add_request http_requests]. rewrite fmap_app, Hk, next_rowid_seqZ, seqZ_S. done. }
    destruct (IH (S k) c1 Hk1) as (added & c' & E & Hids).
    eexists (_ :: added), c'. cbn [mapM].
    rewrite (bind_ok _ _ _ _ _ (AddRequestLog_quiet _ _ _ _ _)). fold c1.
    rewrite (bind_ok _ _ _ added (quiet c')) by exact E.
    split; [reflexivity|].
    cbn [fmap list_fmap reqlog.Request.ID length]. rewrite Hids, Hk, next_rowid_seqZ.
    rewrite (seqZ_cons (1 + Z.of_nat k)) by lia. f_equal. f_equal; lia.
Qed.

Lemma ExecContext_pass s args c d fs :
  ExecContext s args (mk_World c (Some d) (None :: fs))
  = ((exec_insert s args d).1, mk_World c (Some (exec_insert s args d).2) fs).
Proof. unfold ExecContext, bind, step, in_tx. cbn. by destruct (exec_insert s args d). Qed.

Lemma ExecContext_fault s args c t msg fs :
  ExecContext s args (mk_World c t (Some msg :: fs)) = (Err (errorString msg), mk_World c t fs).
Proof. reflexivity. Qed.

(** The loop over the values of one key, under a schedule that fails
    the statement of index [n]. *)
Lemma insert_values_failure o id k vs c d (n : nat) msg rest :
  owned o id d → (n < length vs)%nat →
  forM_ vs (λ value,
     wrap "could not execute statement: "
       (ExecContext (owner_stmt o) [VInt id; VText k; VText value]) ;; ret tt)
    (mk_World c (Some d) (replicate n None ++ Some msg :: rest))
  = (Err (errorString ("could not execute statement: " +:+ msg)),
     mk_World c (Some (add_headers o id (pair k <$> take n vs) d)) rest).
Proof.
  intros Hown. revert d n Hown. induction vs as [|v vs IH]; intros d n Hown Hn; [simpl in Hn; lia|].
  destruct n as [|n]; cbn [forM_ replicate app take fmap list_fmap].
  - unfold bind, wrap. by rewrite ExecContext_fault.
  - unfold bind at 1. unfold bind at 1. unfold wrap at 1.
    rewrite ExecContext_pass, (exec_header o id d k v Hown). cbn [fst snd]. unfold ret at 1.
    rewrite (IH (add_header o id d (k, v)) n); [done|by apply add_header_owned|simpl in Hn; lia].
Qed.

(** The same loop under a schedule that lets every statement pass. *)
Lemma insert_values_success o id k vs c d rest :
  owned o id d →
  forM_ vs (λ value,
     wrap "could not execute statement: "
       (ExecContext (owner_stmt o) [VInt id; VText k; VText value]) ;; ret tt)
    (mk_World c (Some d) (replicate (length vs) None ++ rest))
  = (Ok tt, mk_World c (Some (add_headers o id (pair k <$> vs) d)) rest).
Proof.
  intros Hown. revert d Hown. induction vs as [|v vs IH]; intros d Hown; [done|].
  cbn [forM_ length replicate app fmap list_fmap].
  unfold bind at 1. unfold bind at 1. unfold wrap at 1.
  rewrite ExecContext_pass, (exec_header o id d k v Hown). cbn [fst snd]. unfold ret at 1.
  rewrite (IH (add_header o id d (k, v))); [done|by apply add_header_owned].
Qed.

Lemma AddRequestLog_appends visit req body ts c fs :
  let c' := committed (AddRequestLog visit req body ts (mk_World c None fs)).2 in
  http_requests c `prefix_of` http_requests c'
  ∧ http_responses c `prefix_of` http_responses c'
  ∧ http_headers c `prefix_of` http_headers c'.
Proof.
  intros c'. subst c'.
  pose proof (AddRequestLog_spec visit req body ts c fs) as H.
  destruct (AddRequestLog _ _ _ _ _) as [[r|e] w']; cbn [snd].
  - destruct H as (_ & -> & _).
    destruct (add_headers_tables by_req_id (next_rowid (rq_id <$> http_requests c))
                (pairs visit) (add_request req body ts c)) as [-> ->].
    destruct (add_headers_rows by_req_id (next_rowid (rq_id <$> http_requests c))
                (pairs visit) (add_request req body ts c)) as (rows & -> & _).
    cbn [add_request http_requests http_responses http_headers].
    split; [by eexists|]. split; [done|by eexists].
  - by destruct H as (-> & _).
Qed.

Lemma AddResponseLog_appends visit reqID res body ts c fs :
  let c' := committed (AddResponseLog visit reqID res body ts (mk_World c None fs)).2 in
  http_requests c `prefix_of` http_requests c'
  ∧ http_responses c `prefix_of` http_responses c'
  ∧ http_headers c `prefix_of` http_headers c'.
Proof.
  intros c'. subst c'.
  pose proof (AddResponseLog_spec visit reqID res body ts c fs) as H.
  destruct (AddResponseLog _ _ _ _ _ _) as [[r|e] w']; cbn [snd].
  - destruct H as (_ & _ & -> & _).
    destruct (add_headers_tables by_res_id (next_rowid (rs_id <$> http_responses c))
                (pairs visit) (add_response reqID res body ts c)) as [-> ->].
    destruct (add_headers_rows by_res_id (next_rowid (rs_id <$> http_responses c))
                (pairs visit) (add_response reqID res body ts c)) as (rows & -> & _).
    cbn [add_response http_requests http_responses http_headers].
    split; [done|]. split; by eexists.
  - by destruct H as (-> & _).
Qed.

(** [insertHeaders] under a schedule that fails the statement of index
    [n], and under one that lets every statement pass. *)
Lemma insertHeaders_failure o id visit c d (n : nat) msg rest :
  owned o id d → (n < length (pairs visit))%nat →
  insertHeaders (owner_stmt o) id visit
    (mk_World c (Some d) (replicate n None ++ Some msg :: rest))
  = (Err (errorString ("could not execute statement: " +:+ msg)),
     mk_World c (Some (add_headers o id (take n (pairs visit)) d)) rest).
Proof.
  intros Hown. unfold insertHeaders. revert d n Hown.
  induction visit as [|[k vs] visit IH]; intros d n Hown Hn; [simpl in Hn; lia|].
  rewrite pairs_cons in *. rewrite length_app, length_fmap in Hn.
  cbn [forM_ fst snd]. unfold bind at 1.
  destruct (decide (n < length vs)%nat) as [Hlt|Hge].
  - rewrite (insert_values_failure o id k vs c d n msg rest Hown Hlt).
    rewrite take_app_le by (rewrite length_fmap; lia). by rewrite fmap_take.
  - replace n with (length vs + (n - length vs))%nat at 1 by lia.
    rewrite replicate_add, <- app_assoc.
    rewrite (insert_values_success o id k vs c d _ Hown).
    rewrite (IH _ (n - length vs)%nat); [|by apply add_headers_owned|lia].
    rewrite take_app_ge by (rewrite length_fmap; lia). rewrite length_fmap.
    by rewrite add_headers_app.
Qed.

Lemma insertHeaders_success o id visit c d rest :
  owned o id d →
  insertHeaders (owner_stmt o) id visit
    (mk_World c (Some d) (replicate (length (pairs visit)) None ++ rest))
  = (Ok tt, mk_World c (Some (add_headers o id (pairs visit) d)) rest).
Proof.
  intros Hown. unfold insertHeaders. revert d Hown.
  induction visit as [|[k vs] visit IH]; intros d Hown; [done|].
  rewrite pairs_cons. rewrite length_app, length_fmap, replicate_add, <- app_assoc.
  cbn [forM_ fst snd]. unfold bind at 1.
  rewrite (insert_values_success o id k vs c d _ Hown).
  rewrite (IH _ (add_headers_owned _ _ _ _ _ _ Hown)). by rewrite add_headers_app.
Qed.

End writes_more.

(** X3.  [AddResponseLog] is atomic under every fault schedule.  When a
    step fails, the store is what it was and no transaction stays open.
    When it succeeds, the request it refers to exists, the record carries
    the id the store assigned and the given request id, and the store holds
    one more response row and one header row, owned by that response only,
    for every (key, value) pair, in the order of the loop; the requests
    table is untouched. *)
Theorem AddResponseLog_atomic
  (visit : list (string * list string)) (reqID : Z) (res : http.Response.t)
  (body : list Byte.byte) (timestamp : Z) (c : DB) (fs : list (option string)) :
  let out := sqlite.AddResponseLog visit reqID res body timestamp (mk_World c None fs) in
  tx out.2 = None
  ∧ match out.1 with
    | Err _ => committed out.2 = c
    | Ok resLog =>
        let id := next_rowid (rs_id <$> http_responses c) in
        reqID ∈ rq_id <$> http_requests c
        ∧ reqlog.Response.ID resLog = id
        ∧ reqlog.Response.RequestID resLog = reqID
        ∧ http_requests (committed out.2) = http_requests c
        ∧ http_responses (committed out.2)
          = http_responses c
            ++ [mk_responses_row id reqID (http.Response.Proto res)
                  (http.Response.StatusCode res)
                  (sqlite.statusReason (http.Response.Status res)) body timestamp]
        ∧ ∃ rows, http_headers (committed out.2) = http_headers c ++ rows
                  ∧ ((λ r, (hd_key r, hd_value r)) <$> rows) = pairs visit
                  ∧ Forall (λ r, hd_req_id r = None ∧ hd_res_id r = Some id) rows
    end.
Proof.
  intros out. subst out.
  pose proof (AddResponseLog_spec visit reqID res body timestamp c fs) as H.
  destruct (sqlite.AddResponseLog _ _ _ _ _ _) as [[r|e] w']; cbn [fst snd].
  - destruct H as (Hin & -> & Hc & Ht & _). split; [done|].
    cbn [reqlog.Response.ID reqlog.Response.RequestID].
    split; [done|]. split; [done|]. split; [done|]. rewrite Hc.
    destruct (add_headers_tables by_res_id (next_rowid (rs_id <$> http_responses c))
                (pairs visit) (add_response reqID res body timestamp c)) as [-> ->].
    split; [done|]. split; [done|].
    destruct (add_headers_rows by_res_id (next_rowid (rs_id <$> http_responses c))
                (pairs visit) (add_response reqID res body timestamp c))
      as (rows & -> & Hkv & _ & _ & Hown).
    exists rows. by repeat split.
  - by destruct H as (? & ? & _).
Qed.

(** X4.  Foreign keys are enforced: in a world without faults,
    [AddResponseLog] for a request id that no stored request has is
    refused by the store with its foreign-key error, wrapped as a failed
    statement, and the world is left as it was. *)
Theorem AddResponseLog_unknown_request
  (visit : list (string * list string)) (reqID : Z) (res : http.Response.t)
  (body : list Byte.byte) (timestamp : Z) (c : DB) :
  reqID ∉ rq_id <$> http_requests c →
  sqlite.AddResponseLog visit reqID res body timestamp (quiet c)
  = (Err (errorString "sqlite: could not execute statement: FOREIGN KEY constraint failed"),
     quiet c).
Proof.
  intros Hid.
  unfold sqlite.AddResponseLog, BeginTx, PrepareContext, ExecContext, Rollback,
    defer, wrap, bind, ret, step, in_tx, quiet.
  cbn -[sqlite.statusReason]. by rewrite bool_decide_eq_false_2.
Qed.

Lemma AddResponseLog_unknown_request_witness :
  let res := http.Response.mk "200 OK" 200 "HTTP/1.1" None in
  (5 ∉ rq_id <$> http_requests empty_DB)
  ∧ sqlite.AddResponseLog [] 5 res [] 7 (quiet empty_DB)
    = (Err (errorString "sqlite: could not execute statement: FOREIGN KEY constraint failed"),
       quiet empty_DB).
Proof.
  intros res.
  assert (5 ∉ rq_id <$> http_requests empty_DB) as H by apply not_elem_of_nil.
  split; [exact H|]. exact (AddResponseLog_unknown_request [] 5 res [] 7 empty_DB H).
Defined.

(** X5.  The two writes keep the keys of the schema.  From a store in
    which primary keys are unique and every foreign key points to a row,
    any sequence of calls of [AddRequestLog] and [AddResponseLog], with any
    arguments and under any fault schedules, leads to such a store. *)
Theorem writes_keep_store_consistent (c c' : DB) :
  consistent c → later c c' → consistent c'.
Proof. intros Hc Hl. by destruct (later_preserved c c' Hl Hc) as [? _]. Qed.

Lemma writes_keep_store_consistent_witness :
  let req := http.Request.mk "GET" "http://x.test/a" "HTTP/1.1" None in
  let res := http.Response.mk "200 OK" 200 "HTTP/1.1" None in
  let c1 := committed (sqlite.AddRequestLog [("H", ["1"])] req [] 1
                         (mk_World empty_DB None [])).2 in
  let c2 := committed (sqlite.AddResponseLog [] 1 res [] 2
                         (mk_World c1 None [None; None; None; None; Some "disk full"])).2 in
  (consistent empty_DB ∧ later empty_DB c2) ∧ consistent c2.
Proof.
  intros req res c1 c2.
  assert (later empty_DB c2) as Hl.
  { apply later_response. apply later_request. apply later_now. }
  split; [split; [apply consistent_empty|exact Hl]|].
  exact (writes_keep_store_consistent empty_DB c2 consistent_empty Hl).
Defined.

(** X6.  The store is an append-only log.  Whatever calls of the two
    writes come later, each of the three tables still starts with the rows
    it had: no row is ever changed, moved or deleted. *)
Theorem writes_only_append (c c' : DB) :
  later c c' →
  http_requests c `prefix_of` http_requests c'
  ∧ http_responses c `prefix_of` http_responses c'
  ∧ http_headers c `prefix_of` http_headers c'.
Proof.
  induction 1 as [c|c c' visit req body ts fs Hl IH|c c' visit reqID res body ts fs Hl IH].
  - done.
  - destruct IH as (I1 & I2 & I3).
    destruct (AddRequestLog_appends visit req body ts c' fs) as (A1 & A2 & A3).
    split; [by etrans|]. split; by etrans.
  - destruct IH as (I1 & I2 & I3).
    destruct (AddResponseLog_appends visit reqID res body ts c' fs) as (A1 & A2 & A3).
    split; [by etrans|]. split; by etrans.
Qed.

Lemma writes_only_append_witness :
  let req := http.Request.mk "GET" "http://x.test/a" "HTTP/1.1" None in
  let c := mk_DB [mk_requests_row 1 "HTTP/1.1" "http://x.test/0" "GET" [] 0] []
             [mk_headers_row 1 (Some 1) None "H" "0"] in
  let c' := committed (sqlite.AddRequestLog [("H", ["1"])] req [] 1 (mk_World c None [])).2 in
  later c c'
  ∧ http_requests c `prefix_of` http_requests c'
  ∧ http_responses c `prefix_of` http_responses c'
  ∧ http_headers c `prefix_of` http_headers c'.
Proof.
  intros req c c'.
  assert (later c c') as Hl by (apply later_request, later_now).
  split; [exact Hl|]. exact (writes_only_append c c' Hl).
Defined.

(** X7.  Calls of [AddRequestLog] one after the other on the empty store,
    in a world without faults, all succeed, and they are given the ids
    [1], [2], ..., [N] in the order of the calls. *)
Theorem AddRequestLogs_ids_count_from_one (ins : list ingest) :
  ∃ added w,
    AddRequestLogs ins (quiet empty_DB) = (Ok added, w)
    ∧ reqlog.Request.ID <$> added = first_rowids (length ins).
Proof.
  destruct (AddRequestLogs_from 0 ins empty_DB eq_refl) as (added & c' & E & Hids).
  by exists added, (quiet c').
Qed.

(** X8.  [insertHeaders] runs one statement per (key, value) pair, in the
    order of its two loops, and stops at the first one that fails: when
    the statement of index [n] fails, the error is that failure, wrapped;
    the [n] rows before it are in the open transaction, nothing was
    committed and nothing was undone, and no later statement was run. *)
Theorem insertHeaders_stops_at_first_failure
  (o : header_owner) (id : Z) (visit : list (string * list string)) (c d : DB)
  (n : nat) (msg : string) (rest : list (option string)) :
  owned o id d → (n < length (pairs visit))%nat →
  sqlite.insertHeaders (owner_stmt o) id visit
    (mk_World c (Some d) (replicate n None ++ Some msg :: rest))
  = (Err (errorString ("could not execute statement: " +:+ msg)),
     mk_World c (Some (add_headers o id (take n (pairs visit)) d)) rest).
Proof. apply insertHeaders_failure. Qed.

Lemma insertHeaders_stops_at_first_failure_witness :
  let d := mk_DB [mk_requests_row 1 "HTTP/1.1" "http://x.test/a" "GET" [] 7] [] [] in
  let visit := [("A", ["1"; "2"]); ("B", ["3"])] in
  (owned by_req_id 1 d ∧ (2 < length (pairs visit))%nat)
  ∧ sqlite.insertHeaders insert_http_headers_req_id 1 visit
      (mk_World empty_DB (Some d) [None; None; Some "disk full"; None])
    = (Err (errorString "could not execute statement: disk full"),
       mk_World empty_DB
         (Some (mk_DB (http_requests d) []
                  [mk_headers_row 1 (Some 1) None "A" "1";
                   mk_headers_row 2 (Some 1) None "A" "2"]))
         [None]).
Proof.
  intros d visit.
  assert (owned by_req_id 1 d) as Hown by (apply list_elem_of_singleton; reflexivity).
  assert (2 < length (pairs visit))%nat as Hn by (vm_compute; lia).
  split; [split; [exact Hown|exact Hn]|].
  exact (insertHeaders_stops_at_first_failure by_req_id 1 visit empty_DB d 2 "disk full" [None]
           Hown Hn).
Defined.

(** X26.  The error of [AddRequestLog] names the step that failed.  When
    the driver call of index [k] is the first to fail, with message [msg],
    the error is [msg] behind the text of that step: the begin, a
    preparation, the execution of the request insert, the read of the new
    id, the insert of a header, or the commit.  The store is what it was
    and no transaction stays open. *)
Theorem AddRequestLog_error_names_failed_step
  (visit : list (string * list string)) (req : http.Request.t) (body : list Byte.byte)
  (timestamp : Z) (c : DB) (k : nat) (msg : string) (rest : list (option string)) :
  (k ≤ 5 + length (pairs visit))%nat →
  ∃ w,
    sqlite.AddRequestLog visit req body timestamp
      (mk_World c None (replicate k None ++ Some msg :: rest))
    = (Err (errorString (AddRequestLog_failure (length (pairs visit)) k +:+ msg)), w)
    ∧ committed w = c
    ∧ tx w = None.
Proof.
  intros Hk. exists (mk_World c None rest). split; [|done].
  destruct k as [|[|[|[|[|k]]]]]; try reflexivity.
  unfold sqlite.AddRequestLog, BeginTx, PrepareContext, ExecContext, LastInsertId,
    defer, wrap, bind, ret, step, in_tx.
  cbn -[sqlite.insertHeaders add_headers next_rowid Commit Rollback AddRequestLog_failure].
  unfold set_tx, set_faults.
  cbn -[sqlite.insertHeaders add_headers next_rowid Commit Rollback AddRequestLog_failure].
  fold (add_request req body timestamp c).
  pose proof (owned_add_request req body timestamp c) as Hown.
  change insert_http_headers_req_id with (owner_stmt by_req_id).
  destruct (decide (k < length (pairs visit))%nat) as [Hlt|Hge].
  - rewrite (insertHeaders_failure by_req_id _ visit c _ k msg rest Hown Hlt).
    unfold AddRequestLog_failure. rewrite (proj2 (Nat.ltb_lt _ _)) by lia. reflexivity.
  - assert (k = length (pairs visit)) as -> by lia.
    rewrite (insertHeaders_success by_req_id _ visit c _ _ Hown).
    unfold AddRequestLog_failure. rewrite (proj2 (Nat.ltb_ge _ _)) by lia. reflexivity.
Qed.

Lemma AddRequestLog_error_names_failed_step_witness :
  let req := http.Request.mk "GET" "http://x.test/a" "HTTP/1.1" None in
  let visit := [("A", ["1"; "2"])] in
  (6 ≤ 5 + length (pairs visit))%nat
  ∧ ∃ w,
      sqlite.AddRequestLog visit req [] 7
        (mk_World empty_DB None (replicate 6 None ++ [Some "disk full"; None]))
      = (Err (errorString
                "sqlite: could not insert http headers: could not execute statement: disk full"),
         w)
      ∧ committed w = empty_DB
      ∧ tx w = None.
Proof.
  intros req visit.
  assert (6 ≤ 5 + length (pairs visit))%nat as H by (vm_compute; lia).
  split; [exact H|].
  exact (AddRequestLog_error_names_failed_step visit req [] 7 empty_DB 6 "disk full" [None] H).
Defined.

(** X27.  The ids the two writes assign are fresh.  On a store whose
    request ids lie between 0 and [2^63 - 2], whenever [AddRequestLog]
    succeeds, under any fault schedule, the id of the record is positive,
    at most [2^63 - 1], and greater than the id of every request that was
    in the store; and so for [AddResponseLog] and the responses. *)
Theorem writes_assign_fresh_ids
  (visit : list (string * list string)) (c : DB) (fs : list (option string)) :
  (rowids_in_range (rq_id <$> http_requests c) →
   ∀ req body timestamp reqLog w,
     sqlite.AddRequestLog visit req body timestamp (mk_World c None fs) = (Ok reqLog, w) →
     0 < reqlog.Request.ID reqLog ≤ max_rowid
     ∧ ∀ q, q ∈ http_requests c → rq_id q < reqlog.Request.ID reqLog)
  ∧ (rowids_in_range (rs_id <$> http_responses c) →
     ∀ reqID res body timestamp resLog w,
       sqlite.AddResponseLog visit reqID res body timestamp (mk_World c None fs)
       = (Ok resLog, w) →
       0 < reqlog.Response.ID resLog ≤ max_rowid
       ∧ ∀ s, s ∈ http_responses c → rs_id s < reqlog.Response.ID resLog).
Proof.
  split.
  - intros Hr req body timestamp reqLog w E.
    pose proof (AddRequestLog_spec visit req body timestamp c fs) as H. rewrite E in H.
    destruct H as (-> & _). cbn [reqlog.Request.ID].
    split; [split; [apply next_rowid_pos|by apply next_rowid_in_range]|].
    intros q Hq. apply next_rowid_fresh, list_elem_of_fmap. by exists q.
  - intros Hr reqID res body timestamp resLog w E.
    pose proof (AddResponseLog_spec visit reqID res body timestamp c fs) as H. rewrite E in H.
    destruct H as (_ & -> & _). cbn [reqlog.Response.ID].
    split; [split; [apply next_rowid_pos|by apply next_rowid_in_range]|].
    intros q Hq. apply next_rowid_fresh, list_elem_of_fmap. by exists q.
Qed.

Lemma writes_assign_fresh_ids_witness :
  let req := http.Request.mk "GET" "http://x.test/b" "HTTP/1.1" None in
  let c := mk_DB [mk_requests_row 4 "HTTP/1.1" "http://x.test/a" "GET" [] 7] [] [] in
  let reqLog := reqlog.Request.mk 5 req [] 8 None in
  let w := mk_World (mk_DB [mk_requests_row 4 "HTTP/1.1" "http://x.test/a" "GET" [] 7;
                            mk_requests_row 5 "HTTP/1.1" "http://x.test/b" "GET" [] 8] [] [])
             None [] in
  (rowids_in_range (rq_id <$> http_requests c)
   ∧ sqlite.AddRequestLog [] req [] 8 (mk_World c None []) = (Ok reqLog, w))
  ∧ 0 < reqlog.Request.ID reqLog ≤ max_rowid
  ∧ ∀ q, q ∈ http_requests c → rq_id q < reqlog.Request.ID reqLog.
Proof.
  intros req c reqLog w.
  assert (rowids_in_range (rq_id <$> http_requests c)) as Hr.
  { intros i ->%list_elem_of_singleton. by vm_compute. }
  assert (sqlite.AddRequestLog [] req [] 8 (mk_World c None []) = (Ok reqLog, w)) as E
    by (vm_compute; reflexivity).
  split; [split; [exact Hr|exact E]|].
  exact (proj1 (writes_assign_fresh_ids [] c []) Hr req [] 8 reqLog w E).
Defined.


(** ** The two reads *)

Section reads_more.
Import sqlite.

Lemma read_only_ret {A} (a : A) : read_only (ret a).
Proof. done. Qed.

Lemma read_only_fail {A} e : read_only (fail e : M A).
Proof. done. Qed.

Lemma read_only_lift {A} (r : result A) : read_only (lift r).
Proof. done. Qed.

Lemma read_only_read {A} (f : DB → result A) : read_only (read f).
Proof. done. Qed.

Lemma read_only_step : read_only step.
Proof. intros [c t [|[msg|] fs]]; done. Qed.

Lemma read_only_bind {A B} (m : M A) (k : A → M B) :
  read_only m → (∀ a, read_only (k a)) → read_only (bind m k).
Proof.
  intros Hm Hk w. unfold bind. specialize (Hm w).
  destruct (m w) as [[a|e] w1]; cbn [snd] in *; [|done].
  destruct (Hk a w1) as [H1 H2]. destruct Hm as [<- <-]. done.
Qed.

Lemma read_only_wrap {A} p (m : M A) : read_only m → read_only (wrap p m).
Proof.
  intros Hm w. unfold wrap. specialize (Hm w). by destruct (m w) as [[a|e] w1].
Qed.

Lemma read_only_mapM {A B} (f : A → M B) l :
  (∀ a, read_only (f a)) → read_only (mapM f l).
Proof.
  intros Hf. induction l as [|a l IH]; cbn [mapM]; [apply read_only_ret|].
  apply read_only_bind; [apply Hf|]. intros b.
  apply read_only_bind; [apply IH|]. intros bs. apply read_only_ret.
Qed.

Lemma read_only_foldM {A B} (f : B → A → M B) l b :
  (∀ b a, read_only (f b a)) → read_only (foldM f b l).
Proof.
  intros Hf. revert b. induction l as [|a l IH]; intros b; cbn [foldM]; [apply read_only_ret|].
  apply read_only_bind; [apply Hf|]. intros b'. apply IH.
Qed.

Lemma read_only_QueryxContext b args : read_only (QueryxContext b args).
Proof.
  unfold QueryxContext. apply read_only_bind; [apply read_only_step|]. intros _.
  apply read_only_bind; [apply read_only_lift|]. intros p. apply read_only_read.
Qed.

Lemma read_only_PrepareSelect b : read_only (PrepareSelect b).
Proof.
  unfold PrepareSelect. apply read_only_bind; [apply read_only_step|]. intros _.
  apply read_only_lift.
Qed.

Lemma read_only_findHeaders stmt id : read_only (findHeaders stmt id).
Proof.
  unfold findHeaders.
  apply read_only_bind.
  { apply read_only_wrap. unfold QueryContext.
    apply read_only_bind; [apply read_only_step|]. intros _. apply read_only_read. }
  intros rows. apply read_only_bind.
  { apply read_only_foldM. intros h r.
    apply read_only_bind; [apply read_only_wrap, read_only_lift|]. intros kv.
    apply read_only_ret. }
  intros h. apply read_only_bind; [apply read_only_wrap, read_only_step|]. intros _.
  apply read_only_ret.
Qed.

Lemma read_only_queryHeaders q rs : read_only (queryHeaders q rs).
Proof.
  unfold queryHeaders. apply read_only_bind.
  - destruct (0 <? length (requestHeaderCols q))%nat; [|apply read_only_ret].
    apply read_only_bind; [apply read_only_wrap, read_only_lift|]. intros _.
    apply read_only_bind; [apply read_only_wrap, read_only_PrepareSelect|]. intros stmt.
    apply read_only_mapM. intros r.
    apply read_only_bind; [apply read_only_wrap, read_only_findHeaders|]. intros h.
    apply read_only_ret.
  - intros rs1. destruct (0 <? length (responseHeaderCols q))%nat; [|apply read_only_ret].
    apply read_only_bind; [apply read_only_wrap, read_only_lift|]. intros _.
    apply read_only_bind; [apply read_only_wrap, read_only_PrepareSelect|]. intros stmt.
    apply read_only_mapM. intros r.
    destruct (reqlog.Request.Response r); [|apply read_only_ret].
    apply read_only_bind; [apply read_only_wrap, read_only_findHeaders|]. intros h.
    apply read_only_ret.
Qed.

Lemma same_response_but_headers_refl s : same_response_but_headers s s.
Proof. by repeat split. Qed.

Lemma same_but_headers_refl r : same_but_headers r r.
Proof.
  repeat split. destruct (reqlog.Request.Response r); [apply same_response_but_headers_refl|done].
Qed.

Lemma same_but_headers_trans r1 r2 r3 :
  same_but_headers r1 r2 → same_but_headers r2 r3 → same_but_headers r1 r3.
Proof.
  unfold same_but_headers, same_response_but_headers.
  intros (A1 & A2 & A3 & A4 & A5 & A6 & A7) (B1 & B2 & B3 & B4 & B5 & B6 & B7).
  repeat split; try congruence.
  destruct (reqlog.Request.Response r1), (reqlog.Request.Response r2),
    (reqlog.Request.Response r3); try done.
  destruct A7 as (? & ? & ? & ? & ? & ? & ?), B7 as (? & ? & ? & ? & ? & ? & ?).
  repeat split; congruence.
Qed.

Lemma set_request_header_same h r : same_but_headers r (set_request_header h r).
Proof.
  repeat split. cbn. destruct (reqlog.Request.Response r);
    [apply same_response_but_headers_refl|done].
Qed.

Lemma set_response_header_same h r s :
  reqlog.Request.Response r = Some s → same_but_headers r (set_response_header h r s).
Proof. intros E. repeat split. rewrite E. cbn. by repeat split. Qed.

Lemma mapM_Forall2 {A B} (R : A → B → Prop) (f : A → M B) l w l' w' :
  (∀ a w b w', f a w = (Ok b, w') → R a b) →
  mapM f l w = (Ok l', w') → Forall2 R l l'.
Proof.
  intros Hf. revert w l' w'. induction l as [|a l IH]; intros w l' w'; cbn [mapM].
  - intros [= <- _]. constructor.
  - unfold bind at 1. destruct (f a w) as [[b|e] w1] eqn:Ea; [|done].
    unfold bind at 1. destruct (mapM f l w1) as [[bs|e] w2] eqn:El; [|done].
    intros [= <- _]. constructor; [by eapply Hf|by eapply IH].
Qed.

Lemma Forall2_same_but_headers_trans l1 l2 l3 :
  Forall2 same_but_headers l1 l2 → Forall2 same_but_headers l2 l3 →
  Forall2 same_but_headers l1 l3.
Proof.
  intros H. revert l3. induction H as [|a b l1 l2 Hab _ IH]; intros l3 H3.
  - by inversion H3.
  - inversion H3 as [|? c ? l3' Hbc Hl]; subst. constructor; [by eapply same_but_headers_trans|].
    by apply IH.
Qed.

(** [queryHeaders], whenever it succeeds: the records it answers are the
    ones it was given, in their order, with other header maps at most. *)
Lemma queryHeaders_keeps_records q rs w rs' w' :
  queryHeaders q rs w = (Ok rs', w') → Forall2 same_but_headers rs rs'.
Proof.
  unfold queryHeaders. unfold bind at 1.
  match goal with |- context [match ?m w with _ => _ end] => destruct (m w) as [[rs1|e] w1] eqn:E1 end;
    [|done].
  intros E2.
  assert (Forall2 same_but_headers rs rs1) as H1.
  { revert E1. destruct (0 <? length (requestHeaderCols q))%nat; intros E1.
    - unfold bind at 1 in E1. destruct (wrap _ _ w) as [[?|?] w0]; [|done].
      unfold bind at 1 in E1. destruct (wrap _ _ w0) as [[stmt|?] w2]; [|done].
      eapply mapM_Forall2; [|exact E1].
      intros r v r' v'. unfold bind. destruct (wrap _ _ v) as [[h|?] v1]; [|done].
      intros [= <- _]. apply set_request_header_same.
    - injection E1 as <- _. apply Forall_Forall2_diag, Forall_forall. intros; apply same_but_headers_refl. }
  eapply Forall2_same_but_headers_trans; [exact H1|].
  revert E2. destruct (0 <? length (responseHeaderCols q))%nat; intros E2.
  - unfold bind at 1 in E2. destruct (wrap _ _ w1) as [[?|?] w0]; [|done].
    unfold bind at 1 in E2. destruct (wrap _ _ w0) as [[stmt|?] w2]; [|done].
    eapply mapM_Forall2; [|exact E2].
    intros r v r' v'. cbn beta. destruct (reqlog.Request.Response r) as [s|] eqn:Er.
    + unfold bind. destruct (wrap _ _ v) as [[h|?] v1]; [|done].
      intros [= <- _]. by apply set_response_header_same.
    + intros [= <- _]. apply same_but_headers_refl.
  - injection E2 as <- _. apply Forall_Forall2_diag, Forall_forall. intros; apply same_but_headers_refl.
Qed.

Lemma compile_by_id_inv (j : bool) cols p :
  compile (if j
           then sq.LeftJoin (sq.Where (sq.From (sq.Select cols) "http_requests req")
                               "req.id = ?") "http_responses res ON req.id = res.req_id"
           else sq.Where (sq.From (sq.Select cols) "http_requests req") "req.id = ?")
  = Ok p → ∃ rc, p = plan_requests rc j true false ∧ resolve_base j cols = Ok rc.
Proof.
  destruct j; unfold compile; cbv -[resolve_base];
    destruct (resolve_base _ cols); intros [= <-]; by eexists.
Qed.

Lemma joined_row_of_id id c q s js :
  filter (λ q, rq_id q = id) (http_requests c) ≫= left_join (http_responses c) = (q, s) :: js →
  rq_id q = id ∧ q ∈ http_requests c.
Proof.
  intros E.
  assert ((q, s) ∈ filter (λ q, rq_id q = id) (http_requests c)
                     ≫= left_join (http_responses c)) as Hin by (rewrite E; by left).
  apply list_elem_of_bind in Hin as (x & Hx & Hf).
  apply left_join_request in Hx. cbn in Hx. subst x.
  by apply list_elem_of_filter in Hf.
Qed.

Lemma Forall2_same_ids l l' :
  Forall2 same_but_headers l l' → reqlog.Request.ID <$> l' = reqlog.Request.ID <$> l.
Proof.
  induction 1 as [|r r' l l' (Hid & _) _ IH]; [done|]. rewrite !fmap_cons. by rewrite Hid, IH.
Qed.

(** [queryHeaders] in a world without faults, for a selection of header
    columns it can serve. *)
Lemma queryHeaders_quiet_ok q rs c t :
  none_or_two (requestHeaderCols q) → none_or_two (responseHeaderCols q) →
  (∀ x, x ∈ requestHeaderCols q → header_column x) →
  (∀ x, x ∈ responseHeaderCols q → header_column x) →
  ∃ rs', queryHeaders q rs (mk_World c t []) = (Ok rs', mk_World c t []).
Proof.
  intros Hq Hs Kq Ks. unfold queryHeaders.
  assert (∃ rs1,
    (if (0 <? length (requestHeaderCols q))%nat then
       let b := sq.Where (sq.From (sq.Select (requestHeaderCols q)) "http_headers")
                  "req_id = ?" in
       wrap "could not parse request headers query: " (lift (sq.ToSql b)) ;;
       reqHeadersStmt <- wrap "could not prepare statement: " (PrepareSelect b) ;;
       mapM (λ r,
               headers <- wrap "could not query request headers: "
                            (findHeaders reqHeadersStmt (reqlog.Request.ID r)) ;;
               ret (set_request_header headers r)) rs
     else ret rs) (mk_World c t []) = (Ok rs1, mk_World c t [])) as (rs1 & E1).
  { destruct (requestHeaderCols q) as [|c1 [|c2 [|c3 l]]] eqn:Ecols; unfold none_or_two in Hq;
      simpl in Hq; try (destruct Hq; discriminate).
    - by exists rs.
    - eexists. apply request_headers_quiet; apply Kq; [by left|right; by left]. }
  rewrite (bind_ok _ _ _ rs1 (mk_World c t [])) by exact E1.
  destruct (responseHeaderCols q) as [|c1 [|c2 [|c3 l]]] eqn:Ecols; unfold none_or_two in Hs;
    simpl in Hs; try (destruct Hs; discriminate).
  - by exists rs1.
  - eexists. apply response_headers_quiet; apply Ks; [by left|right; by left].
Qed.

Lemma left_join_ids resps q :
  (rq_id ∘ fst) <$> left_join resps q
  = replicate (1 `max` length (filter (λ s, rs_req_id s = rq_id q) resps)) (rq_id q).
Proof.
  unfold left_join. destruct (filter _ resps) as [|s l]; [done|].
  rewrite <- list_fmap_compose.
  rewrite (const_fmap _ _ (rq_id q)) by done. by rewrite Nat.max_r by (simpl; lia).
Qed.

Lemma bind_left_join_ids resps (l : list requests_row) :
  (rq_id ∘ fst) <$> (l ≫= left_join resps)
  = l ≫= λ q, replicate (1 `max` length (filter (λ s, rs_req_id s = rq_id q) resps)) (rq_id q).
Proof.
  induction l as [|q l IH]; [done|].
  rewrite !bind_cons, fmap_app, IH. by rewrite left_join_ids.
Qed.

Lemma StronglySorted_bind_replicate (n : requests_row → nat) (l : list requests_row) :
  StronglySorted id_desc l →
  StronglySorted (λ a b : Z, b ≤ a) (l ≫= λ q, replicate (n q) (rq_id q)).
Proof.
  induction 1 as [|q l Hl IH Hq]; [constructor|].
  rewrite bind_cons. apply StronglySorted_app_2; [|clear|exact IH].
  - intros x y ->%elem_of_replicate_inv (z & ->%elem_of_replicate_inv & Hz)%list_elem_of_bind.
    rewrite Forall_forall in Hq. by apply Hq.
  - induction (n q) as [|k IHk]; [constructor|]. cbn [replicate]. constructor; [exact IHk|].
    apply Forall_forall. intros y ->%elem_of_replicate_inv. lia.
Qed.

(** [queryHeaders] when the request headers are selected with two
    columns and the response headers are not selected. *)
Lemma queryHeaders_request_columns q c1 c2 rs c t :
  requestHeaderCols q = [c1; c2] → responseHeaderCols q = [] →
  header_column c1 → header_column c2 →
  queryHeaders q rs (mk_World c t [])
  = (Ok ((λ r, set_request_header (fetched c1 c2 by_req_id (reqlog.Request.ID r) c) r) <$> rs),
     mk_World c t []).
Proof.
  intros E1 E2 H1 H2. unfold queryHeaders. rewrite E1, E2. cbn [length Nat.ltb Nat.leb].
  erewrite bind_ok; [|by apply request_headers_quiet]. done.
Qed.


(** [FindRequestLogs] in a world without faults, for a projection that
    selects the response: the joined rows are scanned into records, and
    what [queryHeaders] makes of the records is the answer. *)
Lemma FindRequestLogs_through_queryHeaders fs c :
  joinResponse (parseHTTPRequestLogsQuery fs) = true →
  ∃ rs,
    reqlog.Request.ID <$> rs
    = (rq_id ∘ fst) <$> (merge_sort id_desc (http_requests c) ≫= left_join (http_responses c))
    ∧ ∀ found,
        queryHeaders (parseHTTPRequestLogsQuery fs) rs (mk_World c None [])
        = (Ok found, mk_World c None []) →
        FindRequestLogs fs (quiet c) = (Ok found, quiet c).
Proof.
  intros Hj. unfold quiet.
  destruct (planned_columns fs) as (rc & E & K).
  set (cols := ("req_id", λ (q : requests_row) (_ : option responses_row), VInt (rq_id q)) :: rc)
    in *.
  set (js := merge_sort id_desc (http_requests c) ≫= left_join (http_responses c)).
  set (rows := eval_row cols <$> js).
  assert (∀ j, j ∈ js → ∃ d, dto.StructScan (eval_row cols j) = Ok d
                             ∧ dto.httpRequest.ID d = rq_id j.1) as Hrows.
  { intros [q s] _. destruct (StructScan_planned rc q s K) as (d & Ed & Hid & _). by exists d. }
  exists (scanned <$> rows). split.
  - subst rows. rewrite <- !list_fmap_compose. apply Forall_fmap_ext_1, Forall_forall.
    intros j Hin. destruct (Hrows j Hin) as (d & Ed & Hid). unfold compose, scanned.
    by rewrite Ed.
  - intros found Eq. unfold FindRequestLogs. rewrite Hj.
    set (b := sq.LeftJoin _ _).
    destruct (ToSql_ok b) as [s Hsql]; [apply requestCols_nonempty|].
    rewrite (bind_ok _ _ _ s (mk_World c None []))
      by (apply wrap_ok; unfold lift; by rewrite Hsql).
    rewrite (bind_ok _ _ _ rows (mk_World c None [])); cycle 1.
    { apply wrap_ok. subst b.
      by rewrite (QueryxContext_quiet _ _ _ _ _ (compile_ordered _ _ E)). }
    rewrite (bind_ok _ _ _ (scanned <$> rows) (mk_World c None [])); cycle 1.
    { apply mapM_quiet. intros r (j & -> & Hin)%list_elem_of_fmap.
      destruct (Hrows j Hin) as (d & Ed & _).
      unfold bind, wrap, lift, ret, scanned. by rewrite Ed. }
    rewrite (bind_ok _ _ _ tt (mk_World c None [])) by done.
    by apply wrap_ok.
Qed.

End reads_more.

(** X9.  The two reads only read.  For every projection and every id, in
    every state of the connection and under every fault schedule,
    [FindRequestLogs] and [FindRequestLogByID] leave the committed store
    and the open transaction, if there is one, exactly as they were,
    whether they succeed or fail. *)
Theorem finds_are_read_only (fs : list CollectedField) (id : Z) :
  read_only (sqlite.FindRequestLogs fs) ∧ read_only (sqlite.FindRequestLogByID fs id).
Proof.
  split.
  - unfold sqlite.FindRequestLogs.
    apply read_only_bind; [apply read_only_wrap, read_only_lift|]. intros _.
    apply read_only_bind; [apply read_only_wrap, read_only_QueryxContext|]. intros rows.
    apply read_only_bind.
    { apply read_only_mapM. intros r.
      apply read_only_bind; [apply read_only_wrap, read_only_lift|]. intros d.
      apply read_only_ret. }
    intros reqLogs.
    apply read_only_bind; [apply read_only_wrap, read_only_step|]. intros _.
    apply read_only_wrap, read_only_queryHeaders.
  - unfold sqlite.FindRequestLogByID.
    apply read_only_bind; [apply read_only_wrap, read_only_lift|]. intros _.
    apply read_only_bind.
    { intros w. unfold QueryRowxContext.
      pose proof (read_only_QueryxContext
                    (if sqlite.joinResponse (sqlite.parseHTTPRequestLogsQuery fs)
                     then sq.LeftJoin
                            (sq.Where
                               (sq.From
                                  (sq.Select
                                     (sqlite.requestCols (sqlite.parseHTTPRequestLogsQuery fs)))
                                  "http_requests req") "req.id = ?")
                            "http_responses res ON req.id = res.req_id"
                     else sq.Where
                            (sq.From
                               (sq.Select
                                  (sqlite.requestCols (sqlite.parseHTTPRequestLogsQuery fs)))
                               "http_requests req") "req.id = ?") [VInt id] w) as H.
      by destruct (QueryxContext _ _ w). }
    intros row. destruct (dto.Row_StructScan row) as [d|[]]; try apply read_only_fail.
    apply read_only_bind; [apply read_only_wrap, read_only_queryHeaders|]. intros reqLogs.
    apply read_only_ret.
Qed.

(** X10.  [queryHeaders] changes header maps and nothing else.  Whenever
    it succeeds, for every projection, in every state of the connection and
    under every fault schedule, it answers as many records as it was
    given, in the same order, and each one has the id, method, url, proto,
    body and timestamp it had, and a response exactly when it had one, with
    the same fields apart from its header map. *)
Theorem queryHeaders_only_changes_headers
  (q : sqlite.httpRequestLogsQuery) (rs rs' : list reqlog.Request.t) (w w' : World) :
  sqlite.queryHeaders q rs w = (Ok rs', w') →
  length rs' = length rs ∧ Forall2 same_but_headers rs rs'.
Proof.
  intros E. apply queryHeaders_keeps_records in E.
  split; [symmetry; by eapply Forall2_length|exact E].
Qed.

Lemma queryHeaders_only_changes_headers_witness :
  let q := sqlite.parseHTTPRequestLogsQuery
             [Field "headers" [Field "key" []; Field "value" []]; Field "response" []] in
  let d := mk_DB [mk_requests_row 1 "HTTP/1.1" "http://x.test/a" "GET" [] 7] []
             [mk_headers_row 1 (Some 1) None "H" "1"] in
  let r := reqlog.Request.mk 1 (http.Request.mk "GET" "http://x.test/a" "HTTP/1.1" None)
             [] 7 None in
  let r' := reqlog.Request.mk 1
              (http.Request.mk "GET" "http://x.test/a" "HTTP/1.1"
                 (Some (Add ∅ "H" "1"))) [] 7 None in
  sqlite.queryHeaders q [r] (quiet d) = (Ok [r'], quiet d)
  ∧ length [r'] = length [r] ∧ Forall2 same_but_headers [r] [r'].
Proof.
  intros q d r r'.
  assert (sqlite.queryHeaders q [r] (quiet d) = (Ok [r'], quiet d)) as E
    by (vm_compute; reflexivity).
  split; [exact E|].
  exact (queryHeaders_only_changes_headers q [r] [r'] (quiet d) (quiet d) E).
Defined.

(** X11.  [FindRequestLogByID] never answers another request.  Whenever
    it succeeds, for every projection, in every state of the connection and
    under every fault schedule, the record has the id that was asked for,
    a request with that id is in the committed store, and the projection
    selects the response. *)
Theorem FindRequestLogByID_answers_the_request
  (fs : list CollectedField) (id : Z) (w w' : World) (r : reqlog.Request.t) :
  sqlite.FindRequestLogByID fs id w = (Ok r, w') →
  reqlog.Request.ID r = id
  ∧ id ∈ rq_id <$> http_requests (committed w)
  ∧ selects_response fs.
Proof.
  unfold sqlite.FindRequestLogByID.
  set (q := sqlite.parseHTTPRequestLogsQuery fs).
  set (b := if sqlite.joinResponse q then _ else _).
  unfold bind at 1. unfold wrap at 1. unfold lift.
  destruct (sq.ToSql b); [|done].
  unfold bind at 1. unfold QueryRowxContext.
  pose proof (QueryxContext_cases b [VInt id] w) as Hq.
  destruct (QueryxContext b [VInt id] w) as [[rows|e] w1]; cbn [dto.Row_StructScan];
    [|by destruct Hq as [msg ->]].
  destruct Hq as (p & Ep & Er). destruct rows as [|first rest]; [done|].
  subst b. apply compile_by_id_inv in Ep as (rc & -> & Erc).
  destruct (sqlite.joinResponse q) eqn:Hj; cycle 1.
  { destruct (unplanned_columns fs) as [e He]. fold q in He. congruence. }
  destruct (planned_columns fs) as (rc' & Erc' & K). fold q in Erc'.
  rewrite Erc' in Erc. injection Erc as <-.
  cbn [run] in Er. injection Er as Er.
  destruct (filter (λ q, rq_id q = id) (http_requests (committed w))
              ≫= left_join (http_responses (committed w))) as [|[q0 s] js] eqn:Ej; [done|].
  destruct (joined_row_of_id id (committed w) q0 s js Ej) as [Hid0 Hin0].
  rewrite fmap_cons in Er. injection Er as <- _.
  destruct (StructScan_planned rc' q0 s K) as (d & Ed & Hid & _).
  match goal with
  | |- context [dto.StructScan ?x] =>
      change x with (eval_row (("req_id", λ q _, VInt (rq_id q)) :: rc') (q0, s))
  end.
  rewrite Ed. unfold bind, wrap, ret.
  destruct (sqlite.queryHeaders q [dto.toRequestLog d] w1) as [[rs'|?] w2] eqn:Eq; [|done].
  intros [= <- _]. apply queryHeaders_keeps_records in Eq.
  inversion Eq as [|? r' ? l' Hsame Hnil]. inversion Hnil. cbn [head default from_option].
  destruct Hsame as (Hsame & _). unfold Datatypes.id.
  rewrite Hsame. cbn [dto.toRequestLog reqlog.Request.ID]. rewrite Hid.
  split; [done|]. split.
  - rewrite <- Hid0. apply list_elem_of_fmap. by exists q0.
  - by apply joinResponse_iff.
Qed.

Lemma FindRequestLogByID_answers_the_request_witness :
  let fs := [Field "url" []; Field "response" [Field "statusCode" []]] in
  let d := mk_DB [mk_requests_row 1 "HTTP/1.1" "http://x.test/a" "GET" [] 7;
                  mk_requests_row 2 "HTTP/1.1" "http://x.test/b" "GET" [] 8] [] [] in
  let r := reqlog.Request.mk 2 (http.Request.mk "" "http://x.test/b" "" None) [] 0 None in
  sqlite.FindRequestLogByID fs 2 (mk_World d None [None]) = (Ok r, mk_World d None [])
  ∧ reqlog.Request.ID r = 2
  ∧ 2 ∈ rq_id <$> http_requests d
  ∧ selects_response fs.
Proof.
  intros fs d r.
  assert (sqlite.FindRequestLogByID fs 2 (mk_World d None [None]) = (Ok r, mk_World d None []))
    as E by (vm_compute; reflexivity).
  split; [exact E|].
  exact (FindRequestLogByID_answers_the_request fs 2 (mk_World d None [None])
           (mk_World d None []) r E).
Defined.

(** X12.  [FindRequestLogs] lists every stored request, by descending
    id.  For a projection that selects the response and whose header
    selections have no column or two, in a world without faults and
    whatever the store holds, it succeeds; the ids of the records it
    answers are the ids of the request rows from the highest to the
    lowest, the id of a request that has several responses repeated once
    for each of them; so the ids never increase along the answer, and an
    id is in the answer exactly when a stored request has it. *)
Theorem FindRequestLogs_lists_requests_by_descending_id
  (fs : list CollectedField) (c : DB) :
  selects_response fs →
  none_or_two (sqlite.requestHeaderCols (sqlite.parseHTTPRequestLogsQuery fs)) →
  none_or_two (sqlite.responseHeaderCols (sqlite.parseHTTPRequestLogsQuery fs)) →
  ∃ found,
    sqlite.FindRequestLogs fs (quiet c) = (Ok found, quiet c)
    ∧ reqlog.Request.ID <$> found
      = merge_sort id_desc (http_requests c)
          ≫= (λ q, replicate (1 `max` length (responses_of c q)) (rq_id q))
    ∧ StronglySorted (λ a b : Z, b ≤ a) (reqlog.Request.ID <$> found)
    ∧ ∀ i, i ∈ reqlog.Request.ID <$> found ↔ i ∈ rq_id <$> http_requests c.
Proof.
  intros Hsel Hq Hs. apply joinResponse_iff in Hsel as Hj.
  destruct (FindRequestLogs_through_queryHeaders fs c Hj) as (rs & Hrs & Hfind).
  destruct (queryHeaders_quiet_ok (sqlite.parseHTTPRequestLogsQuery fs) rs c None
              Hq Hs (requestHeaderCols_columns fs) (responseHeaderCols_columns fs))
    as (found & Eq).
  exists found. split; [by apply Hfind|].
  apply queryHeaders_keeps_records, Forall2_same_ids in Eq. rewrite Eq, Hrs.
  rewrite bind_left_join_ids. split; [done|split].
  - apply StronglySorted_bind_replicate, (StronglySorted_merge_sort id_desc).
  - intros i. rewrite list_elem_of_bind. setoid_rewrite elem_of_replicate.
    rewrite list_elem_of_fmap. setoid_rewrite <- (merge_sort_Permutation id_desc (http_requests c)) at 2.
    split.
    + intros (q & [-> _] & Hin). by exists q.
    + intros (q & -> & Hin). exists q. split; [split; [done|lia]|done].
Qed.

Lemma FindRequestLogs_lists_requests_by_descending_id_witness :
  let c := mk_DB [mk_requests_row 1 "HTTP/1.1" "http://x.test/a" "GET" [] 7;
                  mk_requests_row 2 "HTTP/1.1" "http://x.test/b" "GET" [] 8]
                 [mk_responses_row 1 1 "HTTP/1.1" 200 "OK" [] 9;
                  mk_responses_row 2 1 "HTTP/1.1" 200 "OK" [] 10] [] in
  (selects_response full_projection
   ∧ none_or_two (sqlite.requestHeaderCols (sqlite.parseHTTPRequestLogsQuery full_projection))
   ∧ none_or_two (sqlite.responseHeaderCols (sqlite.parseHTTPRequestLogsQuery full_projection)))
  ∧ ∃ found,
      sqlite.FindRequestLogs full_projection (quiet c) = (Ok found, quiet c)
      ∧ reqlog.Request.ID <$> found
        = merge_sort id_desc (http_requests c)
            ≫= (λ q, replicate (1 `max` length (responses_of c q)) (rq_id q))
      ∧ StronglySorted (λ a b : Z, b ≤ a) (reqlog.Request.ID <$> found)
      ∧ ∀ i, i ∈ reqlog.Request.ID <$> found ↔ i ∈ rq_id <$> http_requests c.
Proof.
  intros c.
  assert (selects_response full_projection) as H1.
  { unfold selects_response. apply joinResponse_iff. vm_compute. reflexivity. }
  assert (none_or_two (sqlite.requestHeaderCols (sqlite.parseHTTPRequestLogsQuery
                                                   full_projection))) as H2
    by (right; vm_compute; reflexivity).
  assert (none_or_two (sqlite.responseHeaderCols (sqlite.parseHTTPRequestLogsQuery
                                                    full_projection))) as H3
    by (right; vm_compute; reflexivity).
  split; [split; [exact H1|split; [exact H2|exact H3]]|].
  exact (FindRequestLogs_lists_requests_by_descending_id full_projection c H1 H2 H3).
Defined.

(** X15.  Under the full projection, in a world without faults,
    [FindRequestLogByID] reads every request of a consistent store: the
    record has the id, method, url, proto and body of the row and the
    headers of its header rows; its timestamp is the one of the row when
    the year of that one is between 0000 and 9999, and the zero time
    otherwise; it has a response exactly when a response row refers to
    the request, and then the response is one of those. *)
Theorem FindRequestLogByID_reads_stored_request (c : DB) (q : requests_row) :
  consistent c → q ∈ http_requests c →
  ∃ o,
    sqlite.FindRequestLogByID full_projection (rq_id q) (quiet c)
    = (Ok (full_record c q o), quiet c)
    ∧ match o with
      | Some s => s ∈ responses_of c q
      | None => responses_of c q = []
      end
    ∧ (sqlite3.year_0000 ≤ rq_timestamp q < sqlite3.year_10000 →
       reqlog.Request.Timestamp (full_record c q o) = rq_timestamp q)
    ∧ (¬ (sqlite3.year_0000 ≤ rq_timestamp q < sqlite3.year_10000) →
       reqlog.Request.Timestamp (full_record c q o) = 0).
Proof.
  intros Hc Hin.
  pose proof (filter_primary_key (http_requests c) q (requests_pk c Hc) Hin) as F.
  assert (∃ o rest,
            filter (λ x, rq_id x = rq_id q) (http_requests c) ≫= left_join (http_responses c)
            = (q, o) :: rest
            ∧ match o with
              | Some s => s ∈ responses_of c q
              | None => responses_of c q = []
              end) as (o & rest & Ej & Ho).
  { rewrite F, bind_cons. cbn [mbind list_bind]. rewrite app_nil_r.
    unfold left_join, responses_of. destruct (filter _ (http_responses c)) as [|s l].
    - by exists None, [].
    - exists (Some s), ((λ s, (q, Some s)) <$> l). split; [done|]. by left. }
  exists o. split; [exact (find_full (rq_id q) c q o rest Ej)|]. split; [exact Ho|].
  cbn [full_record reqlog.Request.Timestamp]. apply read_time_cases.
Qed.

Lemma FindRequestLogByID_reads_stored_request_witness :
  let q := mk_requests_row 1 "HTTP/1.1" "http://x.test/a" "GET" [] 7 in
  let s := mk_responses_row 1 1 "HTTP/1.1" 200 "OK" [] 9 in
  let c := mk_DB [q] [s] [] in
  (consistent c ∧ q ∈ http_requests c)
  ∧ ∃ o,
      sqlite.FindRequestLogByID full_projection (rq_id q) (quiet c)
      = (Ok (full_record c q o), quiet c)
      ∧ match o with
        | Some s => s ∈ responses_of c q
        | None => responses_of c q = []
        end
      ∧ (sqlite3.year_0000 ≤ rq_timestamp q < sqlite3.year_10000 →
         reqlog.Request.Timestamp (full_record c q o) = rq_timestamp q)
      ∧ (¬ (sqlite3.year_0000 ≤ rq_timestamp q < sqlite3.year_10000) →
         reqlog.Request.Timestamp (full_record c q o) = 0).
Proof.
  intros q s c.
  assert (consistent c) as Hc.
  { split; cbn.
    - intros x ->%list_elem_of_singleton. by left.
    - intros r i Hr. by apply elem_of_nil in Hr.
    - intros r i Hr. by apply elem_of_nil in Hr.
    - apply NoDup_singleton.
    - apply NoDup_singleton. }
  assert (q ∈ http_requests c) as Hin by (by left).
  split; [split; [exact Hc|exact Hin]|].
  exact (FindRequestLogByID_reads_stored_request c q Hc Hin).
Defined.

(** X16.  The columns of a header row are scanned by position, not by
    name.  When the projection selects the header fields in the order
    [value], [key], the statement selects the columns in that order and
    the scan reads the first into the key: the map that is read holds,
    under the canonical form of each stored value, the stored keys. *)
Theorem header_columns_are_scanned_by_position (c : DB) (q : requests_row) :
  consistent c → q ∈ http_requests c →
  let fs := [Field "headers" [Field "value" []; Field "key" []]; Field "response" []] in
  ∃ found,
    sqlite.FindRequestLogByID fs (rq_id q) (quiet c) = (Ok found, quiet c)
    ∧ ∀ K, header_values (http.Request.Header (reqlog.Request.Request found)) K
           = hd_key <$> filter (λ r, textproto.CanonicalMIMEHeaderKey (hd_value r) = K)
                          (owner_rows by_req_id (rq_id q) (http_headers c)).
Proof.
  intros Hc Hin fs.
  assert (sqlite.joinResponse (sqlite.parseHTTPRequestLogsQuery fs) = true) as Hj by reflexivity.
  unfold quiet.
  destruct (FindRequestLogByID_quiet fs (rq_id q) c None Hj) as (rc & _ & K & ->).
  destruct (joined_stored c q Hc Hin) as (o & rest & ->).
  destruct (StructScan_planned rc q o K) as (d & -> & Hid & _).
  rewrite (bind_ok _ _ _ _ _
             (wrap_ok _ _ _ _ _
                (queryHeaders_request_columns (sqlite.parseHTTPRequestLogsQuery fs)
                   "value" "key" [dto.toRequestLog d] c None eq_refl eq_refl
                   (or_intror eq_refl) (or_introl eq_refl)))).
  eexists. split; [reflexivity|]. intros k.
  cbn [fmap list_fmap head default from_option Datatypes.id sqlite.set_request_header
       reqlog.Request.Request http.Request.Header header_values dto.toRequestLog
       reqlog.Request.ID].
  rewrite Hid. unfold fetched. by rewrite values_collect, values_empty.
Qed.

Lemma header_columns_are_scanned_by_position_witness :
  let q := mk_requests_row 1 "HTTP/1.1" "http://x.test/a" "GET" [] 7 in
  let c := mk_DB [q] [] [mk_headers_row 1 (Some 1) None "Accept" "text/html"] in
  let fs := [Field "headers" [Field "value" []; Field "key" []]; Field "response" []] in
  (consistent c ∧ q ∈ http_requests c)
  ∧ ∃ found,
      sqlite.FindRequestLogByID fs (rq_id q) (quiet c) = (Ok found, quiet c)
      ∧ ∀ K, header_values (http.Request.Header (reqlog.Request.Request found)) K
             = hd_key <$> filter (λ r, textproto.CanonicalMIMEHeaderKey (hd_value r) = K)
                            (owner_rows by_req_id (rq_id q) (http_headers c)).
Proof.
  intros q c fs.
  assert (consistent c) as Hc.
  { split; cbn.
    - intros x Hx. by apply elem_of_nil in Hx.
    - intros r i ->%list_elem_of_singleton [= <-]. by left.
    - intros r i ->%list_elem_of_singleton [=].
    - apply NoDup_singleton.
    - apply NoDup_nil_2. }
  assert (q ∈ http_requests c) as Hin by (by left).
  split; [split; [exact Hc|exact Hin]|].
  exact (header_columns_are_scanned_by_position c q Hc Hin).
Defined.




(** ** Header maps that were read from the store *)

Section canonical.
Import sqlite.

Lemma fetched_canonical_keys c1 c2 o id d : canonical_keys (Some (fetched c1 c2 o id d)).
Proof.
  intros K. cbn [header_values]. unfold fetched. rewrite values_collect, values_empty.
  cbn [app]. intros Hne.
  destruct (filter _ _) as [|r rows] eqn:E; [done|].
  assert (r ∈ filter (λ r, textproto.CanonicalMIMEHeaderKey (header_getter c1 r) = K)
                (owner_rows o id (http_headers d))) as Hin by (rewrite E; by left).
  apply list_elem_of_filter in Hin as [<- _]. apply CanonicalMIMEHeaderKey_idem.
Qed.

Lemma Add_no_empty_values h k v : no_empty_values h → no_empty_values (Add h k v).
Proof.
  intros Hh k' l. unfold Add.
  destruct (decide (textproto.CanonicalMIMEHeaderKey k = k')) as [->|Hne].
  - rewrite lookup_insert_eq. intros [= <-]. by destruct (values h _).
  - rewrite lookup_insert_ne by done. apply Hh.
Qed.

Lemma collect_no_empty_values g1 g2 rows h :
  no_empty_values h → no_empty_values (collect g1 g2 rows h).
Proof.
  unfold collect. revert h. induction rows as [|r rows IH]; intros h Hh; [done|].
  cbn [foldl]. apply IH. by apply Add_no_empty_values.
Qed.

Lemma fetched_no_empty_values c1 c2 o id d : no_empty_values (fetched c1 c2 o id d).
Proof. apply collect_no_empty_values. intros k l. by rewrite lookup_empty. Qed.

(** Two maps without empty lists that hold the same values under every
    key are the same map. *)
Lemma Header_eq (h1 h2 : Header) :
  no_empty_values h1 → no_empty_values h2 →
  (∀ k, values h1 k = values h2 k) → h1 = h2.
Proof.
  intros N1 N2 Hv. apply map_eq. intros k. specialize (Hv k). unfold values in Hv.
  destruct (h1 !! k) as [l1|] eqn:E1, (h2 !! k) as [l2|] eqn:E2; cbn in Hv.
  - by subst.
  - subst. by destruct (N1 _ _ E1).
  - subst. by destruct (N2 _ _ E2).
  - done.
Qed.

(** What the full projection reads: the record of the first joined row. *)
Lemma find_full_cases id c found w :
  FindRequestLogByID full_projection id (quiet c) = (Ok found, w) →
  ∃ q o, rq_id q = id ∧ q ∈ http_requests c ∧ found = full_record c q o.
Proof.
  intros E.
  destruct (filter (λ q, rq_id q = id) (http_requests c) ≫= left_join (http_responses c))
    as [|[q o] rest] eqn:Ej.
  - apply joined_nil in Ej.
    apply (FindRequestLogByID_not_found_iff full_projection id c) in Ej;
      [|vm_compute; reflexivity].
    rewrite E in Ej. discriminate.
  - destruct (joined_row_of_id id c q o rest Ej) as [Hid Hin].
    rewrite (find_full id c q o rest Ej) in E. injection E as <- _. by exists q, o.
Qed.

(** What the driver reads from a timestamp column is read again as it
    is: the zero time lies between the two bounds. *)
Lemma read_time_idem t : sqlite3.read_time (sqlite3.read_time t) = sqlite3.read_time t.
Proof. unfold sqlite3.read_time. by destruct (sqlite3.parses t) eqn:E; [rewrite E|]. Qed.

End canonical.

(** X13.  Every header map that [FindRequestLogByID] reads under the full
    projection, the one of the request and the one of its response, has
    only keys in canonical MIME form, whatever the rows of the store hold:
    the canonicalisation leaves each of its keys as it is. *)
Theorem read_header_keys_are_canonical
  (id : Z) (c : DB) (found : reqlog.Request.t) (w : World) :
  sqlite.FindRequestLogByID full_projection id (quiet c) = (Ok found, w) →
  canonical_keys (http.Request.Header (reqlog.Request.Request found))
  ∧ match reqlog.Request.Response found with
    | Some s => canonical_keys (http.Response.Header (reqlog.Response.Response s))
    | None => True
    end.
Proof.
  intros E. destruct (find_full_cases id c found w E) as (q & o & _ & _ & ->).
  split; [apply fetched_canonical_keys|].
  destruct o as [s|]; [apply fetched_canonical_keys|done].
Qed.

Lemma read_header_keys_are_canonical_witness :
  let c := mk_DB [mk_requests_row 1 "HTTP/1.1" "http://x.test/a" "GET" [] 7] []
             [mk_headers_row 1 (Some 1) None "x-custom" "1"] in
  let found := reqlog.Request.mk 1
                 (http.Request.mk "GET" "http://x.test/a" "HTTP/1.1"
                    (Some (Add ∅ "x-custom" "1"))) [] 7 None in
  sqlite.FindRequestLogByID full_projection 1 (quiet c) = (Ok found, quiet c)
  ∧ canonical_keys (http.Request.Header (reqlog.Request.Request found))
  ∧ match reqlog.Request.Response found with
    | Some s => canonical_keys (http.Response.Header (reqlog.Response.Response s))
    | None => True
    end.
Proof.
  intros c found.
  assert (sqlite.FindRequestLogByID full_projection 1 (quiet c) = (Ok found, quiet c)) as E
    by (vm_compute; reflexivity).
  split; [exact E|]. exact (read_header_keys_are_canonical 1 c found (quiet c) E).
Defined.

(** X14.  A record that was read from the store is a fixed point of
    storing and reading.  When the request, the body and the timestamp of
    a record read under the full projection are added again, in a world
    without faults, and the new record is read under the full projection,
    the request that is read, its header map included, the body and the
    timestamp are those of the record that was added. *)
Theorem stored_record_is_fixed_point
  (id : Z) (c : DB) (found : reqlog.Request.t) (w : World)
  (visit : list (string * list string)) :
  consistent c →
  sqlite.FindRequestLogByID full_projection id (quiet c) = (Ok found, w) →
  range_of_header (http.Request.Header (reqlog.Request.Request found)) visit →
  ∃ reqLog w1 again w2,
    sqlite.AddRequestLog visit (reqlog.Request.Request found) (reqlog.Request.Body found)
      (reqlog.Request.Timestamp found) (quiet c) = (Ok reqLog, w1)
    ∧ sqlite.FindRequestLogByID full_projection (reqlog.Request.ID reqLog) w1 = (Ok again, w2)
    ∧ reqlog.Request.Request again = reqlog.Request.Request found
    ∧ reqlog.Request.Body again = reqlog.Request.Body found
    ∧ reqlog.Request.Timestamp again = reqlog.Request.Timestamp found.
Proof.
  intros Hc E Hr. destruct (find_full_cases id c found w E) as (q & o & _ & _ & ->).
  do 4 eexists. split; [apply AddRequestLog_quiet|].
  split; [apply (find_after_add visit _ _ _ c Hc)|].
  cbn [reqlog.Request.Request reqlog.Request.Body reqlog.Request.Timestamp full_record
       http.Request.Method http.Request.URL http.Request.Proto].
  split; [|split; [done|apply read_time_idem]]. f_equal. f_equal.
  apply Header_eq; try apply fetched_no_empty_values. intros k.
  rewrite (header_values_after_add visit _ _ _ c k Hc Hr); [done|].
  apply fetched_canonical_keys.
Qed.

Lemma stored_record_is_fixed_point_witness :
  let c := mk_DB [mk_requests_row 1 "HTTP/1.1" "http://x.test/a" "GET" [] 7] []
             [mk_headers_row 1 (Some 1) None "x-custom" "1";
              mk_headers_row 2 (Some 1) None "X-Custom" "2"] in
  let h : Header := {[ "X-Custom" := ["1"; "2"] ]} in
  let found := reqlog.Request.mk 1 (http.Request.mk "GET" "http://x.test/a" "HTTP/1.1" (Some h))
                 [] 7 None in
  (consistent c
   ∧ sqlite.FindRequestLogByID full_projection 1 (quiet c) = (Ok found, quiet c)
   ∧ range_of_header (Some h) (map_to_list h))
  ∧ ∃ reqLog w1 again w2,
      sqlite.AddRequestLog (map_to_list h) (reqlog.Request.Request found)
        (reqlog.Request.Body found) (reqlog.Request.Timestamp found) (quiet c) = (Ok reqLog, w1)
      ∧ sqlite.FindRequestLogByID full_projection (reqlog.Request.ID reqLog) w1 = (Ok again, w2)
      ∧ reqlog.Request.Request again = reqlog.Request.Request found
      ∧ reqlog.Request.Body again = reqlog.Request.Body found
      ∧ reqlog.Request.Timestamp again = reqlog.Request.Timestamp found.
Proof.
  intros c h found.
  assert (consistent c) as Hc.
  { split; cbn.
    - intros s Hs. by apply elem_of_nil in Hs.
    - intros r i Hr Hi. repeat (apply elem_of_cons in Hr as [->|Hr]; [injection Hi as <-; by left|]).
      by apply elem_of_nil in Hr.
    - intros r i Hr Hi. repeat (apply elem_of_cons in Hr as [->|Hr]; [discriminate Hi|]).
      by apply elem_of_nil in Hr.
    - apply NoDup_singleton.
    - apply NoDup_nil_2. }
  assert (sqlite.FindRequestLogByID full_projection 1 (quiet c) = (Ok found, quiet c)) as E
    by (vm_compute; reflexivity).
  assert (range_of_header (Some h) (map_to_list h)) as Hr
    by (unfold range_of_header, range_of; reflexivity).
  split; [split; [exact Hc|split; [exact E|exact Hr]]|].
  exact (stored_record_is_fixed_point 1 c found (quiet c) (map_to_list h) Hc E Hr).
Defined.


(** ** The resolvers of the query API *)

Section api_more.

Lemma parseRequestLog_valid visit visit_res req :
  api.IsValid (http.Request.Method (reqlog.Request.Request req)) = true →
  ∃ log, api.parseRequestLog visit visit_res req = Ok log.
Proof. intros H. unfold api.parseRequestLog. rewrite H. by eexists. Qed.

Lemma parseRequestLog_invalid visit visit_res req :
  api.IsValid (http.Request.Method (reqlog.Request.Request req)) = false →
  api.parseRequestLog visit visit_res req
  = Err (errorString ("request has invalid method: "
                      +:+ http.Request.Method (reqlog.Request.Request req))).
Proof. intros H. unfold api.parseRequestLog. by rewrite H. Qed.

(** The loop of [HTTPRequestLogs] when every record parses: the slots
    from [i] on hold the parsed records, the slots before [i] are left
    as they were. *)
Lemma fill_valid order i reqs logs :
  (i + length reqs ≤ length logs)%nat →
  Forall (λ r, api.IsValid (http.Request.Method (reqlog.Request.Request r)) = true) reqs →
  ∃ logs',
    resolvers.fill order i reqs logs = Ok logs'
    ∧ length logs' = length logs
    ∧ (∀ j, (j < i)%nat → logs' !! j = logs !! j)
    ∧ (∀ k r, reqs !! k = Some r →
         ∃ log, logs' !! (i + k)%nat = Some log
                ∧ api.parseRequestLog (order (i + k)%nat).1 (order (i + k)%nat).2 r = Ok log).
Proof.
  revert i logs. induction reqs as [|r reqs IH]; intros i logs Hlen Hvalid.
  - exists logs. split; [done|]. split; [done|]. split; [done|].
    intros k r Hk. by rewrite lookup_nil in Hk.
  - apply Forall_cons in Hvalid as [Hr Hvalid]. cbn [length] in Hlen.
    destruct (parseRequestLog_valid (order i).1 (order i).2 r Hr) as [log Elog].
    cbn [resolvers.fill]. rewrite Elog.
    destruct (IH (S i) (<[i:=log]> logs)) as (logs' & E & Hl & Hbefore & Hafter);
      [rewrite length_insert; lia|done|].
    exists logs'. split; [exact E|]. split; [by rewrite Hl, length_insert|]. split.
    + intros j Hj. rewrite Hbefore by lia. apply list_lookup_insert_ne. lia.
    + intros [|k] r' Hk.
      * injection Hk as <-. exists log. rewrite Nat.add_0_r. split; [|done].
        rewrite Hbefore by lia. apply list_lookup_insert_eq. lia.
      * destruct (Hafter k r' Hk) as (log' & Hlog' & Hp).
        exists log'. by rewrite <- Nat.add_succ_comm.
Qed.

(** The same loop when a record does not parse: the error of the first
    such record is the answer. *)
Lemma fill_invalid order i l1 r l2 logs :
  Forall (λ r, api.IsValid (http.Request.Method (reqlog.Request.Request r)) = true) l1 →
  api.IsValid (http.Request.Method (reqlog.Request.Request r)) = false →
  resolvers.fill order i (l1 ++ r :: l2) logs
  = Err (errorString ("request has invalid method: "
                      +:+ http.Request.Method (reqlog.Request.Request r))).
Proof.
  intros Hvalid Hr. revert i logs. induction Hvalid as [|r1 l1 Hr1 _ IH]; intros i logs.
  - cbn [app resolvers.fill]. by rewrite parseRequestLog_invalid.
  - cbn [app resolvers.fill].
    destruct (parseRequestLog_valid (order i).1 (order i).2 r1 Hr1) as [log ->]. apply IH.
Qed.

Lemma Filter_from (test : reqlog.Request.t → bool) ss acc :
  foldl (λ ret s, if test s then ret ++ [s] else ret) acc ss
  = acc ++ filter (λ s, test s = true) ss.
Proof.
  revert acc. induction ss as [|s ss IH]; intros acc; cbn [foldl].
  - by rewrite app_nil_r.
  - rewrite IH, filter_cons. destruct (test s) eqn:E.
    + rewrite decide_True by done. by rewrite <- app_assoc.
    + rewrite decide_False by congruence. done.
Qed.

Lemma filter_key_unique {V} (visit : list (string * V)) k v :
  NoDup visit.*1 → (k, v) ∈ visit → filter (λ kv, kv.1 = k) visit = [(k, v)].
Proof.
  induction visit as [|[k' v'] visit IH]; intros Hnd Hin; [by apply elem_of_nil in Hin|].
  cbn [fmap list_fmap fst] in Hnd. apply NoDup_cons in Hnd as [Hk Hnd].
  rewrite filter_cons. cbn [fst]. apply elem_of_cons in Hin as [[= <- <-]|Hin].
  - rewrite decide_True by done. f_equal. apply filter_none.
    intros [k2 v2] H2 E. cbn in E. subst k2. apply Hk. apply list_elem_of_fmap. by exists (k, v2).
  - destruct (decide (k' = k)) as [->|Hne]; [|by apply IH].
    exfalso. apply Hk. apply list_elem_of_fmap. by exists (k, v).
Qed.

Lemma filter_flatten visit K :
  api.Value <$> filter (λ x, api.Key x = K) (api.flatten visit)
  = filter (λ kv, kv.1 = K) visit ≫= snd.
Proof.
  unfold api.flatten. induction visit as [|[k vs] visit IH]; [done|].
  rewrite bind_cons, filter_app, fmap_app, IH, filter_cons. cbn [fst snd].
  destruct (decide (k = K)) as [->|Hne].
  - rewrite bind_cons. cbn [snd]. f_equal.
    induction vs as [|v vs IHv]; [done|].
    rewrite fmap_cons, filter_cons. cbn [api.Key]. rewrite decide_True by done.
    rewrite fmap_cons. cbn [api.Value]. by rewrite IHv.
  - rewrite filter_none; [done|].
    intros x (v & -> & _)%list_elem_of_fmap. done.
Qed.

(** The list the two loops build holds under each key the values the
    map holds under it, in their order. *)
Lemma flatten_values (h : Header) visit K :
  range_of h visit →
  api.Value <$> filter (λ x, api.Key x = K) (api.flatten visit) = values h K.
Proof.
  intros Hr. rewrite filter_flatten.
  assert (NoDup visit.*1) as Hnd.
  { unfold range_of in Hr. rewrite Hr. apply NoDup_fst_map_to_list. }
  assert (∀ k vs, (k, vs) ∈ visit ↔ h !! k = Some vs) as Hin.
  { intros k vs. unfold range_of in Hr. rewrite Hr. apply elem_of_map_to_list. }
  unfold values. destruct (h !! K) as [vs|] eqn:E; cbn [default from_option].
  - apply Hin in E. rewrite (filter_key_unique visit K vs Hnd E).
    rewrite bind_cons. cbn. by rewrite app_nil_r.
  - rewrite filter_none; [done|].
    intros [k vs] Hkv Ek. cbn in Ek. subst k. apply Hin in Hkv. congruence.
Qed.

Lemma append_cons a s t : String a s +:+ t = String a (s +:+ t).
Proof. reflexivity. Qed.

Lemma append_nil_l t : "" +:+ t = t.
Proof. reflexivity. Qed.

Lemma append_nil_r s : s +:+ "" = s.
Proof. induction s as [|a s IH]; [done|]. by rewrite append_cons, IH. Qed.

Lemma append_assoc s t u : (s +:+ t) +:+ u = s +:+ (t +:+ u).
Proof. induction s as [|a s IH]; [done|]. by rewrite !append_cons, IH. Qed.

Lemma length_append s t : String.length (s +:+ t) = (String.length s + String.length t)%nat.
Proof. induction s as [|a s IH]; [done|]. rewrite append_cons. cbn [String.length]. by rewrite IH. Qed.

Lemma length_zero s : String.length s = 0%nat → s = "".
Proof. by destruct s. Qed.

Lemma bytes_of_app l1 l2 : bytes_of (l1 ++ l2) = bytes_of l1 +:+ bytes_of l2.
Proof.
  unfold bytes_of. induction l1 as [|s l1 IH]; [done|].
  cbn [app foldr]. by rewrite IH, append_assoc.
Qed.

(** The reads that answer no error are all copied. *)
Lemma Copy_more (l : list string) tail buf :
  resolvers.Copy (((λ s, (s, resolvers.more)) <$> l) ++ tail) buf
  = match resolvers.Copy tail (buf +:+ bytes_of l) with
    | (buf', n, err) => (buf', (String.length (bytes_of l) + n)%nat, err)
    end.
Proof.
  revert buf. induction l as [|s l IH]; intros buf.
  - cbn [fmap list_fmap app bytes_of foldr]. rewrite append_nil_r.
    by destruct (resolvers.Copy tail buf) as [[? ?] ?].
  - cbn [fmap list_fmap app resolvers.Copy]. rewrite IH.
    change (bytes_of (s :: l)) with (s +:+ bytes_of l).
    rewrite append_assoc, length_append.
    destruct (resolvers.Copy tail _) as [[? ?] ?]. by rewrite Nat.add_assoc.
Qed.

End api_more.

(** X17.  [HTTPRequestLogs] answers all records or none.  When the read
    of the service answers records, and every one has a recognized
    method, the resolver answers one entry for each record, in the order
    of the records, each the projection of its record; when a record has a
    method outside the recognized set, the resolver answers the
    invalid-method error of the first such record and no entry at all,
    not even for the records before it.  An error of the read is wrapped
    and answered. *)
Theorem HTTPRequestLogs_all_or_nothing
  (order : nat → list (string * list string) * list (string * list string))
  (find : M (list reqlog.Request.t)) (w : World) :
  match find w with
  | (Err err, w') =>
      resolvers.HTTPRequestLogs order find w
      = (Err (errorString ("could not query repository for requests: " +:+ Error err)), w')
  | (Ok reqs, w') =>
      (Forall (λ r, api.IsValid (http.Request.Method (reqlog.Request.Request r)) = true) reqs →
       ∃ logs,
         resolvers.HTTPRequestLogs order find w = (Ok logs, w')
         ∧ length logs = length reqs
         ∧ ∀ i r, reqs !! i = Some r →
             ∃ log, logs !! i = Some log
                    ∧ api.parseRequestLog (order i).1 (order i).2 r = Ok log)
      ∧ (∀ l1 r l2,
           reqs = l1 ++ r :: l2 →
           Forall (λ r, api.IsValid (http.Request.Method (reqlog.Request.Request r)) = true) l1 →
           api.IsValid (http.Request.Method (reqlog.Request.Request r)) = false →
           resolvers.HTTPRequestLogs order find w
           = (Err (errorString ("request has invalid method: "
                                +:+ http.Request.Method (reqlog.Request.Request r))), w'))
  end.
Proof.
  unfold resolvers.HTTPRequestLogs. destruct (find w) as [[reqs|err] w']; [|done]. split.
  - intros Hvalid.
    destruct (fill_valid order 0 reqs (replicate (length reqs) resolvers.zero))
      as (logs & -> & Hl & _ & Hk); [by rewrite length_replicate|done|].
    exists logs. split; [done|]. split; [by rewrite Hl, length_replicate|]. exact Hk.
  - intros l1 r l2 -> Hvalid Hr. by rewrite fill_invalid.
Qed.

(** X18.  The header list of an entry holds what the header map of the
    record holds.  When [parseRequestLog] succeeds, the entry has no
    header list exactly when the record has no header map; otherwise, for
    every key, the values listed under the key are the values of the map
    under it, in their order, whatever order the loop over the map takes.
    The same holds for the response of the record. *)
Theorem parseRequestLog_lists_header_values
  (visit visit_res : list (string * list string)) (req : reqlog.Request.t)
  (log : api.HTTPRequestLog.t) :
  api.parseRequestLog visit visit_res req = Ok log →
  range_of_header (http.Request.Header (reqlog.Request.Request req)) visit →
  match http.Request.Header (reqlog.Request.Request req), api.HTTPRequestLog.Headers log with
  | Some h, Some hs =>
      ∀ k, api.Value <$> filter (λ x, api.Key x = k) hs = values h k
  | None, None => True
  | _, _ => False
  end
  ∧ match reqlog.Request.Response req, api.HTTPRequestLog.Response log with
    | Some s, Some l =>
        range_of_header (http.Response.Header (reqlog.Response.Response s)) visit_res →
        match http.Response.Header (reqlog.Response.Response s), api.HTTPResponseLog.Headers l with
        | Some h, Some hs =>
            ∀ k, api.Value <$> filter (λ x, api.Key x = k) hs = values h k
        | None, None => True
        | _, _ => False
        end
    | None, None => True
    | _, _ => False
    end.
Proof.
  unfold api.parseRequestLog. destruct (negb _); [done|]. intros [= <-] Hr.
  cbn [api.HTTPRequestLog.Headers api.HTTPRequestLog.Response]. split.
  - destruct (http.Request.Header _) as [h|]; [|done]. intros k. by apply flatten_values.
  - destruct (reqlog.Request.Response req) as [s|]; [|done].
    cbn [api.HTTPResponseLog.Headers]. intros Hs.
    destruct (http.Response.Header _) as [h|]; [|done]. intros k. by apply flatten_values.
Qed.

Lemma parseRequestLog_lists_header_values_witness :
  let h : Header := {[ "Accept" := ["a"; "b"]; "Host" := ["x.test"] ]} in
  let req := reqlog.Request.mk 1 (http.Request.mk "GET" "http://x.test/a" "HTTP/1.1" (Some h))
               [] 7 None in
  let hs := api.flatten (map_to_list h) in
  let log := api.HTTPRequestLog.mk 1 "http://x.test/a" "HTTP/1.1" "GET" 7 None (Some hs) None in
  (api.parseRequestLog (map_to_list h) [] req = Ok log
   ∧ range_of_header (Some h) (map_to_list h))
  ∧ ∀ k, api.Value <$> filter (λ x, api.Key x = k) hs = values h k.
Proof.
  intros h req hs log.
  assert (api.parseRequestLog (map_to_list h) [] req = Ok log) as E by reflexivity.
  assert (range_of_header (Some h) (map_to_list h)) as Hr
    by (unfold range_of_header, range_of; reflexivity).
  split; [split; [exact E|exact Hr]|].
  exact (proj1 (parseRequestLog_lists_header_values (map_to_list h) [] req log E Hr)).
Defined.

(** X19.  [Filter] answers the records that pass the test, each once, in
    the order they had; filtering the answer again by a second test is
    filtering once by both. *)
Theorem Filter_keeps_passing_records_in_order
  (ss : list reqlog.Request.t) (test test' : reqlog.Request.t → bool) :
  resolvers.Filter ss test = filter (λ s, test s = true) ss
  ∧ resolvers.Filter (resolvers.Filter ss test) test'
    = resolvers.Filter ss (λ s, test s && test' s).
Proof.
  unfold resolvers.Filter. rewrite !Filter_from. cbn [app]. split; [done|].
  rewrite list_filter_filter. apply list_filter_iff. intros s.
  rewrite andb_true_iff. tauto.
Qed.

(** X20.  [OpenBodyToRead] answers the whole body or nothing.  A nil
    body gives the empty string.  When no read fails, the answer is every
    byte that was read, up to the end of the body.  When a read fails,
    the answer is the empty string, whatever was read before the failure
    and with it. *)
Theorem OpenBodyToRead_whole_body_or_nothing :
  resolvers.OpenBodyToRead None = ""
  ∧ (∀ l, resolvers.OpenBodyToRead (Some ((λ s, (s, resolvers.more)) <$> l)) = bytes_of l)
  ∧ (∀ l s rest,
       resolvers.OpenBodyToRead
         (Some (((λ s, (s, resolvers.more)) <$> l) ++ (s, resolvers.EOF) :: rest))
       = bytes_of (l ++ [s]))
  ∧ (∀ l s msg rest,
       resolvers.OpenBodyToRead
         (Some (((λ s, (s, resolvers.more)) <$> l) ++ (s, resolvers.failed msg) :: rest))
       = "").
Proof.
  split; [done|]. unfold resolvers.OpenBodyToRead. split; [|split].
  - intros l. rewrite <- (app_nil_r (_ <$> l)), Copy_more. cbn [resolvers.Copy].
    rewrite append_nil_l, Nat.add_0_r. cbn [bool_decide decide_rel orb].
    rewrite bool_decide_eq_false_2 by (by intros H). cbn [orb].
    destruct (Nat.eqb_spec (String.length (bytes_of l)) 0) as [E|E]; [|done].
    by rewrite (length_zero _ E).
  - intros l s rest. rewrite Copy_more. cbn [resolvers.Copy].
    rewrite append_nil_l, bytes_of_app. cbn [bytes_of foldr]. rewrite append_nil_r.
    rewrite bool_decide_eq_false_2 by (by intros H). cbn [orb].
    rewrite <- length_append.
    destruct (Nat.eqb_spec (String.length (bytes_of l +:+ s)) 0) as [E|E]; [|done].
    by rewrite (length_zero _ E).
  - intros l s msg rest. rewrite Copy_more. cbn [resolvers.Copy].
    by rewrite bool_decide_eq_true_2.
Qed.

(** X23.  The resolver of one log entry over [FindRequestLogByID] of the
    store, whatever the parser of ids is.  An id text that does not parse
    is answered with the invalid-id error and the store is not asked: the
    state of the connection, its fault schedule included, is what it was.
    A null answer without an error is given only for an id text that
    parses to an id no stored request has: this holds for every
    projection, in every state of the connection and under every fault
    schedule.  And for a projection that selects the response, in a world
    without faults, an id text that parses to an id no stored request has
    is answered with null and no error. *)
Theorem HTTPRequestLog_null_means_absent
  (Parse : string → result Z) (visit visit_res : list (string * list string))
  (fs : list CollectedField) (id : string) :
  (∀ e w,
     Parse id = Err e →
     api.HTTPRequestLog_resolver Parse visit visit_res (sqlite.FindRequestLogByID fs) id w
     = (Err (errorString ("invalid id: " +:+ Error e)), w))
  ∧ (∀ w,
       (api.HTTPRequestLog_resolver Parse visit visit_res (sqlite.FindRequestLogByID fs) id w).1
       = Ok None →
       ∃ n, Parse id = Ok n ∧ n ∉ rq_id <$> http_requests (committed w))
  ∧ (∀ n c,
       Parse id = Ok n → selects_response fs → n ∉ rq_id <$> http_requests c →
       api.HTTPRequestLog_resolver Parse visit visit_res (sqlite.FindRequestLogByID fs) id
         (quiet c)
       = (Ok None, quiet c)).
Proof.
  split; [|split].
  - intros e w E. unfold api.HTTPRequestLog_resolver. by rewrite E.
  - intros w. unfold api.HTTPRequestLog_resolver.
    destruct (Parse id) as [n|e]; [|done].
    pose proof (FindRequestLogByID_not_found_sound fs n w) as Hsound.
    destruct (sqlite.FindRequestLogByID fs n w) as [[log|e] w'].
    + by destruct (api.parseRequestLog visit visit_res log).
    + destruct e; try done. intros _. exists n. split; [done|]. by apply Hsound.
  - intros n c E Hsel Hid. apply joinResponse_iff in Hsel.
    unfold api.HTTPRequestLog_resolver, quiet. rewrite E.
    destruct (FindRequestLogByID_quiet fs n c None Hsel) as (rc & _ & _ & ->).
    apply joined_nil in Hid. by rewrite Hid.
Qed.

(** A parser that knows the text of one id: that id is not in the store
    and is answered with null, any other text is answered with the
    error. *)
Lemma HTTPRequestLog_null_means_absent_witness :
  let c := mk_DB [mk_requests_row 1 "HTTP/1.1" "http://x.test/a" "GET" [] 7] [] [] in
  let Parse := λ s : string,
    if String.eqb s "00000000-0000-0000-0000-000000000002" then Ok 2
    else Err (errorString "invalid UUID format") in
  (Parse "00000000-0000-0000-0000-000000000002" = Ok 2
   ∧ selects_response full_projection ∧ 2 ∉ rq_id <$> http_requests c)
  ∧ api.HTTPRequestLog_resolver Parse [] [] (sqlite.FindRequestLogByID full_projection)
      "00000000-0000-0000-0000-000000000002" (quiet c)
    = (Ok None, quiet c)
  ∧ api.HTTPRequestLog_resolver Parse [] [] (sqlite.FindRequestLogByID full_projection)
      "1" (quiet c)
    = (Err (errorString "invalid id: invalid UUID format"), quiet c).
Proof.
  intros c Parse.
  assert (Parse "00000000-0000-0000-0000-000000000002" = Ok 2) as H0 by reflexivity.
  assert (selects_response full_projection) as H1.
  { unfold selects_response. apply joinResponse_iff. vm_compute. reflexivity. }
  assert (2 ∉ rq_id <$> http_requests c) as H2.
  { cbn. intros H%list_elem_of_singleton. discriminate H. }
  split; [split; [exact H0|split; [exact H1|exact H2]]|]. split.
  - exact (proj2 (proj2 (HTTPRequestLog_null_means_absent Parse [] [] full_projection
                           "00000000-0000-0000-0000-000000000002")) 2 c H0 H1 H2).
  - exact (proj1 (HTTPRequestLog_null_means_absent Parse [] [] full_projection "1")
             (errorString "invalid UUID format") (quiet c) eq_refl).
Defined.

Lemma HTTPRequestLogs_all_or_nothing_witness :
  let valid := reqlog.Request.mk 1 (http.Request.mk "GET" "http://x.test/a" "HTTP/1.1" None)
                 [] 7 None in
  let invalid := reqlog.Request.mk 2 (http.Request.mk "BREW" "http://x.test/b" "HTTP/1.1" None)
                   [] 8 None in
  let find : M (list reqlog.Request.t) := ret [valid; invalid; valid] in
  (Forall (λ r, api.IsValid (http.Request.Method (reqlog.Request.Request r)) = true) [valid]
   ∧ api.IsValid (http.Request.Method (reqlog.Request.Request invalid)) = false)
  ∧ resolvers.HTTPRequestLogs (λ _, ([], [])) find (quiet empty_DB)
    = (Err (errorString "request has invalid method: BREW"), quiet empty_DB).
Proof.
  intros valid invalid find.
  assert (Forall (λ r, api.IsValid (http.Request.Method (reqlog.Request.Request r)) = true)
            [valid]) as H1 by (repeat constructor).
  assert (api.IsValid (http.Request.Method (reqlog.Request.Request invalid)) = false) as H2
    by reflexivity.
  split; [split; [exact H1|exact H2]|].
  exact (proj2 (HTTPRequestLogs_all_or_nothing (λ _, ([], [])) find (quiet empty_DB))
           [valid] invalid [valid] eq_refl H1 H2).
Defined.


(** ** The schema *)

(** X21.  [prepareSchema] creates what is missing and keeps what is
    there.  On a connection without faults it succeeds on every file;
    afterwards the three tables exist, a table that existed holds the rows
    it held and a table that did not is empty, so a second call changes
    nothing.  On a blank file the result is the empty store, and the file
    of a store is left as it is. *)
Theorem prepareSchema_creates_missing_tables_only (f : schema.File) :
  let f' :=
    schema.mk_File (Some (default [] (schema.requests_table f)))
      (Some (default [] (schema.responses_table f)))
      (Some (default [] (schema.headers_table f))) in
  schema.prepareSchema (schema.mk_Conn f []) = (Ok tt, schema.mk_Conn f' [])
  ∧ schema.prepareSchema (schema.mk_Conn f' []) = (Ok tt, schema.mk_Conn f' [])
  ∧ (f = schema.blank → f' = schema.of_DB empty_DB)
  ∧ (∀ d, f = schema.of_DB d → f' = f).
Proof.
  destruct f as [[q|] [s|] [h|]]; cbn; repeat split; try done; by intros d ->.
Qed.

(** X22.  [prepareSchema] is not atomic.  When the driver fails the
    statement of index [k], the error names the table of that statement;
    the tables of the statements before it have been created and stay
    created, and the statements after it are not run. *)
Theorem prepareSchema_stops_at_first_failure
  (f : schema.File) (k : nat) (s : schema.create_stmt) (name msg : string)
  (rest : list (option string)) :
  schema_statements !! k = Some (s, name) →
  schema.prepareSchema (schema.mk_Conn f (replicate k None ++ Some msg :: rest))
  = (Err (errorString ("could not create " +:+ name +:+ " table: " +:+ msg)),
     schema.mk_Conn (created k f) rest).
Proof.
  destruct k as [|[|[|k]]]; intros [= <- <-]; reflexivity.
Qed.

Lemma prepareSchema_stops_at_first_failure_witness :
  let f := schema.mk_File (Some [mk_requests_row 1 "HTTP/1.1" "http://x.test/a" "GET" [] 7])
             None None in
  schema_statements !! 2%nat = Some (schema.create_http_headers, "http_headers")
  ∧ schema.prepareSchema (schema.mk_Conn f [None; None; Some "disk full"])
    = (Err (errorString "could not create http_headers table: disk full"),
       schema.mk_Conn
         (schema.mk_File (Some [mk_requests_row 1 "HTTP/1.1" "http://x.test/a" "GET" [] 7])
            (Some []) None) []).
Proof.
  intros f. split; [reflexivity|].
  exact (prepareSchema_stops_at_first_failure f 2 schema.create_http_headers "http_headers"
           "disk full" [] eq_refl).
Defined.


(** ** The admin page *)

(** X24.  The URL that a click on a log entry navigates to.  It always
    starts with the path of the page and ends with the id of the entry.
    With a search text on the page, it is the URL of that search followed
    by the id, so the search is kept.  With an empty search text there is
    no search parameter.  With no search parameter on the page at all, the
    search parameter of the URL is the text [undefined]. *)
Theorem handleLogClick_url (filter : LogsOverview.query_value) (reqId : string) :
  (∃ middle, LogsOverview.handleLogClick filter reqId
             = "/proxy/logs?" +:+ middle +:+ "id=" +:+ reqId)
  ∧ (∀ s, filter = LogsOverview.text s → s ≠ "" →
          LogsOverview.handleLogClick filter reqId
          = LogsOverview.handleSearch s +:+ "&id=" +:+ reqId)
  ∧ (filter = LogsOverview.text "" →
     LogsOverview.handleLogClick filter reqId = "/proxy/logs?id=" +:+ reqId)
  ∧ (filter = LogsOverview.undefined →
     LogsOverview.handleLogClick filter reqId = "/proxy/logs?s=undefined&id=" +:+ reqId).
Proof.
  unfold LogsOverview.handleLogClick, LogsOverview.handleSearch. split; [|split; [|split]].
  - destruct (LogsOverview.differs_from_empty filter).
    + exists ("s=" +:+ LogsOverview.ToString filter +:+ "&"). by rewrite !append_assoc.
    + by exists "".
  - intros s -> Hs. cbn [LogsOverview.differs_from_empty LogsOverview.ToString].
    apply String.eqb_neq in Hs as ->. cbn [negb]. by rewrite !append_assoc.
  - by intros ->.
  - by intros ->.
Qed.

Lemma handleLogClick_url_witness :
  (LogsOverview.text "login" = LogsOverview.text "login" ∧ "login" ≠ "")
  ∧ LogsOverview.handleLogClick (LogsOverview.text "login") "7"
    = LogsOverview.handleSearch "login" +:+ "&id=" +:+ "7".
Proof.
  assert ("login" ≠ "") as H by discriminate.
  split; [split; [reflexivity|exact H]|].
  exact (proj1 (proj2 (handleLogClick_url (LogsOverview.text "login") "7")) "login" eq_refl H).
Defined.
